(** * nge::cntr::Map: the open-addressing hash map of the engine

    A shallow embedding of [include/engine/containers/map.h] (the revision
    with separate key and value iterators and a [void] [remove]) together
    with the probing loop of its sibling revision (the one with a single
    pair iterator and a value-returning [remove]).

    Conventions.
    - [uint32] values are integers in [Z]; every operation that can leave
      the range [0, 2^32) has its wrap-around written out with [uint32].
    - An operation whose C++ execution trips an [assert], divides by zero
      or reads or writes outside an array returns [None]; [Some] carries
      the result of a completed call.
    - [_bins] is a raw pointer: [None] is [nullptr], [Some bs] an array
      whose cells are [bs]. *)

From Stdlib Require Import ZArith Lia.
From stdpp Require Import base decidable option list numbers.

Local Open Scope Z_scope.

(** An error-propagating bind for the partial operations below. *)
Notation "'let?' x ':=' c 'in' k" :=
  (match c with Some x => k | None => None end)
  (at level 10, x pattern, c at level 100, k at level 200).

(** ** 32-bit unsigned arithmetic *)

Definition uint32 (x : Z) : Z := x mod 2 ^ 32.

Definition is_uint32 (x : Z) : Prop := 0 <= x < 2 ^ 32.

(** ** memory_utils.h *)

Module MemoryUtils.

(** [for ( i = 0; i < count; ++i ) ptr[i] = value;] entered at cell [i]
    with [count] iterations left. *)
Fixpoint set_loop {T} (ptr : list T) (value : T) (i count : nat)
  : option (list T) :=
  match count with
  | O => Some ptr
  | S count' =>
      if decide (i < length ptr)%nat
      then set_loop (<[i := value]> ptr) value (S i) count'
      else None
  end.

Definition set {T} (ptr : option (list T)) (value : T) (count : Z)
  : option (option (list T)) :=
  match ptr with
  | Some cells =>
      let? cells' := set_loop cells value 0 (Z.to_nat count) in
      Some (Some cells')
  | None => if decide (count = 0) then Some None else None
  end.

(** [for ( i = 0; i < count; ++i ) dst[i] = src[i];] *)
Fixpoint copy_loop {T} (dst src : list T) (i count : nat)
  : option (list T) :=
  match count with
  | O => Some dst
  | S count' =>
      if decide (i < length dst)%nat
      then let? x := src !! i in copy_loop (<[i := x]> dst) src (S i) count'
      else None
  end.

Definition copy {T} (dst src : option (list T)) (count : Z)
  : option (option (list T)) :=
  match dst, src with
  | Some d, Some s =>
      let? d' := copy_loop d s 0 (Z.to_nat count) in Some (Some d')
  | _, _ => if decide (count = 0) then Some dst else None
  end.

End MemoryUtils.

(** ** The pair store *)

Module DynamicArray.

Section Ops.

Context {T : Type}.

(** Modelled from the spec: [engine/containers/dynamic_array.h] is not
    part of the sources at hand.  The pair store is the "ordered,
    index-addressable sequence of entries, insertion order preserved
    except that removal compacts by shifting later elements down by one
    position"; an out-of-range index is a precondition violation. *)
Definition size (a : list T) : Z := uint32 (Z.of_nat (length a)).

Definition isEmpty (a : list T) : bool := bool_decide (size a = 0).

Definition at_ (a : list T) (index : Z) : option T :=
  if decide (0 <= index) then a !! Z.to_nat index else None.

Definition assign (a : list T) (index : Z) (x : T) : option (list T) :=
  let? _ := at_ a index in Some (<[Z.to_nat index := x]> a).

Definition push (a : list T) (x : T) : list T := a ++ [x].

Definition removeAt (a : list T) (index : Z) : option (T * list T) :=
  let? x := at_ a index in Some (x, delete (Z.to_nat index) a).

Definition clear (a : list T) : list T := [].

(** Modelled from the spec: the move constructor of the pair store is
    not part of the sources at hand.  "Moving a map transfers ownership of
    both backing allocations and resets the source to an empty-but-valid
    state"; the result is the new store and what is left of the source. *)
Definition move (a : list T) : list T * list T := (a, []).

End Ops.

End DynamicArray.

(** ** The map *)

Section Map.

Context {K V : Type} `{EqDecision K}.

Record Pair : Type := makePair { key : K; value : V }.

Definition MIN_BINS : Z := 32.
Definition BIN_EMPTY : Z := uint32 (-1).
Definition GROW_THRESHOLD : Z := 70.
Definition SHRINK_THRESHOLD : Z := 30.

(** The members of the class.  [_binAlloc] carries no state of its own in
    this model. *)
Record Map : Type := mkMap {
  _pairs : list Pair;
  _hashFunc : K -> Z;
  _bins : option (list Z);
  _binsInUse : Z;
  _binCount : Z
}.

Definition with_pairs (m : Map) (ps : list Pair) : Map :=
  mkMap ps (_hashFunc m) (_bins m) (_binsInUse m) (_binCount m).

Definition with_bins (m : Map) (bs : option (list Z)) : Map :=
  mkMap (_pairs m) (_hashFunc m) bs (_binsInUse m) (_binCount m).

Definition with_binsInUse (m : Map) (n : Z) : Map :=
  mkMap (_pairs m) (_hashFunc m) (_bins m) n (_binCount m).

Definition with_binCount (m : Map) (n : Z) : Map :=
  mkMap (_pairs m) (_hashFunc m) (_bins m) (_binsInUse m) n.

(** Modelled from the spec: the allocator guard ([engine/memory]) is not
    part of the sources at hand.  [get n] hands out a fresh block of [n]
    cells; their initial content is unspecified, and every caller below
    overwrites all of it before reading any. *)
Definition binAlloc_get (n : Z) : option (list Z) :=
  Some (replicate (Z.to_nat n) 0).

(** [_bins[i]] read. *)
Definition bin_at (m : Map) (i : Z) : option Z :=
  let? bs := _bins m in
  if decide (0 <= i) then bs !! Z.to_nat i else None.

(** [_bins[i] = x]. *)
Definition bin_store (m : Map) (i x : Z) : option Map :=
  let? bs := _bins m in
  if decide (0 <= i < Z.of_nat (length bs))
  then Some (with_bins m (Some (<[Z.to_nat i := x]> bs)))
  else None.

(** *** Helper functions *)

Definition hash (m : Map) (k : K) : Z := uint32 (_hashFunc m k).

Definition probe (probes : Z) : Z := probes.

Definition wrap (m : Map) (index : Z) : Z :=
  Z.land index (uint32 (_binCount m - 1)).

Definition isBinEmpty (m : Map) (binIndex : Z) : option bool :=
  if decide (binIndex < _binCount m)
  then let? b := bin_at m binIndex in Some (bool_decide (b = BIN_EMPTY))
  else None.

Definition doesBinContain (m : Map) (binIndex : Z) (k : K) : option bool :=
  if decide (binIndex < _binCount m)
  then
    let? e := isBinEmpty m binIndex in
    if e : bool then Some false
    else
      let? b := bin_at m binIndex in
      let? p := DynamicArray.at_ (_pairs m) b in
      Some (bool_decide (key p = k))
  else Some false.

(** The two revisions differ in one expression, the increment of the
    probing loop:
    - map.h:      [i = probe( ++probes )]
    - sibling:    [i = wrap( i + probe( ++probes ) )] *)
Inductive Revision : Type := KeyValueIterators | PairIterator.

Definition advance (r : Revision) (m : Map) (i probes : Z) : Z :=
  match r with
  | KeyValueIterators => probe probes
  | PairIterator => wrap m (uint32 (i + probe probes))
  end.

(** The [for] loop of [findBinForKey], entered with the loop variables
    [i] and [probes]; [fuel] bounds the number of times the condition is
    evaluated. *)
Fixpoint findBin_loop (r : Revision) (fuel : nat) (m : Map) (k : K)
    (i probes : Z) : option Z :=
  match fuel with
  | O => None
  | S fuel' =>
      let? e := isBinEmpty m i in
      if e : bool then Some i
      else
        let? c := doesBinContain m i k in
        if c : bool then Some i
        else
          let probes' := uint32 (probes + 1) in
          findBin_loop r fuel' m k (advance r m i probes') probes'
  end.

(** map.h.  The loop visits [wrap( hash )] and then the bins 1, 2, 3, ...;
    it leaves through the [return] or through the assertion of
    [isBinEmpty] at bin [_binCount], so [_binCount + 1] evaluations of the
    condition are all it can make (lemma [findBinForKey_fuel]). *)
Definition findBinForKey (m : Map) (k : K) : option Z :=
  findBin_loop KeyValueIterators (S (Z.to_nat (_binCount m))) m k
    (wrap m (hash m k)) 0.

(** The sibling revision.  Its loop need not terminate; the bound is a
    parameter. *)
Definition findBinForKey_sibling (fuel : nat) (m : Map) (k : K) : option Z :=
  findBin_loop PairIterator fuel m k (wrap m (hash m k)) 0.

Definition shouldShrink (m : Map) : option bool :=
  if decide (_binCount m = 0) then None
  else Some (bool_decide
               (uint32 (_binsInUse m * 100) / _binCount m <= SHRINK_THRESHOLD)
             && bool_decide (_binCount m > MIN_BINS)).

Definition shouldGrow (m : Map) : option bool :=
  if decide (_binCount m = 0) then None
  else Some (bool_decide
               (uint32 (_binsInUse m * 100) / _binCount m >= GROW_THRESHOLD)).

Definition clearBins (m : Map) : option Map :=
  let? bs := MemoryUtils.set (_bins m) BIN_EMPTY (_binCount m) in
  Some (with_bins m bs).

(** The rehash loop of [resize]:
    [for ( i = 0; i < _pairs.size(); ++i )
       { pos = findBinForKey( _pairs[i].key ); _bins[pos] = i; }] *)
Fixpoint resize_loop (todo : nat) (i : Z) (m : Map) : option Map :=
  match todo with
  | O => Some m
  | S todo' =>
      let? p := DynamicArray.at_ (_pairs m) i in
      let? pos := findBinForKey m (key p) in
      let? m' := bin_store m pos i in
      resize_loop todo' (i + 1) m'
  end.

Definition resize (m : Map) (newSize : Z) : option Map :=
  let? _ := _bins m in
  let? fresh := binAlloc_get newSize in
  let? m1 := clearBins (with_binCount (with_bins m (Some fresh)) newSize) in
  resize_loop (Z.to_nat (DynamicArray.size (_pairs m1))) 0 m1.

Definition grow (m : Map) : option Map :=
  resize m (uint32 (Z.shiftl (_binCount m) 1)).

Definition shrink (m : Map) : option Map :=
  resize m (Z.shiftr (_binCount m) 1).

(** *** Constructors *)

(** [Map( hashFunc )]; [Map()] is the same with the library hasher. *)
Definition Map_new (hashFunc : K -> Z) : option Map :=
  let? bs := binAlloc_get MIN_BINS in
  clearBins (mkMap [] hashFunc (Some bs) 0 MIN_BINS).

(** [while ( _binCount < capacity ) _binCount <<= 1;] *)
Fixpoint round_loop (fuel : nat) (binCount capacity : Z) : option Z :=
  if decide (binCount < capacity)
  then match fuel with
       | O => None
       | S fuel' => round_loop fuel' (uint32 (Z.shiftl binCount 1)) capacity
       end
  else Some binCount.

(** [Map( capacity, hashFunc )].  The loop stops within 26 doublings or
    never (lemmas [round_loop_fuel] and [round_loop_diverges]). *)
Definition Map_capacity (capacity : Z) (hashFunc : K -> Z) : option Map :=
  let? n := round_loop 32 MIN_BINS capacity in
  let? bs := binAlloc_get n in
  clearBins (mkMap [] hashFunc (Some bs) 0 n).

(** [Map( const Map& )].  [operator=( const Map& )] from another object
    builds the same object, after it has handed the bins of the target
    back to the allocator.  The assignment of a map to itself is not
    this function: the operator has no guard for it, releases [_bins],
    takes a fresh block and copies that block onto itself (a step of
    its own in [reachable] below). *)
Definition Map_copy (m : Map) : option Map :=
  let? fresh := binAlloc_get (_binCount m) in
  let? bs := MemoryUtils.copy (Some fresh) (_bins m) (_binCount m) in
  Some (mkMap (_pairs m) (_hashFunc m) bs (_binsInUse m) (_binCount m)).

(** [Map( Map&& )]: the new object and the state the source is left in.
    [operator=( Map&& )] from another object leaves the same two states,
    after it has handed the bins of the target back to the allocator; a
    move of a map to itself is not this function (it is a step of its
    own in [reachable] below).
    [_hashFunc] of the source is a moved-from [std::function]: what it
    holds is unspecified, and with the usual libraries it is empty, so
    that a call of it throws.  The record has no empty function; the
    field keeps the function it had, and nothing is stated of a call on
    the source that reaches [hash]. *)
Definition Map_move (m : Map) : Map * Map :=
  let '(ps, rest) := DynamicArray.move (_pairs m) in
  (mkMap ps (_hashFunc m) (_bins m) (_binsInUse m) (_binCount m),
   mkMap rest (_hashFunc m) None 0 0).

(** [~Map()]: the block handed back to the allocator, if any. *)
Definition Map_destroy (m : Map) : option (list Z) := _bins m.

(** *** Operators and member functions *)

(** [const V& operator[]( const K& ) const] *)
Definition get (m : Map) (k : K) : option V :=
  let? binIndex := findBinForKey m k in
  let? e := isBinEmpty m binIndex in
  if e : bool then None
  else
    let? b := bin_at m binIndex in
    let? p := DynamicArray.at_ (_pairs m) b in
    Some (value p).

(** [V& operator[]( const K& )]: the map after the call and the value the
    returned reference designates.  [value_] is the object the
    declaration [V value;] of this call makes: what the default
    constructor of [V] builds when [V] is a class type; when [V] is a
    scalar type the declaration initialises nothing, and [value_] is
    whatever the memory of the local holds. *)
Definition index (value_ : V) (m : Map) (k : K) : option (Map * V) :=
  let? g := shouldGrow m in
  let? m1 := (if g : bool then grow m else Some m) in
  let? binIndex := findBinForKey m1 k in
  let? e := isBinEmpty m1 binIndex in
  let? m2 :=
    (if e : bool
     then
       let? m' := bin_store (with_binsInUse m1 (uint32 (_binsInUse m1 + 1)))
                    binIndex (DynamicArray.size (_pairs m1)) in
       Some (with_pairs m'
               (DynamicArray.push (_pairs m') (makePair k value_)))
     else Some m1) in
  let? b := bin_at m2 binIndex in
  let? p := DynamicArray.at_ (_pairs m2) b in
  Some (m2, value p).

Definition put (m : Map) (k : K) (v : V) : option Map :=
  let? binIndex := findBinForKey m k in
  let? e := isBinEmpty m binIndex in
  if e : bool
  then
    let? m' := bin_store (with_binsInUse m (uint32 (_binsInUse m + 1)))
                 binIndex (DynamicArray.size (_pairs m)) in
    Some (with_pairs m' (DynamicArray.push (_pairs m') (makePair k v)))
  else
    let? b := bin_at m binIndex in
    let? ps := DynamicArray.assign (_pairs m) b (makePair k v) in
    Some (with_pairs m ps).

(** The "correct bin indices" loop of [remove]:
    [for ( i = 0; i < _binCount; ++i )
       if ( !isBinEmpty( i ) && _bins[i] > _bins[binIndex] ) --( _bins[i] );] *)
Fixpoint fixup_loop (todo : nat) (i : Z) (binIndex : Z) (m : Map)
  : option Map :=
  match todo with
  | O => Some m
  | S todo' =>
      let? e := isBinEmpty m i in
      let? m' :=
        (if e : bool then Some m
         else
           let? x := bin_at m i in
           let? y := bin_at m binIndex in
           if decide (x > y) then bin_store m i (uint32 (x - 1)) else Some m) in
      fixup_loop todo' (i + 1) binIndex m'
  end.

(** [void remove( const K& )] of map.h. *)
Definition remove (m : Map) (k : K) : option Map :=
  let? s := shouldShrink m in
  let? m1 := (if s : bool then shrink m else Some m) in
  let? binIndex := findBinForKey m1 k in
  let? e := isBinEmpty m1 binIndex in
  if e : bool then Some m1
  else
    let m2 := with_binsInUse m1 (uint32 (_binsInUse m1 - 1)) in
    let? b := bin_at m2 binIndex in
    let? (_, ps) := DynamicArray.removeAt (_pairs m2) b in
    let? m3 := fixup_loop (Z.to_nat (_binCount m2)) 0 binIndex
                 (with_pairs m2 ps) in
    bin_store m3 binIndex BIN_EMPTY.

Definition has (m : Map) (k : K) : option bool :=
  let? binIndex := findBinForKey m k in
  let? e := isBinEmpty m binIndex in
  Some (negb e).

Definition clear (m : Map) : option Map :=
  let? m1 := clearBins m in
  Some (with_binsInUse (with_pairs m1 (DynamicArray.clear (_pairs m1))) 0).

Definition size (m : Map) : Z := DynamicArray.size (_pairs m).

Definition isEmpty (m : Map) : bool := DynamicArray.isEmpty (_pairs m).

End Map.

Arguments Pair : clear implicits.
Arguments Map : clear implicits.

(** ** The probe sequence and the data-model invariant *)

Section Model.

Context {K V : Type} `{EqDecision K}.

Implicit Types (m : Map K V) (k : K).

(** The loop variables [(i, probes)] of [findBinForKey] after [n]
    increments. *)
Fixpoint probe_state (r : Revision) m (n : nat) (i probes : Z) : Z * Z :=
  match n with
  | O => (i, probes)
  | S n' =>
      let probes' := uint32 (probes + 1) in
      probe_state r m n' (advance r m i probes') probes'
  end.

(** The [n]-th bin the loop of revision [r] looks at for key [k]. *)
Definition candidate (r : Revision) m k (n : nat) : Z :=
  fst (probe_state r m n (wrap m (hash m k)) 0).

(** The loop of [findBinForKey] ends at bin [i]: the bin is EMPTY or the
    pair it refers to has the key. *)
Definition stops m k (i : Z) : option bool :=
  let? e := isBinEmpty m i in
  if e : bool then Some true else doesBinContain m i k.

(** What the loop sees of bin [i]: nothing ([Some None], the bin is EMPTY)
    or the key of the pair the bin refers to. *)
Definition bin_key m (i : Z) : option (option K) :=
  let? e := isBinEmpty m i in
  if e : bool then Some None
  else
    let? b := bin_at m i in
    let? p := DynamicArray.at_ (_pairs m) b in
    Some (Some (key p)).

(** What the "correct bin indices" loop of [remove] makes of a bin that
    held [x], when the pair at store index [r] has been removed. *)
Definition shifted (r x : Z) : Z :=
  if decide (x <> BIN_EMPTY /\ x > r) then uint32 (x - 1) else x.

(** [remove] from the lookup on, that is after its shrink check. *)
Definition remove_after_check m k : option (Map K V) :=
  let? binIndex := findBinForKey m k in
  let? e := isBinEmpty m binIndex in
  if e : bool then Some m
  else
    let m2 := with_binsInUse m (uint32 (_binsInUse m - 1)) in
    let? b := bin_at m2 binIndex in
    let? (_, ps) := DynamicArray.removeAt (_pairs m2) b in
    let? fixed := fixup_loop (Z.to_nat (_binCount m2)) 0 binIndex
                 (with_pairs m2 ps) in
    bin_store fixed binIndex BIN_EMPTY.

(** The map [remove] looks the key up in: the map itself, or what
    [shrink()] made of it. *)
Definition after_shrink_check m m1 : Prop :=
  shouldShrink m = Some true /\ shrink m = Some m1 \/
  shouldShrink m = Some false /\ m1 = m.

(** The write-or-create [operator[]] from the lookup on, that is after
    its growth check. *)
Definition index_after_check (value_ : V) m k : option (Map K V * V) :=
  let? binIndex := findBinForKey m k in
  let? e := isBinEmpty m binIndex in
  let? after :=
    (if e : bool
     then
       let? stored := bin_store (with_binsInUse m (uint32 (_binsInUse m + 1)))
                    binIndex (DynamicArray.size (_pairs m)) in
       Some (with_pairs stored
               (DynamicArray.push (_pairs stored) (makePair k value_)))
     else Some m) in
  let? b := bin_at after binIndex in
  let? p := DynamicArray.at_ (_pairs after) b in
  Some (after, value p).



(** The probe sequence of the sibling revision in closed form: the
    offsets from the initial bin are the triangular numbers. *)
Definition triangular_candidate m k (n : nat) : Z :=
  wrap m (uint32 (hash m k + Z.of_nat n * (Z.of_nat n + 1) / 2)).


(** The bins in use. *)
Definition live_bins (bs : list Z) : list Z :=
  filter (fun b => b <> BIN_EMPTY) bs.

(** Bin-table invariant, third part: a bin holding [target] lies on the
    probe sequence of [k], and no bin before it on that sequence is
    EMPTY. *)
Definition reaches m k (target : Z) : Prop :=
  exists n : nat,
    bin_at m (candidate KeyValueIterators m k n) = Some target /\
    forall j : nat, (j < n)%nat ->
      isBinEmpty m (candidate KeyValueIterators m k j) = Some false.

(** "Capacity always a power of two, minimum 32": the values a [uint32]
    bin count can take. *)
Definition is_capacity (n : Z) : Prop := exists j, 5 <= j <= 31 /\ n = 2 ^ j.

(** The representation is well-formed: the bin table is an array of
    [_binCount] cells, "capacity always a power of two, minimum 32",
    [_binsInUse] counts the pairs in the store, and that count is a
    [uint32]. *)
Record MapShape m : Prop := {
  shape_bins : exists bs, _bins m = Some bs /\ Z.of_nat (length bs) = _binCount m;
  shape_capacity : is_capacity (_binCount m);
  shape_inUse : _binsInUse m = Z.of_nat (length (_pairs m));
  shape_size : Z.of_nat (length (_pairs m)) < 2 ^ 32
}.

(** The invariant of the data model (section 3 of the specification). *)
Record MapInv m : Prop := {
  inv_shape : MapShape m;
  (* "each slot holds either EMPTY or a valid index into the pair store" *)
  inv_valid : forall bs, _bins m = Some bs ->
                Forall (fun b => b = BIN_EMPTY \/
                                 0 <= b < Z.of_nat (length (_pairs m))) bs;
  (* "the number of non-EMPTY slots equals the pair-store size" *)
  inv_count : forall bs, _bins m = Some bs ->
                length (live_bins bs) = length (_pairs m);
  (* "for every live entry at store index i, exactly one bin slot
     contains the value i" *)
  inv_unique : forall bs (i : nat), _bins m = Some bs ->
                 (i < length (_pairs m))%nat ->
                 length (filter (fun b => b = Z.of_nat i) bs) = 1%nat;
  (* "and that slot is reachable from the entry's key via the probe
     sequence without encountering an EMPTY slot first" *)
  inv_reach : forall (i : nat) p, _pairs m !! i = Some p ->
                reaches m (key p) (Z.of_nat i)
}.

(** The state of the rehash loop of [resize] after [i] iterations on the
    pairs of [m0] and a table of [N] bins: the bins refer to the first
    [i] pairs only, at most [i] of them are in use, and each of the first
    [i] keys is found. *)
Definition rehash_inv (m0 : Map K V) (N : Z) (i : nat) m : Prop :=
  _pairs m = _pairs m0 /\ _hashFunc m = _hashFunc m0 /\
  _binsInUse m = _binsInUse m0 /\ _binCount m = N /\
  (exists bs, _bins m = Some bs /\ Z.of_nat (length bs) = N /\
     Forall (fun x => x = BIN_EMPTY \/ 0 <= x < Z.of_nat i) bs /\
     (length (live_bins bs) <= i)%nat) /\
  (forall (t : nat) p, (t < i)%nat -> _pairs m0 !! t = Some p ->
     exists b, findBinForKey m (key p) = Some b /\
               bin_key m b = Some (Some (key p))).

(** The state a move leaves its source in, which a copy of such a map
    shares: "zeroed counts, null storage", [_bins] being null or, in a
    copy, a block of no cells. *)
Definition moved_from m : Prop :=
  _binsInUse m = 0 /\ _binCount m = 0 /\
  (_bins m = None \/ _bins m = Some []).

(** The states a program can bring a map into through its public
    interface, starting from a constructor.  The source of a move is
    among them, and so is what the interface makes of it.
    The assignment of a map to itself is a step of its own, since
    neither assignment operator guards against it.  In [m = m] the
    operator releases [_bins], assigns the counts to themselves, takes
    a fresh block of [_binCount] cells and copies that block onto
    itself: the bins are left with what the fresh block held, [block].
    In [m = std::move( m )] the operator releases [_bins] and zeroes the
    pointer and the counts.  What either leaves of the pair store,
    [ps], is up to the assignment of the store to itself, which is not
    part of the sources at hand: every [ps] is allowed for. *)
Inductive reachable : Map K V -> Prop :=
| reach_new hashFunc m :
    Map_new hashFunc = Some m -> reachable m
| reach_capacity capacity hashFunc m :
    is_uint32 capacity -> Map_capacity capacity hashFunc = Some m ->
    reachable m
| reach_copy m m' :
    reachable m -> Map_copy m = Some m' -> reachable m'
| reach_move m :
    reachable m -> reachable (fst (Map_move m))
| reach_moved m :
    reachable m -> reachable (snd (Map_move m))
| reach_assign_self m ps block :
    reachable m -> Z.of_nat (length block) = _binCount m ->
    reachable (mkMap ps (_hashFunc m) (Some block) (_binsInUse m)
                 (_binCount m))
| reach_move_self m ps :
    reachable m -> reachable (mkMap ps (_hashFunc m) None 0 0)
| reach_index value_ m k m' v :
    reachable m -> index value_ m k = Some (m', v) -> reachable m'
| reach_put m k v m' :
    reachable m -> put m k v = Some m' -> reachable m'
| reach_remove m k m' :
    reachable m -> remove m k = Some m' -> reachable m'
| reach_clear m m' :
    reachable m -> clear m = Some m' -> reachable m'.

End Model.


(** ** Maps in which every stored key is found *)

Section WellFormed.

Context {K V : Type} `{EqDecision K}.

Implicit Types (m : Map K V) (k : K).

(** Every pair of the store is what a lookup of its key arrives at. *)
Definition found m : Prop :=
  forall (i : nat) p, _pairs m !! i = Some p ->
    exists b, findBinForKey m (key p) = Some b /\
              bin_at m b = Some (Z.of_nat i).

(** A well-formed representation whose bins hold EMPTY or an index into
    the store, with no more bins in use than there are pairs, and in
    which every stored key is found. *)
Record MapWF m : Prop := {
  wf_shape : MapShape m;
  wf_valid : forall bs, _bins m = Some bs ->
               Forall (fun b => b = BIN_EMPTY \/
                                0 <= b < Z.of_nat (length (_pairs m))) bs;
  wf_live : forall bs, _bins m = Some bs ->
              (length (live_bins bs) <= length (_pairs m))%nat;
  wf_found : found m
}.

(** The keys of the store, in store order. *)
Definition keys m : list K := key <$> _pairs m.

(** The first fruitless probes of a lookup in map.h all fail: the initial
    bin and the bins 1, ..., [_binCount - 1] are in use by other keys. *)
Definition all_taken m k : Prop :=
  stops m k (wrap m (hash m k)) = Some false /\
  forall c, 1 <= c < _binCount m -> stops m k c = Some false.

End WellFormed.

(** ** Iterators

    [ConstKeyIterator] and [ConstValueIterator] of map.h and
    [ConstIterator] of the sibling revision have the same members and
    the same operators; they differ in what [operator*] and [operator->]
    select from the pair the iterator is at.  An iterator refers to the
    pair store of its map by address: [_iterValues] is a pointer. *)

Definition Addr : Type := nat.

Module MapIterator.

Record t : Type := make { _iterValues : option Addr; _iterIndex : Z }.

Section Ops.

Context {K V : Type}.

(** What the addresses of pair stores hold. *)
Definition Heap : Type := Addr -> option (list (Pair K V)).

(** The default constructor: [_iterValues( nullptr ), _iterIndex( 0 )]. *)
Definition new_ : t := make None 0.

(** [( const Map<K, V>* map, uint32 index )]:
    [_iterValues( &( map->_pairs ) ), _iterIndex( index )]. *)
Definition of_map (map : Addr) (index : Z) : t := make (Some map) index.

(** [operator++()] and [operator++( int32 )]: [++_iterIndex; return *this;] *)
Definition incr (it : t) : t :=
  make (_iterValues it) (uint32 (_iterIndex it + 1)).

(** [operator--()] and [operator--( int32 )]: [--_iterIndex; return *this;] *)
Definition decr (it : t) : t :=
  make (_iterValues it) (uint32 (_iterIndex it - 1)).

(** [operator*] and [operator->]: [( *_iterValues )[_iterIndex]], of
    which [select] takes the key, the value or the pair. *)
Definition deref {T} (select : Pair K V -> T) (h : Heap) (it : t)
  : option T :=
  let? a := _iterValues it in
  let? ps := h a in
  let? p := DynamicArray.at_ ps (_iterIndex it) in
  Some (select p).

(** [operator==]:
    [_iterValues == iter._iterValues && _iterIndex == iter._iterIndex] *)
Definition eqb (it iter : t) : bool :=
  bool_decide (_iterValues it = _iterValues iter)
  && bool_decide (_iterIndex it = _iterIndex iter).

(** [operator!=]:
    [_iterValues != iter._iterValues || _iterIndex != iter._iterIndex] *)
Definition neqb (it iter : t) : bool :=
  negb (bool_decide (_iterValues it = _iterValues iter))
  || negb (bool_decide (_iterIndex it = _iterIndex iter)).

(** The loop of the callers (window_manager.h, map.t.cpp):
    [for ( iter = first; iter != last; ++iter ) use( *iter );]
    with the elements it uses, in order.  [fuel] bounds the number of
    times the body runs. *)
Fixpoint traverse {T} (select : Pair K V -> T) (fuel : nat) (h : Heap)
    (iter last : t) : option (list T) :=
  if neqb iter last
  then match fuel with
       | O => None
       | S fuel' =>
           let? x := deref select h iter in
           let? rest := traverse select fuel' h (incr iter) last in
           Some (x :: rest)
       end
  else Some [].

End Ops.

End MapIterator.

Section MapIterators.

Context {K V : Type}.

(** [operator*] of [ConstKeyIterator], of [ConstValueIterator] and of the
    sibling's [ConstIterator]. *)
Definition ConstKeyIterator_deref : MapIterator.Heap -> MapIterator.t -> option K :=
  MapIterator.deref (@key K V).

Definition ConstValueIterator_deref : MapIterator.Heap -> MapIterator.t -> option V :=
  MapIterator.deref (@value K V).

Definition ConstIterator_deref
  : MapIterator.Heap -> MapIterator.t -> option (Pair K V) :=
  MapIterator.deref (fun p : Pair K V => p).

(** [cbegin()], [cend()], [cKeysBegin()], [cKeysEnd()] of the map at
    address [this]. *)
Definition cbegin (this : Addr) : MapIterator.t := MapIterator.of_map this 0.

Definition cend (this : Addr) (m : Map K V) : MapIterator.t :=
  MapIterator.of_map this (DynamicArray.size (_pairs m)).

Definition cKeysBegin (this : Addr) : MapIterator.t :=
  MapIterator.of_map this 0.

Definition cKeysEnd (this : Addr) (m : Map K V) : MapIterator.t :=
  MapIterator.of_map this (DynamicArray.size (_pairs m)).

End MapIterators.

(** ** Assignment through [operator[]]

    The callers insert with [map[key] = value] (window_manager.cpp,
    map.t.cpp): the write-or-create [operator[]] returns a reference
    into the pair store, and the assignment writes through it. *)

Section IndexAssign.

Context {K V : Type} `{EqDecision K}.

(** [V& operator[]( const K& )] with the place the returned reference
    designates: the position in the pair store, [_bins[binIndex]], of
    the pair whose value it is.  [value_] is the object the declaration
    [V value;] of this call makes, as for [index]. *)
Definition index_ref (value_ : V) (m : Map K V) (k : K)
  : option (Map K V * Z) :=
  let? g := shouldGrow m in
  let? grown := (if g : bool then grow m else Some m) in
  let? binIndex := findBinForKey grown k in
  let? e := isBinEmpty grown binIndex in
  let? after :=
    (if e : bool
     then
       let? stored :=
         bin_store (with_binsInUse grown (uint32 (_binsInUse grown + 1)))
           binIndex (DynamicArray.size (_pairs grown)) in
       Some (with_pairs stored
               (DynamicArray.push (_pairs stored) (makePair k value_)))
     else Some grown) in
  let? b := bin_at after binIndex in
  let? _ := DynamicArray.at_ (_pairs after) b in
  Some (after, b).

(** [map[key] = value;] *)
Definition index_assign (value_ : V) (m : Map K V) (k : K) (v : V)
  : option (Map K V) :=
  let? (after, b) := index_ref value_ m k in
  let? p := DynamicArray.at_ (_pairs after) b in
  Some (with_pairs after
          (<[Z.to_nat b := makePair (key p) v]> (_pairs after))).

(** [for ( i = 0; i < keys.size(); ++i ) map[keys[i]] = values[i];]
    [locals i] is the object the declaration [V value;] makes in the
    call of [operator[]] of iteration [i]. *)
Fixpoint assign_all (locals : nat -> V) (kvs : list (K * V)) (m : Map K V)
  : option (Map K V) :=
  match kvs with
  | [] => Some m
  | (k, v) :: rest =>
      let? after := index_assign (locals 0%nat) m k v in
      assign_all (fun i => locals (S i)) rest after
  end.

(** An association list in insertion order, for comparison: the value
    of a key that is there is replaced in place, a new key goes to the
    end. *)
Fixpoint alist_assign (l : list (Pair K V)) (k : K) (v : V)
  : list (Pair K V) :=
  match l with
  | [] => [makePair k v]
  | p :: rest =>
      if decide (key p = k) then makePair k v :: rest
      else p :: alist_assign rest k v
  end.

Fixpoint alist_assign_all (kvs : list (K * V)) (l : list (Pair K V))
  : list (Pair K V) :=
  match kvs with
  | [] => l
  | (k, v) :: rest => alist_assign_all rest (alist_assign l k v)
  end.

(** The value an association list gives a key. *)
Fixpoint alist_get (l : list (Pair K V)) (k : K) : option V :=
  match l with
  | [] => None
  | p :: rest => if decide (key p = k) then Some (value p)
                 else alist_get rest k
  end.

End IndexAssign.

(** ** Concrete maps

    Integer keys and values, the identity as hash function, built with
    the operations above from a default-constructed map. *)

Module Example.

Definition hashFunc (k : Z) : Z := k.

(** [put( k, 10 * k )] for each key of the list in turn. *)
Definition put_all (ks : list Z) (start : option (Map Z Z))
  : option (Map Z Z) :=
  fold_left (fun acc k => let? cur := acc in put cur k (10 * k)) ks start.

(** The keys 1, 2, ..., [n]. *)
Definition first_keys (n : nat) : list Z := Z.of_nat <$> seq 1 n.

Definition empty : option (Map Z Z) := Map_new hashFunc.

(** The map a completed construction left, for use where a map rather
    than an outcome is needed.  The maps below are kept in evaluated
    form; the lemmas [*_built] relate them to their construction. *)
Definition built (outcome : option (Map Z Z)) : Map Z Z :=
  match outcome with
  | Some m => m
  | None => mkMap [] hashFunc None 0 0
  end.

(** Key 5 alone: bin 5 is taken. *)
Definition one_key : Map Z Z :=
  Eval vm_compute in built (put_all [5] empty).

(** Keys 5 and 6: bins 5 and 6 are taken. *)
Definition two_neighbours : Map Z Z :=
  Eval vm_compute in built (put_all [5; 6] empty).

(** Keys 5 and 37 have the same initial bin, 5. *)
Definition two_colliding : Map Z Z :=
  Eval vm_compute in built (put_all [5; 37] empty).

Definition three_keys : Map Z Z :=
  Eval vm_compute in built (put_all [5; 37; 7] empty).

(** 23 keys in 32 bins: a load of 71 percent. *)
Definition loaded : Map Z Z :=
  Eval vm_compute in built (put_all (first_keys 23) empty).

(** 32 keys in 32 bins. *)
Definition full : Map Z Z :=
  Eval vm_compute in built (put_all (first_keys 32) empty).

(** One key in a table constructed with 64 bins. *)
Definition sparse : Map Z Z :=
  Eval vm_compute in
  built (let? fresh := Map_capacity 64 hashFunc in put fresh 5 50).

(** Twenty keys in a table constructed with 64 bins, the keys 5 and 69
    with the same initial bin. *)
Definition crowded : Map Z Z :=
  Eval vm_compute in
  built (let? fresh := Map_capacity 64 hashFunc in
         put_all ([5; 69] ++ (Z.of_nat <$> seq 10 18)) (Some fresh)).

(** [crowded] after [remove( 5 )]: the pair of key 69 is in the store,
    and the lookup of 69 ends at the bin the removal emptied. *)
Definition hidden : Map Z Z :=
  Eval vm_compute in built (remove crowded 5).

(** The outcomes of the calls examined below. *)
Definition loaded_put : Map Z Z :=
  Eval vm_compute in built (put loaded 24 240).

Definition loaded_index (value_ : Z) : Map Z Z :=
  Eval vm_compute in built (fst <$> index value_ loaded 24).

Definition colliding_removed : Map Z Z :=
  Eval vm_compute in built (remove two_colliding 5).

Definition three_keys_removed : Map Z Z :=
  Eval vm_compute in built (remove three_keys 5).


Definition hidden_removed : Map Z Z :=
  Eval vm_compute in built (remove hidden 69).

End Example.

(** ** A store for iterators *)

Module ExtraExample.

(** The memory in which the pair store of [m] is the object at address
    [this], and no other address holds a store. *)
Definition store_at (this : Addr) (m : Map Z Z) : @MapIterator.Heap Z Z :=
  fun a => if decide (a = this) then Some (_pairs m) else None.

(** What the uninitialised local of a call of [operator[]] may hold. *)
Definition garbage : Z := 3735928559.

(** The same for the calls of a loop, a different value each time. *)
Definition garbage_at (i : nat) : Z := garbage + Z.of_nat i.

End ExtraExample.
(** ** Basic facts *)

(** Known powers of two, as numerals for [lia]. *)
Ltac pow_consts :=
  change (2 ^ 32) with 4294967296 in *;
  change (2 ^ 31) with 2147483648 in *;
  change (2 ^ 5) with 32 in *.

Lemma uint32_range x : 0 <= uint32 x < 2 ^ 32.
Proof. unfold uint32. apply Z.mod_pos_bound. lia. Qed.

Lemma uint32_small x : 0 <= x < 2 ^ 32 -> uint32 x = x.
Proof. intros. unfold uint32. apply Z.mod_small. lia. Qed.

Lemma BIN_EMPTY_val : BIN_EMPTY = 4294967295.
Proof. reflexivity. Qed.

Lemma set_loop_lookup {T} (count : nat) : forall (ptr : list T) v (i : nat),
  (i + count <= length ptr)%nat ->
  exists r, MemoryUtils.set_loop ptr v i count = Some r /\
            length r = length ptr /\
            forall j, r !! j =
                      if decide (i <= j < i + count)%nat then Some v else ptr !! j.
Proof.
  induction count as [|count IH]; intros ptr v i Hlen; simpl.
  - exists ptr. repeat split; auto. intros j. case_decide; [lia | done].
  - case_decide; [|lia].
    destruct (IH (<[i := v]> ptr) v (S i)) as (r & Hr & Hl & Hj).
    { rewrite length_insert. lia. }
    exists r. split; [done|]. split; [by rewrite Hl, length_insert|].
    intros j. rewrite Hj.
    destruct (decide (j = i)) as [->|Hne].
    + rewrite list_lookup_insert_eq by lia.
      repeat case_decide; try lia; done.
    + rewrite list_lookup_insert_ne by done.
      repeat case_decide; try lia; done.
Qed.

Lemma set_loop_fill {T} (ptr : list T) v :
  MemoryUtils.set_loop ptr v 0 (length ptr) = Some (replicate (length ptr) v).
Proof.
  destruct (set_loop_lookup (length ptr) ptr v 0) as (r & Hr & Hl & Hj); [lia|].
  rewrite Hr. f_equal. apply list_eq. intros j. rewrite Hj.
  destruct (decide (j < length ptr)%nat).
  - rewrite lookup_replicate_2 by done. case_decide; [done | lia].
  - case_decide; [lia|].
    rewrite lookup_ge_None_2 by lia.
    symmetry. apply lookup_replicate_None. lia.
Qed.

Lemma copy_loop_lookup {T} (count : nat) : forall (dst src : list T) (i : nat),
  (i + count <= length dst)%nat -> (i + count <= length src)%nat ->
  exists r, MemoryUtils.copy_loop dst src i count = Some r /\
            length r = length dst /\
            forall j, r !! j =
                      if decide (i <= j < i + count)%nat then src !! j else dst !! j.
Proof.
  induction count as [|count IH]; intros dst src i Hd Hs; simpl.
  - exists dst. repeat split; auto. intros j. case_decide; [lia | done].
  - case_decide; [|lia].
    destruct (lookup_lt_is_Some_2 src i) as [x Hx]; [lia|]. rewrite Hx.
    destruct (IH (<[i := x]> dst) src (S i)) as (r & Hr & Hl & Hj).
    { rewrite length_insert. lia. } { lia. }
    exists r. split; [done|]. split; [by rewrite Hl, length_insert|].
    intros j. rewrite Hj.
    destruct (decide (j = i)) as [->|Hne].
    + rewrite list_lookup_insert_eq by lia.
      repeat case_decide; try lia; done.
    + rewrite list_lookup_insert_ne by done.
      repeat case_decide; try lia; done.
Qed.

Lemma copy_loop_all {T} (dst src : list T) :
  length dst = length src ->
  MemoryUtils.copy_loop dst src 0 (length src) = Some src.
Proof.
  intros Hlen.
  destruct (copy_loop_lookup (length src) dst src 0) as (r & Hr & Hl & Hj);
    [lia | lia |].
  rewrite Hr. f_equal. apply list_eq. intros j. rewrite Hj.
  case_decide; [done|].
  rewrite !lookup_ge_None_2 by lia. done.
Qed.

(** ** The probing loop *)

Section Walk.

Context {K V : Type} `{EqDecision K}.

Implicit Types (m : Map K V) (k : K) (r : Revision).

Lemma findBin_loop_S r fuel m k i p :
  findBin_loop r (S fuel) m k i p =
  let? s := stops m k i in
  if s : bool then Some i
  else findBin_loop r fuel m k (advance r m i (uint32 (p + 1))) (uint32 (p + 1)).
Proof.
  simpl. unfold stops.
  destruct (isBinEmpty m i) as [[|]|]; done.
Qed.

Lemma stops_true m k i :
  stops m k i = Some true ->
  isBinEmpty m i = Some true \/
  (isBinEmpty m i = Some false /\ doesBinContain m i k = Some true).
Proof.
  unfold stops. destruct (isBinEmpty m i) as [[|]|]; intros; auto; done.
Qed.

Lemma stops_false m k i :
  stops m k i = Some false ->
  isBinEmpty m i = Some false /\ doesBinContain m i k = Some false.
Proof.
  unfold stops. destruct (isBinEmpty m i) as [[|]|]; intros; auto; done.
Qed.

Lemma stops_empty m k i : isBinEmpty m i = Some true -> stops m k i = Some true.
Proof. unfold stops. by intros ->. Qed.

Lemma stops_contains m k i :
  isBinEmpty m i = Some false -> doesBinContain m i k = Some true ->
  stops m k i = Some true.
Proof. unfold stops. by intros -> ->. Qed.

Lemma isBinEmpty_range m i e :
  isBinEmpty m i = Some e -> 0 <= i < _binCount m.
Proof.
  unfold isBinEmpty, bin_at. case_decide; [|done].
  destruct (_bins m); [|done]. case_decide; [|done]. lia.
Qed.

Lemma stops_range m k i s : stops m k i = Some s -> 0 <= i < _binCount m.
Proof.
  unfold stops. destruct (isBinEmpty m i) as [e|] eqn:He; [|done].
  intros _. by eapply isBinEmpty_range.
Qed.

(** The loop returns only a bin at which its condition is false. *)
Lemma findBin_loop_sound r fuel : forall m k i p b,
  findBin_loop r fuel m k i p = Some b -> stops m k b = Some true.
Proof.
  induction fuel as [|fuel IH]; intros m k i p b; [done|].
  rewrite findBin_loop_S.
  destruct (stops m k i) as [[|]|] eqn:Hs; [|by apply IH|done].
  by intros [= <-].
Qed.

(** More fuel does not change a result. *)
Lemma findBin_loop_mono r fuel : forall fuel' m k i p b,
  findBin_loop r fuel m k i p = Some b -> (fuel <= fuel')%nat ->
  findBin_loop r fuel' m k i p = Some b.
Proof.
  induction fuel as [|fuel IH]; intros fuel' m k i p b; [done|].
  intros Hrun Hle. destruct fuel' as [|fuel']; [lia|].
  rewrite findBin_loop_S in *.
  destruct (stops m k i) as [[|]|]; [done| |done].
  apply IH; [done | lia].
Qed.

(** The loop looks at the bins [probe_state 0], [probe_state 1], ... in
    this order and returns the first at which it stops. *)
Lemma findBin_loop_first r (n : nat) : forall fuel m k i p,
  (forall j : nat, (j < n)%nat ->
     stops m k (fst (probe_state r m j i p)) = Some false) ->
  stops m k (fst (probe_state r m n i p)) = Some true ->
  (n < fuel)%nat ->
  findBin_loop r fuel m k i p = Some (fst (probe_state r m n i p)).
Proof.
  induction n as [|n IH]; intros fuel m k i p Hbefore Hat Hfuel;
    (destruct fuel as [|fuel]; [lia|]); rewrite findBin_loop_S.
  - simpl in *. by rewrite Hat.
  - pose proof (Hbefore 0%nat ltac:(lia)) as H0. simpl in H0. rewrite H0.
    simpl. apply IH; [|done|lia].
    intros j Hj. apply (Hbefore (S j)). lia.
Qed.

Lemma findBin_loop_inv r fuel : forall m k i p b,
  findBin_loop r fuel m k i p = Some b ->
  exists n : nat, (n < fuel)%nat /\
    b = fst (probe_state r m n i p) /\
    stops m k b = Some true /\
    forall j : nat, (j < n)%nat ->
      stops m k (fst (probe_state r m j i p)) = Some false.
Proof.
  induction fuel as [|fuel IH]; intros m k i p b; [done|].
  rewrite findBin_loop_S.
  destruct (stops m k i) as [[|]|] eqn:Hs; [| |done].
  - intros [= <-]. exists 0%nat. repeat split; [lia|done|]. intros; lia.
  - intros Hrun. destruct (IH _ _ _ _ _ Hrun) as (n & Hn & Hb & Hstop & Hbefore).
    exists (S n). repeat split; [lia|done|done|].
    intros [|j] Hj; [done|]. apply Hbefore. lia.
Qed.

(** A run of the loop is unchanged by any modification of the map that
    leaves the bins it walked past as they were for the key, and the bin
    it returned a bin at which it stops. *)
Lemma findBin_loop_ext r fuel : forall m m' k i p b,
  _binCount m' = _binCount m ->
  (forall c, stops m k c = Some false -> stops m' k c = Some false) ->
  findBin_loop r fuel m k i p = Some b ->
  stops m' k b = Some true ->
  findBin_loop r fuel m' k i p = Some b.
Proof.
  induction fuel as [|fuel IH]; intros m m' k i p b Hcount Hkeep; [done|].
  rewrite !findBin_loop_S.
  destruct (stops m k i) as [[|]|] eqn:Hs; [| |done].
  - intros [= <-] ->. done.
  - intros Hrun Hstop. rewrite (Hkeep _ Hs).
    replace (advance r m' i (uint32 (p + 1)))
      with (advance r m i (uint32 (p + 1)))
      by (destruct r; simpl; unfold wrap; by rewrite ?Hcount).
    by apply (IH m).
Qed.

Lemma findBinForKey_sound m k b :
  findBinForKey m k = Some b -> stops m k b = Some true.
Proof. apply findBin_loop_sound. Qed.

Lemma findBinForKey_range m k b :
  findBinForKey m k = Some b -> 0 <= b < _binCount m.
Proof. intros Hb. eapply stops_range, findBinForKey_sound, Hb. Qed.

Lemma findBinForKey_ext m m' k b :
  _binCount m' = _binCount m ->
  _hashFunc m' = _hashFunc m ->
  (forall c, stops m k c = Some false -> stops m' k c = Some false) ->
  findBinForKey m k = Some b ->
  stops m' k b = Some true ->
  findBinForKey m' k = Some b.
Proof.
  unfold findBinForKey, hash, wrap. intros Hcount Hhash Hkeep Hrun Hstop.
  rewrite Hcount, Hhash. by eapply findBin_loop_ext.
Qed.

(** *** The probe sequence of map.h: [wrap( hash )], 1, 2, 3, ... *)



(** From bin [j >= 1] on the loop of map.h walks [j], [j + 1], ... *)
Lemma findBin_loop_map_h_total m k (e : Z) (d : nat) : forall (j : Z) fuel,
  _binCount m < 2 ^ 32 ->
  (forall c, 0 <= c < _binCount m -> is_Some (stops m k c)) ->
  isBinEmpty m e = Some true ->
  1 <= j <= e -> Z.to_nat (e - j) = d -> (d < fuel)%nat ->
  exists b, findBin_loop KeyValueIterators fuel m k j j = Some b.
Proof.
  induction d as [|d IH]; intros j fuel Hmax Hdef He Hj Hd Hfuel;
    (destruct fuel as [|fuel]; [lia|]); rewrite findBin_loop_S;
    pose proof (isBinEmpty_range _ _ _ He) as Hre.
  - assert (j = e) as -> by lia.
    rewrite (stops_empty _ k _ He). eauto.
  - destruct (Hdef j) as [s Hs]; [lia|]. rewrite Hs.
    destruct s; [eauto|]. simpl. unfold probe.
    rewrite uint32_small by lia.
    apply IH; try done; lia.
Qed.

(** With [fuel <= _binCount + 1] the loop of map.h cannot run out of
    fuel before it reaches the assertion at bin [_binCount]. *)
Lemma findBin_loop_map_h_fuel m k (d : nat) : forall (j : Z) fuel fuel',
  _binCount m < 2 ^ 32 -> 1 <= j ->
  Z.to_nat (_binCount m - j) = d -> (d < fuel)%nat -> (fuel <= fuel')%nat ->
  findBin_loop KeyValueIterators fuel' m k j j
  = findBin_loop KeyValueIterators fuel m k j j.
Proof.
  induction d as [|d IH]; intros j fuel fuel' Hmax Hj Hd Hfuel Hle;
    (destruct fuel as [|fuel]; [lia|]); (destruct fuel' as [|fuel']; [lia|]);
    rewrite !findBin_loop_S.
  - destruct (stops m k j) as [s|] eqn:Hs; [|done].
    apply stops_range in Hs. lia.
  - destruct (stops m k j) as [[|]|] eqn:Hs; [done| |done].
    simpl. unfold probe. apply stops_range in Hs.
    rewrite uint32_small by lia.
    apply IH; try done; lia.
Qed.

(** [findBinForKey] gives the loop all the fuel it can use. *)
Lemma findBinForKey_fuel m k fuel :
  _binCount m < 2 ^ 32 ->
  (S (Z.to_nat (_binCount m)) <= fuel)%nat ->
  findBin_loop KeyValueIterators fuel m k (wrap m (hash m k)) 0
  = findBinForKey m k.
Proof.
  intros Hmax Hfuel. unfold findBinForKey.
  destruct fuel as [|fuel]; [lia|]. rewrite !findBin_loop_S.
  destruct (stops m k _) as [[|]|] eqn:Hs; [done| |done].
  simpl. unfold probe. rewrite uint32_small by lia.
  apply stops_range in Hs.
  eapply findBin_loop_map_h_fuel; try done; lia.
Qed.

(** Power-of-two capacities: [wrap] is the remainder. *)
Lemma wrap_pow2 m (j : Z) x :
  0 <= j <= 31 -> _binCount m = 2 ^ j -> wrap m x = x mod 2 ^ j.
Proof.
  intros Hj Hc. unfold wrap. rewrite Hc.
  assert (2 ^ j <= 2 ^ 31) by (apply Z.pow_le_mono_r; lia).
  assert (0 < 2 ^ j) by (apply Z.pow_pos_nonneg; lia).
  rewrite uint32_small by lia.
  replace (2 ^ j - 1) with (Z.ones j) by (rewrite Z.ones_equiv; lia).
  apply Z.land_ones. lia.
Qed.

Lemma wrap_range m (j : Z) x :
  0 <= j <= 31 -> _binCount m = 2 ^ j -> 0 <= wrap m x < _binCount m.
Proof.
  intros Hj Hc. rewrite (wrap_pow2 m j) by done. rewrite Hc.
  apply Z.mod_pos_bound. apply Z.pow_pos_nonneg; lia.
Qed.

(** Totality of the lookup of map.h: it returns as soon as one of the
    bins 1, 2, ..., [_binCount - 1] is EMPTY. *)
Lemma findBinForKey_total m k (j e : Z) :
  0 <= j <= 31 -> _binCount m = 2 ^ j ->
  (forall c, 0 <= c < _binCount m -> is_Some (stops m k c)) ->
  1 <= e -> isBinEmpty m e = Some true ->
  exists b, findBinForKey m k = Some b.
Proof.
  intros Hj Hc Hdef He1 He. unfold findBinForKey.
  rewrite findBin_loop_S.
  destruct (Hdef (wrap m (hash m k))) as [s Hs]; [by eapply wrap_range|].
  rewrite Hs. destruct s; [eauto|]. simpl. unfold probe.
  rewrite uint32_small by lia.
  pose proof (isBinEmpty_range _ _ _ He).
  assert (2 ^ j <= 2 ^ 31) by (apply Z.pow_le_mono_r; lia).
  eapply (findBin_loop_map_h_total m k e); try done; lia.
Qed.

End Walk.

(** ** Bins *)

Section Bins.

Context {K V : Type} `{EqDecision K}.

Implicit Types (m : Map K V) (k : K) (bs : list Z).

Lemma stops_bin_key m k i :
  stops m k i =
  let? bk := bin_key m i in
  Some (match bk with None => true | Some k' => bool_decide (k' = k) end).
Proof.
  unfold stops, bin_key, doesBinContain.
  destruct (isBinEmpty m i) as [[|]|] eqn:He; try done.
  pose proof (isBinEmpty_range _ _ _ He). case_decide; [|lia].
  destruct (bin_at m i); [|done]. by destruct (DynamicArray.at_ _ _).
Qed.

Lemma bin_key_stops m m' k c :
  bin_key m' c = bin_key m c -> stops m' k c = stops m k c.
Proof. intros Heq. by rewrite !stops_bin_key, Heq. Qed.

Lemma stops_true_bin_key m k b :
  stops m k b = Some true ->
  bin_key m b = Some None \/ bin_key m b = Some (Some k).
Proof.
  rewrite stops_bin_key. destruct (bin_key m b) as [[k'|]|]; [|auto|done].
  intros [= Hk]. apply bool_decide_eq_true in Hk. subst. auto.
Qed.

Lemma stops_false_bin_key m k b :
  stops m k b = Some false ->
  exists k', bin_key m b = Some (Some k') /\ k' <> k.
Proof.
  rewrite stops_bin_key. destruct (bin_key m b) as [[k'|]|]; [|done|done].
  intros [= Hk]. apply bool_decide_eq_false in Hk. eauto.
Qed.

Lemma bin_key_empty m b :
  bin_key m b = Some None <-> isBinEmpty m b = Some true.
Proof.
  unfold bin_key. destruct (isBinEmpty m b) as [[|]|]; split; try done.
  destruct (bin_at m b); [|done]. by destruct (DynamicArray.at_ _ _).
Qed.

Lemma bin_key_pair m b k :
  bin_key m b = Some (Some k) ->
  exists x p, bin_at m b = Some x /\ x <> BIN_EMPTY /\ 0 <= x /\
              _pairs m !! Z.to_nat x = Some p /\ key p = k.
Proof.
  unfold bin_key, isBinEmpty. case_decide; [|done].
  destruct (bin_at m b) as [x|]; [|done]. simpl.
  case_bool_decide; [done|].
  unfold DynamicArray.at_. case_decide; [|done].
  destruct (_pairs m !! Z.to_nat x) as [p|] eqn:Hp; [|done].
  intros [= <-]. eauto 10.
Qed.

Lemma bin_store_Some m pos x m' :
  bin_store m pos x = Some m' ->
  exists bs, _bins m = Some bs /\ 0 <= pos < Z.of_nat (length bs) /\
             m' = with_bins m (Some (<[Z.to_nat pos := x]> bs)).
Proof.
  unfold bin_store. destruct (_bins m) as [bs|]; [|done].
  case_decide; [|done]. intros [= <-]. eauto.
Qed.

Lemma bin_store_ok m bs pos x :
  _bins m = Some bs -> 0 <= pos < Z.of_nat (length bs) ->
  bin_store m pos x = Some (with_bins m (Some (<[Z.to_nat pos := x]> bs))).
Proof. unfold bin_store. intros ->. by case_decide. Qed.

Lemma bin_at_store m bs pos x c :
  _bins m = Some bs -> 0 <= pos < Z.of_nat (length bs) ->
  bin_at (with_bins m (Some (<[Z.to_nat pos := x]> bs))) c
  = if decide (c = pos) then Some x else bin_at m c.
Proof.
  intros Hbs Hpos. unfold bin_at. simpl. rewrite Hbs.
  destruct (decide (c = pos)) as [->|Hc].
  - case_decide; [|lia]. apply list_lookup_insert_eq. lia.
  - case_decide; [|done]. apply list_lookup_insert_ne. lia.
Qed.

Lemma bin_key_store_ne m bs pos x c :
  _bins m = Some bs -> 0 <= pos < Z.of_nat (length bs) -> c <> pos ->
  bin_key (with_bins m (Some (<[Z.to_nat pos := x]> bs))) c = bin_key m c.
Proof.
  intros Hbs Hpos Hc. unfold bin_key, isBinEmpty.
  rewrite (bin_at_store m bs) by done. simpl.
  destruct (decide (c = pos)); done.
Qed.

Lemma bin_key_store_eq m bs pos x :
  _bins m = Some bs -> 0 <= pos < Z.of_nat (length bs) ->
  pos < _binCount m -> x <> BIN_EMPTY ->
  bin_key (with_bins m (Some (<[Z.to_nat pos := x]> bs))) pos
  = let? p := DynamicArray.at_ (_pairs m) x in Some (Some (key p)).
Proof.
  intros Hbs Hpos Hlt Hx. unfold bin_key, isBinEmpty.
  rewrite (bin_at_store m bs) by done. simpl.
  destruct (decide (pos = pos)); [|done].
  case_decide; [|lia]. simpl.
  case_bool_decide; done.
Qed.

Lemma isBinEmpty_store_empty m bs pos :
  _bins m = Some bs -> 0 <= pos < Z.of_nat (length bs) ->
  pos < _binCount m ->
  isBinEmpty (with_bins m (Some (<[Z.to_nat pos := BIN_EMPTY]> bs))) pos
  = Some true.
Proof.
  intros Hbs Hpos Hlt. unfold isBinEmpty.
  rewrite (bin_at_store m bs) by done. simpl.
  destruct (decide (pos = pos)); [|done].
  case_decide; [|lia]. done.
Qed.

(** *** Counting the bins in use *)

Lemma live_bins_length_le bs : (length (live_bins bs) <= length bs)%nat.
Proof.
  unfold live_bins. induction bs as [|b bs IH]; [done|].
  rewrite filter_cons. case_decide; simpl; lia.
Qed.

Lemma live_bins_replicate (n : nat) : live_bins (replicate n BIN_EMPTY) = [].
Proof.
  unfold live_bins. induction n as [|n IH]; [done|]. simpl.
  rewrite filter_cons. by case_decide.
Qed.

Lemma live_bins_insert_le bs : forall (c : nat) x,
  (length (live_bins (<[c := x]> bs)) <= S (length (live_bins bs)))%nat.
Proof.
  unfold live_bins. induction bs as [|b bs IH]; intros [|c] x; simpl;
    rewrite ?filter_cons; repeat case_decide; simpl; try lia.
  all: specialize (IH c x); lia.
Qed.

Lemma live_bins_exists_empty bs :
  (length (live_bins bs) < length bs)%nat ->
  exists e : nat, bs !! e = Some BIN_EMPTY.
Proof.
  unfold live_bins. induction bs as [|b bs IH]; simpl; [lia|].
  rewrite filter_cons. destruct (decide (b = BIN_EMPTY)) as [->|Hb].
  - intros _. by exists 0%nat.
  - case_decide; [|done]. simpl. intros Hlt.
    destruct IH as [e He]; [lia|]. by exists (S e).
Qed.

(** A table with two bins to spare has an EMPTY bin past bin 0. *)
Lemma live_bins_room bs :
  (length (live_bins bs) + 2 <= length bs)%nat ->
  exists e : nat, (1 <= e)%nat /\ bs !! e = Some BIN_EMPTY.
Proof.
  destruct bs as [|b bs]; simpl; [lia|]. intros Hroom.
  destruct (live_bins_exists_empty bs) as [e He].
  { unfold live_bins in *. rewrite filter_cons in Hroom.
    case_decide; simpl in *; lia. }
  exists (S e). split; [lia|done].
Qed.

End Bins.

(** ** Rehashing *)

Section Resize.

Context {K V : Type} `{EqDecision K}.

Implicit Types (m : Map K V) (k : K) (bs : list Z).

(** When every bin in use refers to a pair of the store, the loop
    condition can be evaluated at every bin of the table. *)
Lemma stops_defined m bs k (n c : Z) :
  _bins m = Some bs -> Z.of_nat (length bs) = _binCount m ->
  Forall (fun x => x = BIN_EMPTY \/ 0 <= x < n) bs ->
  n <= Z.of_nat (length (_pairs m)) ->
  0 <= c < _binCount m -> is_Some (stops m k c).
Proof.
  intros Hbs Hlen Hvalid Hn Hc.
  destruct (lookup_lt_is_Some_2 bs (Z.to_nat c)) as [x Hx]; [lia|].
  unfold stops, doesBinContain, isBinEmpty, bin_at. rewrite Hbs.
  repeat (case_decide; [|lia]). rewrite Hx. simpl.
  case_bool_decide as Hempty; [by eexists|].
  rewrite Forall_lookup in Hvalid.
  destruct (Hvalid _ _ Hx) as [?|Hrange]; [done|].
  unfold DynamicArray.at_. case_decide; [|lia].
  destruct (lookup_lt_is_Some_2 (_pairs m) (Z.to_nat x)) as [p Hp]; [lia|].
  rewrite Hp. by eexists.
Qed.

Lemma isBinEmpty_lookup m bs (e : nat) x :
  _bins m = Some bs -> Z.of_nat (length bs) = _binCount m ->
  bs !! e = Some x ->
  isBinEmpty m (Z.of_nat e) = Some (bool_decide (x = BIN_EMPTY)).
Proof.
  intros Hbs Hlen He. pose proof (lookup_lt_Some _ _ _ He).
  unfold isBinEmpty, bin_at. rewrite Hbs.
  repeat (case_decide; [|lia]). by rewrite Nat2Z.id, He.
Qed.

(** Writing the index of a pair into the bin its key resolves to keeps
    every key that was found, found. *)
Lemma store_keeps_find m bs pos (i : nat) p k b :
  _bins m = Some bs -> Z.of_nat (length bs) = _binCount m ->
  _pairs m !! i = Some p -> Z.of_nat i <> BIN_EMPTY ->
  stops m (key p) pos = Some true ->
  findBinForKey m k = Some b -> bin_key m b = Some (Some k) ->
  findBinForKey (with_bins m (Some (<[Z.to_nat pos := Z.of_nat i]> bs))) k
    = Some b /\
  bin_key (with_bins m (Some (<[Z.to_nat pos := Z.of_nat i]> bs))) b
    = Some (Some k).
Proof.
  intros Hbs Hlen Hp Hi Hpos Hfind Hkey.
  pose proof (stops_range _ _ _ _ Hpos) as Hr.
  set (m' := with_bins m _).
  assert (bin_key m' pos = Some (Some (key p))) as Hnew.
  { unfold m'. rewrite (bin_key_store_eq m bs) by (done || lia).
    unfold DynamicArray.at_. case_decide; [|lia]. by rewrite Nat2Z.id, Hp. }
  assert (forall c, bin_key m c <> Some None -> bin_key m' c = bin_key m c)
    as Hsame.
  { intros c Hc. destruct (decide (c = pos)) as [->|Hne].
    - rewrite Hnew. by destruct (stops_true_bin_key _ _ _ Hpos) as [?| ->].
    - apply (bin_key_store_ne m bs); (done || lia). }
  assert (bin_key m' b = Some (Some k)) as Hb.
  { rewrite Hsame; [done|]. by rewrite Hkey. }
  split; [|done].
  apply (findBinForKey_ext m); try done.
  - intros c Hc. rewrite <- Hc. apply bin_key_stops, Hsame.
    destruct (stops_false_bin_key _ _ _ Hc) as (k' & -> & _). done.
  - rewrite stops_bin_key, Hb. by rewrite bool_decide_eq_true_2.
Qed.

Lemma store_finds_new m bs pos (i : nat) p :
  _bins m = Some bs -> Z.of_nat (length bs) = _binCount m ->
  _pairs m !! i = Some p -> Z.of_nat i <> BIN_EMPTY ->
  findBinForKey m (key p) = Some pos ->
  findBinForKey (with_bins m (Some (<[Z.to_nat pos := Z.of_nat i]> bs))) (key p)
    = Some pos /\
  bin_key (with_bins m (Some (<[Z.to_nat pos := Z.of_nat i]> bs))) pos
    = Some (Some (key p)).
Proof.
  intros Hbs Hlen Hp Hi Hfind.
  pose proof (findBinForKey_sound _ _ _ Hfind) as Hpos.
  pose proof (stops_range _ _ _ _ Hpos) as Hr.
  set (m' := with_bins m _).
  assert (bin_key m' pos = Some (Some (key p))) as Hnew.
  { unfold m'. rewrite (bin_key_store_eq m bs) by (done || lia).
    unfold DynamicArray.at_. case_decide; [|lia]. by rewrite Nat2Z.id, Hp. }
  split; [|done].
  apply (findBinForKey_ext m); try done.
  - intros c Hc. rewrite <- Hc. apply bin_key_stops.
    apply (bin_key_store_ne m bs); [done|lia|]. intros ->. congruence.
  - rewrite stops_bin_key, Hnew. by rewrite bool_decide_eq_true_2.
Qed.

(** One iteration of the rehash loop, from the bin the key resolved to. *)
Lemma rehash_step (m0 : Map K V) (N : Z) (i : nat) m p pos :
  rehash_inv m0 N i m ->
  _pairs m0 !! i = Some p -> Z.of_nat i <> BIN_EMPTY ->
  findBinForKey m (key p) = Some pos ->
  exists m', bin_store m pos (Z.of_nat i) = Some m' /\
             rehash_inv m0 N (S i) m'.
Proof.
  intros (Hps & Hhf & Hu & Hcount & (bs & Hbs & Hlen & Hvalid & Hlive) & Hfound)
    Hp Hne Hpos.
  assert (Z.of_nat (length bs) = _binCount m) as Hlen' by congruence.
  pose proof (findBinForKey_range _ _ _ Hpos) as Hr.
  rewrite (bin_store_ok m bs) by (done || lia).
  eexists. split; [done|].
  repeat split; try done.
  - exists (<[Z.to_nat pos := Z.of_nat i]> bs). repeat split.
    + by rewrite length_insert.
    + apply Forall_insert; [|right; lia].
      eapply Forall_impl; [|exact Hvalid].
      simpl. intros x [?|?]; [by left|right; lia].
    + pose proof (live_bins_insert_le bs (Z.to_nat pos) (Z.of_nat i)). lia.
  - intros t q Ht Hq. rewrite <- Hps in Hp.
    destruct (decide (t = i)) as [->|Hti].
    + rewrite <- Hps in Hq. assert (q = p) as -> by congruence.
      exists pos. by apply (store_finds_new m bs pos i p).
    + destruct (Hfound t q) as (b & Hb & Hkey); [lia|done|].
      exists b. apply (store_keeps_find m bs pos i p); try done.
      by eapply findBinForKey_sound.
Qed.

(** A rehash loop that completes has placed every pair. *)
Lemma resize_loop_inv (m0 : Map K V) (N : Z) (todo : nat) : forall (i : nat) m m',
  Z.of_nat (length (_pairs m0)) < 2 ^ 32 ->
  rehash_inv m0 N i m ->
  (i + todo = length (_pairs m0))%nat ->
  resize_loop todo (Z.of_nat i) m = Some m' ->
  rehash_inv m0 N (length (_pairs m0)) m'.
Proof.
  induction todo as [|todo IH]; intros i m m' Hsmall Hinv Hi; simpl.
  { intros [= <-]. by replace (length (_pairs m0)) with i by lia. }
  destruct (lookup_lt_is_Some_2 (_pairs m0) i) as [p Hp]; [lia|].
  assert (Z.of_nat i <> BIN_EMPTY) as Hne
    by (rewrite BIN_EMPTY_val; pow_consts; lia).
  pose proof Hinv as (Hps & _).
  unfold DynamicArray.at_ at 1.
  case_decide; [|lia]. rewrite Nat2Z.id, Hps, Hp.
  destruct (findBinForKey m (key p)) as [pos|] eqn:Hpos; [|done].
  destruct (rehash_step m0 N i m p pos) as (m1 & -> & Hinv1); try done.
  replace (Z.of_nat i + 1) with (Z.of_nat (S i)) by lia.
  apply IH; (done || lia).
Qed.

(** The table before the rehash loop. *)
Lemma rehash_inv_start m (N : Z) :
  0 <= N ->
  rehash_inv m N 0
    (with_binCount (with_bins m (Some (replicate (Z.to_nat N) BIN_EMPTY))) N).
Proof.
  intros HN. repeat split; try done.
  - exists (replicate (Z.to_nat N) BIN_EMPTY). repeat split.
    + rewrite length_replicate. lia.
    + apply Forall_replicate. by left.
    + by rewrite live_bins_replicate.
  - intros t p Ht. lia.
Qed.

(** The rehash loop completes whenever the new table has a bin more than
    there are pairs. *)
Lemma resize_loop_ok (m0 : Map K V) (N j : Z) (todo : nat) : forall (i : nat) m,
  0 <= j <= 31 -> N = 2 ^ j ->
  Z.of_nat (length (_pairs m0)) + 1 <= N ->
  rehash_inv m0 N i m ->
  (i + todo = length (_pairs m0))%nat ->
  exists m', resize_loop todo (Z.of_nat i) m = Some m' /\
             rehash_inv m0 N (length (_pairs m0)) m'.
Proof.
  induction todo as [|todo IH]; intros i m Hj HN Hroom Hinv Hi.
  { exists m. split; [done|]. by replace (length (_pairs m0)) with i by lia. }
  assert (N <= 2 ^ 31) by (subst N; apply Z.pow_le_mono_r; lia).
  pose proof Hinv as
    (Hps & Hhf & Hu & Hcount & (bs & Hbs & Hlen & Hvalid & Hlive) & Hfound).
  destruct (lookup_lt_is_Some_2 (_pairs m0) i) as [p Hp]; [lia|].
  assert (Z.of_nat (length bs) = _binCount m) as Hlen' by congruence.
  assert (Z.of_nat i <> BIN_EMPTY) as Hne
    by (rewrite BIN_EMPTY_val; pow_consts; lia).
  simpl. unfold DynamicArray.at_ at 1.
  case_decide; [|lia]. rewrite Nat2Z.id, Hps, Hp.
  destruct (live_bins_room bs) as (e & He1 & He); [lia|].
  destruct (findBinForKey_total m (key p) j (Z.of_nat e)) as [pos Hpos];
    [done | lia | | lia | |].
  { intros c Hc. apply (stops_defined m bs _ (Z.of_nat i)); try done.
    rewrite Hps. lia. }
  { by rewrite (isBinEmpty_lookup m bs e BIN_EMPTY). }
  rewrite Hpos.
  destruct (rehash_step m0 N i m p pos) as (m1 & -> & Hinv1); try done.
  replace (Z.of_nat i + 1) with (Z.of_nat (S i)) by lia.
  apply IH; (done || lia).
Qed.

Lemma clearBins_fresh m (N : Z) :
  0 <= N ->
  clearBins (with_binCount (with_bins m (Some (replicate (Z.to_nat N) 0))) N)
  = Some (with_binCount
            (with_bins m (Some (replicate (Z.to_nat N) BIN_EMPTY))) N).
Proof.
  intros HN. unfold clearBins, MemoryUtils.set. simpl.
  pose proof (set_loop_fill (replicate (Z.to_nat N) 0) BIN_EMPTY) as Hfill.
  rewrite length_replicate in Hfill. by rewrite Hfill.
Qed.

Lemma resize_ok m (N j : Z) :
  is_Some (_bins m) -> 0 <= j <= 31 -> N = 2 ^ j ->
  Z.of_nat (length (_pairs m)) + 1 <= N ->
  exists m', resize m N = Some m' /\
             rehash_inv m N (length (_pairs m)) m'.
Proof.
  intros [bs0 Hbs0] Hj HN Hroom. unfold resize, binAlloc_get.
  rewrite Hbs0.
  assert (0 < N) by (subst N; apply Z.pow_pos_nonneg; lia).
  assert (N <= 2 ^ 31) by (subst N; apply Z.pow_le_mono_r; lia).
  rewrite clearBins_fresh by lia. simpl.
  unfold DynamicArray.size. rewrite uint32_small by lia. rewrite Nat2Z.id.
  set (m1 := with_binCount _ _).
  destruct (resize_loop_ok m N j (length (_pairs m)) 0%nat m1)
    as (m' & Hrun & Hinv); try done.
  - apply rehash_inv_start. lia.
  - exists m'. by split.
Qed.

(** A [resize] that completes has rebuilt the table from the store. *)
Lemma resize_inv m (N : Z) m' :
  0 <= N -> Z.of_nat (length (_pairs m)) < 2 ^ 32 ->
  resize m N = Some m' ->
  rehash_inv m N (length (_pairs m)) m'.
Proof.
  intros HN Hsmall. unfold resize, binAlloc_get.
  destruct (_bins m); [|done].
  rewrite clearBins_fresh by lia. simpl.
  unfold DynamicArray.size. rewrite uint32_small by lia. rewrite Nat2Z.id.
  apply (resize_loop_inv m N (length (_pairs m)) 0%nat); try done.
  by apply rehash_inv_start.
Qed.

(** The fields [resize] leaves alone, and the new capacity. *)
Lemma resize_loop_fields (todo : nat) : forall (i : Z) m m',
  resize_loop todo i m = Some m' ->
  _pairs m' = _pairs m /\ _hashFunc m' = _hashFunc m /\
  _binsInUse m' = _binsInUse m /\ _binCount m' = _binCount m.
Proof.
  induction todo as [|todo IH]; intros i m m'; simpl.
  { by intros [= <-]. }
  destruct (DynamicArray.at_ _ _); [|done].
  destruct (findBinForKey _ _) as [pos|]; [|done].
  destruct (bin_store m pos i) as [m1|] eqn:Hst; [|done].
  intros Hrun. apply IH in Hrun.
  apply bin_store_Some in Hst as (bs & _ & _ & ->). done.
Qed.

Lemma clearBins_fields m m' :
  clearBins m = Some m' ->
  _pairs m' = _pairs m /\ _hashFunc m' = _hashFunc m /\
  _binsInUse m' = _binsInUse m /\ _binCount m' = _binCount m.
Proof.
  unfold clearBins. destruct (MemoryUtils.set _ _ _); [|done].
  by intros [= <-].
Qed.

Lemma resize_fields m N m' :
  resize m N = Some m' ->
  _pairs m' = _pairs m /\ _hashFunc m' = _hashFunc m /\
  _binsInUse m' = _binsInUse m /\ _binCount m' = N.
Proof.
  unfold resize, binAlloc_get. destruct (_bins m); [|done].
  destruct (clearBins _) as [m1|] eqn:Hclear; [|done].
  intros Hrun. apply resize_loop_fields in Hrun.
  apply clearBins_fields in Hclear. simpl in *.
  destruct Hrun as (-> & -> & -> & ->). done.
Qed.

(** After a rehash every key of the store resolves to a bin in use that
    refers to a pair with that key ... *)
Lemma rehash_inv_present m0 N m p :
  rehash_inv m0 N (length (_pairs m0)) m -> p ∈ _pairs m0 ->
  exists b x q, findBinForKey m (key p) = Some b /\
    isBinEmpty m b = Some false /\ bin_at m b = Some x /\
    x <> BIN_EMPTY /\ 0 <= x /\
    _pairs m !! Z.to_nat x = Some q /\ key q = key p.
Proof.
  intros (Hps & _ & _ & _ & _ & Hfound) Hin.
  apply list_elem_of_lookup in Hin as [t Ht].
  destruct (Hfound t p) as (b & Hb & Hkey); [by eapply lookup_lt_Some|done|].
  destruct (bin_key_pair _ _ _ Hkey) as (x & q & Hx & Hne & Hx0 & Hq & Hqk).
  exists b, x, q. repeat split; try done.
  pose proof (findBinForKey_range _ _ _ Hb).
  unfold isBinEmpty. case_decide; [|lia]. rewrite Hx. simpl.
  by rewrite bool_decide_eq_false_2.
Qed.


End Resize.

(** ** Capacity of the bin table *)

Section Capacity.

Context {K V : Type} `{EqDecision K}.

Implicit Types (m : Map K V) (k : K).

Lemma shiftl_1_pow2 (j : Z) :
  0 <= j < 31 -> uint32 (Z.shiftl (2 ^ j) 1) = 2 ^ (j + 1).
Proof.
  intros Hj. rewrite Z.shiftl_mul_pow2 by lia.
  rewrite <- Z.pow_add_r by lia.
  apply uint32_small. split; [apply Z.pow_nonneg; lia|].
  apply Z.pow_lt_mono_r; lia.
Qed.

Lemma shiftl_1_pow2_31 : uint32 (Z.shiftl (2 ^ 31) 1) = 0.
Proof. reflexivity. Qed.

Lemma shiftr_1_pow2 (j : Z) : 1 <= j -> Z.shiftr (2 ^ j) 1 = 2 ^ (j - 1).
Proof.
  intros Hj. rewrite Z.shiftr_div_pow2 by lia.
  replace (2 ^ j) with (2 ^ (j - 1) * 2 ^ 1) by (rewrite <- Z.pow_add_r; f_equal; lia).
  apply Z.div_mul. lia.
Qed.

(** Once [_binCount] has wrapped to zero the constructor loop spins. *)
Lemma round_loop_zero fuel capacity :
  0 < capacity -> round_loop fuel 0 capacity = None.
Proof.
  intros Hc. induction fuel as [|fuel IH]; simpl; (case_decide; [|lia]); done.
Qed.

(** A constructor that returns has rounded the capacity up to a power of
    two, with floor 32. *)
Lemma round_loop_pow2 capacity fuel : forall (j : Z) n,
  5 <= j <= 31 ->
  round_loop fuel (2 ^ j) capacity = Some n ->
  exists j', j <= j' <= 31 /\ n = 2 ^ j' /\ capacity <= n /\
             (j < j' -> 2 ^ (j' - 1) < capacity).
Proof.
  induction fuel as [|fuel IH]; intros j n Hj; simpl.
  - case_decide; [done|]. intros [= <-]. exists j. repeat split; lia.
  - case_decide as Hlt; [|intros [= <-]; exists j; repeat split; lia].
    destruct (decide (j = 31)) as [->|Hne].
    + rewrite shiftl_1_pow2_31, round_loop_zero; [done|].
      assert (0 < 2 ^ 31) by (apply Z.pow_pos_nonneg; lia). lia.
    + rewrite shiftl_1_pow2 by lia. intros Hrun.
      destruct (IH (j + 1) n) as (j' & Hj' & -> & Hcap & Hmin); [lia|done|].
      exists j'. repeat split; try lia.
      intros _. destruct (decide (j' = j + 1)) as [->|]; [|apply Hmin; lia].
      by replace (j + 1 - 1) with j by lia.
Qed.

(** The constructor returns for every capacity up to 2^31 ... *)
Lemma round_loop_fuel capacity (d : nat) : forall (j : Z) fuel,
  5 <= j <= 31 -> Z.to_nat (31 - j) = d -> (d <= fuel)%nat ->
  capacity <= 2 ^ 31 ->
  is_Some (round_loop fuel (2 ^ j) capacity).
Proof.
  induction d as [|d IH]; intros j fuel Hj Hd Hfuel Hcap.
  - assert (j = 31) as -> by lia.
    destruct fuel; simpl; (case_decide; [lia|]); by eexists.
  - destruct fuel as [|fuel]; [lia|]. simpl.
    case_decide; [|by eexists].
    rewrite shiftl_1_pow2 by lia. apply IH; lia.
Qed.

(** ... and for no other: the loop condition stays true for ever. *)
Lemma round_loop_diverges capacity fuel : forall (j : Z),
  5 <= j <= 31 -> 2 ^ 31 < capacity ->
  round_loop fuel (2 ^ j) capacity = None.
Proof.
  induction fuel as [|fuel IH]; intros j Hj Hcap;
    assert (2 ^ j <= 2 ^ 31) by (apply Z.pow_le_mono_r; lia);
    simpl; (case_decide; [|lia]); [done|].
  destruct (decide (j = 31)) as [->|Hne].
  - rewrite shiftl_1_pow2_31. apply round_loop_zero.
    assert (0 < 2 ^ 31) by (apply Z.pow_pos_nonneg; lia). lia.
  - rewrite shiftl_1_pow2 by lia. apply IH; lia.
Qed.

Lemma Map_capacity_binCount capacity (hashFunc : K -> Z) m :
  Map_capacity capacity hashFunc = Some m ->
  round_loop 32 MIN_BINS capacity = Some (_binCount m).
Proof.
  unfold Map_capacity, binAlloc_get.
  destruct (round_loop 32 MIN_BINS capacity) as [n|]; [|done].
  intros Hclear. apply clearBins_fields in Hclear as (_ & _ & _ & ->). done.
Qed.

Lemma Map_capacity_rounds capacity (hashFunc : K -> Z) m :
  Map_capacity capacity hashFunc = Some m ->
  exists j, 5 <= j <= 31 /\ _binCount m = 2 ^ j /\ capacity <= 2 ^ j /\
            (5 < j -> 2 ^ (j - 1) < capacity).
Proof.
  intros Hm. apply Map_capacity_binCount in Hm.
  destruct (round_loop_pow2 capacity 32 5 (_binCount m)) as (j & Hj & Hn & Hcap & Hmin);
    [lia|done|].
  exists j. rewrite <- Hn. repeat split; lia.
Qed.

Lemma Map_capacity_total capacity (hashFunc : K -> Z) :
  capacity <= 2 ^ 31 -> is_Some (Map_capacity (V := V) capacity hashFunc).
Proof.
  intros Hcap. unfold Map_capacity, binAlloc_get.
  destruct (round_loop_fuel capacity 26 5 32) as [n Hn]; try done; try lia.
  change MIN_BINS with (2 ^ 5). rewrite Hn.
  destruct (round_loop_pow2 capacity 32 5 n) as (j & Hj & -> & _); [lia|done|].
  assert (0 < 2 ^ j) by (apply Z.pow_pos_nonneg; lia).
  unfold clearBins, MemoryUtils.set. simpl.
  pose proof (set_loop_fill (replicate (Z.to_nat (2 ^ j)) 0) BIN_EMPTY) as Hfill.
  rewrite length_replicate in Hfill. rewrite Hfill. by eexists.
Qed.

Lemma Map_new_binCount (hashFunc : K -> Z) m :
  Map_new hashFunc = Some m -> _binCount m = MIN_BINS.
Proof.
  unfold Map_new, binAlloc_get. intros Hclear.
  by apply clearBins_fields in Hclear as (_ & _ & _ & ->).
Qed.

(** The operations other than [grow] and [shrink] leave [_binCount]
    alone. *)
Lemma bin_store_fields m pos x m' :
  bin_store m pos x = Some m' ->
  _pairs m' = _pairs m /\ _hashFunc m' = _hashFunc m /\
  _binsInUse m' = _binsInUse m /\ _binCount m' = _binCount m.
Proof. intros Hst. by apply bin_store_Some in Hst as (bs & _ & _ & ->). Qed.

Lemma put_binCount m k v m' :
  put m k v = Some m' -> _binCount m' = _binCount m.
Proof.
  unfold put. destruct (findBinForKey m k) as [b|]; [|done].
  destruct (isBinEmpty m b) as [[|]|]; [| |done].
  - destruct (bin_store _ _ _) as [m1|] eqn:Hst; [|done].
    apply bin_store_fields in Hst as (_ & _ & _ & Hc). by intros [= <-].
  - destruct (bin_at m b); [|done].
    destruct (DynamicArray.assign _ _ _); [|done]. by intros [= <-].
Qed.

Lemma fixup_loop_fields (todo : nat) : forall (i : Z) b m m',
  fixup_loop todo i b m = Some m' ->
  _pairs m' = _pairs m /\ _hashFunc m' = _hashFunc m /\
  _binsInUse m' = _binsInUse m /\ _binCount m' = _binCount m.
Proof.
  induction todo as [|todo IH]; intros i b m m'; simpl.
  { by intros [= <-]. }
  destruct (isBinEmpty m i) as [[|]|]; [by apply IH| |done].
  destruct (bin_at m i) as [x|]; [|done].
  destruct (bin_at m b) as [y|]; [|done].
  case_decide; [|by apply IH].
  destruct (bin_store m i _) as [m1|] eqn:Hst; [|done].
  intros Hrun. apply IH in Hrun.
  apply bin_store_fields in Hst. destruct Hrun as (-> & -> & -> & ->). done.
Qed.

(** The part of [remove] after the shrink check keeps [_binCount]. *)
Ltac remove_tail_binCount m1 k :=
  destruct (findBinForKey m1 k) as [?b|]; [|done];
  destruct (isBinEmpty m1 _) as [[|]|]; [by intros [= <-]| |done];
  simpl; destruct (bin_at _ _); [|done];
  destruct (DynamicArray.removeAt _ _) as [[? ?ps]|]; [|done];
  destruct (fixup_loop _ _ _ _) as [?m3|] eqn:Hfix; [|done];
  let Hst := fresh "Hst" in
  intros Hst; apply bin_store_fields in Hst as (_ & _ & _ & ->);
  apply fixup_loop_fields in Hfix as (_ & _ & _ & ->).

Lemma remove_binCount m k m' :
  remove m k = Some m' ->
  (shouldShrink m = Some false /\ _binCount m' = _binCount m) \/
  (shouldShrink m = Some true /\ _binCount m' = Z.shiftr (_binCount m) 1).
Proof.
  unfold remove. intros Hrun.
  destruct (shouldShrink m) as [[|]|]; [| |done].
  - destruct (shrink m) as [m1|] eqn:Hshrink; [|done].
    apply resize_fields in Hshrink as (_ & _ & _ & Hc).
    right. split; [done|]. rewrite <- Hc. revert Hrun.
    remove_tail_binCount m1 k. done.
  - left. split; [done|]. revert Hrun. remove_tail_binCount m k. done.
Qed.

(** The part of [operator[]] after the growth check keeps [_binCount]. *)
Ltac index_tail_binCount m1 k :=
  destruct (findBinForKey m1 k) as [?b|]; [|done];
  destruct (isBinEmpty m1 _) as [[|]|]; [| |done];
  [ let Hst := fresh "Hst" in
    destruct (bin_store _ _ _) as [?m2|] eqn:Hst; [|done];
    apply bin_store_fields in Hst as (_ & _ & _ & Hst);
    destruct (bin_at _ _); [|done]; destruct (DynamicArray.at_ _ _); [|done];
    by intros [= <- _]
  | destruct (bin_at _ _); [|done]; destruct (DynamicArray.at_ _ _); [|done];
    by intros [= <- _] ].

Lemma index_binCount (value_ : V) m k m' v :
  index value_ m k = Some (m', v) ->
  (shouldGrow m = Some false /\ _binCount m' = _binCount m) \/
  (shouldGrow m = Some true /\
   _binCount m' = uint32 (Z.shiftl (_binCount m) 1)).
Proof.
  unfold index. intros Hrun.
  destruct (shouldGrow m) as [[|]|]; [| |done].
  - destruct (grow m) as [m1|] eqn:Hgrow; [|done].
    apply resize_fields in Hgrow as (_ & _ & _ & Hc).
    right. split; [done|]. rewrite <- Hc. revert Hrun.
    index_tail_binCount m1 k.
  - left. split; [done|]. revert Hrun. index_tail_binCount m k.
Qed.

Lemma clear_binCount m m' : clear m = Some m' -> _binCount m' = _binCount m.
Proof.
  unfold clear. destruct (clearBins m) as [m1|] eqn:Hclear; [|done].
  intros [= <-]. simpl. by apply clearBins_fields in Hclear as (_ & _ & _ & ->).
Qed.

Lemma Map_copy_binCount m m' :
  Map_copy m = Some m' -> _binCount m' = _binCount m.
Proof.
  unfold Map_copy, binAlloc_get.
  destruct (MemoryUtils.copy _ _ _); [|done]. by intros [= <-].
Qed.

(** [shouldGrow] can only fire while doubling stays within 32 bits: the
    load is computed from a 32-bit product. *)
Lemma shouldGrow_bound m :
  shouldGrow m = Some true -> 0 < _binCount m -> _binCount m * 70 < 2 ^ 32.
Proof.
  unfold shouldGrow, GROW_THRESHOLD. case_decide; [done|].
  intros [= Hg] Hpos. apply bool_decide_eq_true in Hg.
  pose proof (uint32_range (_binsInUse m * 100)) as Hr.
  assert (70 * _binCount m <= uint32 (_binsInUse m * 100)); [|lia].
  etrans; [|apply (Z.mul_div_le _ (_binCount m)); lia].
  rewrite (Z.mul_comm 70). apply Z.mul_le_mono_nonneg_l; lia.
Qed.

Lemma shouldGrow_doubles m (j : Z) :
  shouldGrow m = Some true -> 5 <= j <= 31 -> _binCount m = 2 ^ j ->
  j < 31 /\ uint32 (Z.shiftl (_binCount m) 1) = 2 * _binCount m.
Proof.
  intros Hg Hj Hc.
  assert (0 < 2 ^ j) by (apply Z.pow_pos_nonneg; lia).
  pose proof (shouldGrow_bound m Hg) as Hb. rewrite Hc in *.
  assert (j < 31) as Hlt.
  { destruct (decide (j = 31)) as [->|]; [|lia].
    pow_consts. lia. }
  split; [done|]. rewrite shiftl_1_pow2 by lia.
  rewrite Z.pow_add_r by lia. lia.
Qed.

Lemma shouldShrink_true m :
  shouldShrink m = Some true <->
  _binCount m <> 0 /\
  uint32 (_binsInUse m * 100) / _binCount m <= SHRINK_THRESHOLD /\
  _binCount m > MIN_BINS.
Proof.
  unfold shouldShrink. case_decide.
  - split; [done|]. intros [? _]. done.
  - split.
    + intros [= Hs]. apply andb_true_iff in Hs as [H1 H2].
      apply bool_decide_eq_true in H1, H2. done.
    + intros (_ & H1 & H2). f_equal. apply andb_true_iff.
      by split; apply bool_decide_eq_true.
Qed.

(** *** Maps in the state a move leaves behind *)

(** With no bins the lookup fails the assertion of [isBinEmpty] at once. *)
Lemma findBinForKey_no_bins m k : _binCount m = 0 -> findBinForKey m k = None.
Proof.
  intros Hc. unfold findBinForKey. rewrite Hc. simpl.
  unfold isBinEmpty. rewrite Hc. case_decide as Hneg; [|done].
  exfalso. unfold wrap in Hneg.
  pose proof (uint32_range (_binCount m - 1)).
  assert (0 <= Z.land (hash m k) (uint32 (_binCount m - 1)));
    [apply Z.land_nonneg; lia|lia].
Qed.

Lemma Map_move_moved_from m : moved_from (snd (Map_move m)).
Proof. unfold moved_from. simpl. auto. Qed.

Lemma Map_copy_moved_from m m' :
  moved_from m -> Map_copy m = Some m' -> moved_from m'.
Proof.
  intros (Hu & Hc & Hbs). unfold Map_copy, binAlloc_get.
  rewrite Hc, Hu. simpl.
  destruct Hbs as [-> | ->]; simpl; intros [= <-]; unfold moved_from; simpl;
    auto.
Qed.

Lemma clear_moved_from m m' :
  moved_from m -> clear m = Some m' -> moved_from m'.
Proof.
  intros (Hu & Hc & Hbs). unfold clear, clearBins, MemoryUtils.set.
  rewrite Hc.
  destruct Hbs as [-> | ->]; simpl; intros [= <-]; unfold moved_from; simpl;
    auto.
Qed.

(** The other operations do not return on such a map. *)
Lemma moved_from_stuck m k :
  moved_from m ->
  (forall v, put m k v = None) /\ remove m k = None /\
  (forall value_, index value_ m k = None).
Proof.
  intros (_ & Hc & _). split_and!.
  - intros v. unfold put. by rewrite findBinForKey_no_bins.
  - unfold remove, shouldShrink. by case_decide.
  - intros value_. unfold index, shouldGrow. by case_decide.
Qed.

(** Every state reachable through the interface is the state a move
    leaves behind or has a power of two of at least 32 bins. *)
Lemma reachable_capacity m :
  reachable m -> moved_from m \/ is_capacity (_binCount m).
Proof.
  induction 1 as [hf m Hnew|c hf m Hc Hcap|m m' _ IH Hcopy|m _ IH|m _ _
                 |m ps block _ IH Hblock|m ps _ _
                 |value_ m k m' v _ IH Hidx|m k v m' _ IH Hput
                 |m k m' _ IH Hrem|m m' _ IH Hclear].
  - right. rewrite (Map_new_binCount _ _ Hnew). exists 5. split; [lia|done].
  - right. destruct (Map_capacity_rounds _ _ _ Hcap) as (j & Hj & -> & _).
    by exists j.
  - destruct IH as [Hmoved|IH].
    + left. by eapply Map_copy_moved_from.
    + right. by rewrite (Map_copy_binCount _ _ Hcopy).
  - by destruct m.
  - left. apply Map_move_moved_from.
  - destruct IH as [(Hu & Hc & _)|IH]; [left|by right].
    unfold moved_from. simpl. split; [done|]. split; [done|]. right.
    destruct block; [done|]. simpl in Hblock. lia.
  - left. unfold moved_from. simpl. auto.
  - destruct IH as [Hmoved|(j & Hj & Hcount)].
    { destruct (moved_from_stuck m k Hmoved) as (_ & _ & Hstuck).
      by rewrite Hstuck in Hidx. }
    right.
    destruct (index_binCount _ _ _ _ _ Hidx) as [[_ ->]|[Hg ->]];
      [by exists j|].
    destruct (shouldGrow_doubles m j Hg Hj Hcount) as [Hlt ->].
    exists (j + 1). split; [lia|]. rewrite Hcount, Z.pow_add_r by lia. lia.
  - destruct IH as [Hmoved|IH].
    { destruct (moved_from_stuck m k Hmoved) as (Hstuck & _).
      by rewrite Hstuck in Hput. }
    right. by rewrite (put_binCount _ _ _ _ Hput).
  - destruct IH as [Hmoved|(j & Hj & Hcount)].
    { destruct (moved_from_stuck m k Hmoved) as (_ & Hstuck & _).
      by rewrite Hstuck in Hrem. }
    right.
    destruct (remove_binCount _ _ _ Hrem) as [[_ ->]|[Hs ->]]; [by exists j|].
    apply shouldShrink_true in Hs as (_ & _ & Hgt).
    rewrite Hcount in *. unfold MIN_BINS in Hgt.
    assert (5 < j).
    { destruct (decide (j = 5)) as [->|]; [pow_consts; lia|lia]. }
    exists (j - 1). split; [lia|]. apply shiftr_1_pow2. lia.
  - destruct IH as [Hmoved|IH].
    + left. by eapply clear_moved_from.
    + right. by rewrite (clear_binCount _ _ Hclear).
Qed.

End Capacity.

(** ** The probe sequence of the sibling revision *)

Section Sibling.

Context {K V : Type} `{EqDecision K}.

Implicit Types (m : Map K V) (k : K).

Lemma triangle_S (n : nat) :
  Z.of_nat (S n) * (Z.of_nat (S n) + 1) / 2
  = Z.of_nat n * (Z.of_nat n + 1) / 2 + (Z.of_nat n + 1).
Proof.
  replace (Z.of_nat (S n) * (Z.of_nat (S n) + 1))
    with (Z.of_nat n * (Z.of_nat n + 1) + (Z.of_nat n + 1) * 2) by lia.
  apply Z.div_add. lia.
Qed.

(** Reducing modulo 2^32 first makes no difference modulo a capacity. *)
Lemma uint32_eqm (j : Z) x : 0 <= j <= 31 -> eqm (2 ^ j) (uint32 x) x.
Proof.
  intros Hj. unfold eqm, uint32.
  apply Z.mod_mod_divide.
  exists (2 ^ (32 - j)). rewrite <- Z.pow_add_r by lia. f_equal. lia.
Qed.

Lemma wrap_eqm m (j : Z) x :
  0 <= j <= 31 -> _binCount m = 2 ^ j -> eqm (2 ^ j) (wrap m x) x.
Proof.
  intros Hj Hc. rewrite (wrap_pow2 m j) by done. apply Zmod_eqm.
Qed.

Lemma probe_state_sibling m (j : Z) (n : nat) : forall i p,
  0 <= j <= 31 -> _binCount m = 2 ^ j ->
  eqm (2 ^ j) (fst (probe_state PairIterator m n i p))
    (i + Z.of_nat n * p + Z.of_nat n * (Z.of_nat n + 1) / 2).
Proof.
  induction n as [|n IH]; intros i p Hj Hc.
  - simpl. unfold eqm. f_equal. change (Z.of_nat 0) with 0.
    rewrite !Z.mul_0_l, Z.div_0_l by lia. lia.
  - cbn [probe_state advance probe].
    eapply eqm_trans; [by apply IH|].
    rewrite triangle_S.
    apply eqm_trans
      with (i + (p + 1) + Z.of_nat n * (p + 1)
            + Z.of_nat n * (Z.of_nat n + 1) / 2).
    + apply Zplus_eqm; [apply Zplus_eqm|apply eqm_refl].
      * eapply eqm_trans; [by apply (wrap_eqm m j)|].
        eapply eqm_trans; [by apply uint32_eqm|].
        apply Zplus_eqm; [apply eqm_refl|by apply uint32_eqm].
      * apply Zmult_eqm; [apply eqm_refl|by apply uint32_eqm].
    + unfold eqm. f_equal. rewrite Nat2Z.inj_succ. ring.
Qed.

(** In the sibling revision the [n]-th bin looked at lies the [n]-th
    triangular number past the initial bin. *)
Lemma candidate_sibling m k (j : Z) (n : nat) :
  0 <= j <= 31 -> _binCount m = 2 ^ j ->
  candidate PairIterator m k n = triangular_candidate m k n.
Proof.
  intros Hj Hc.
  assert (0 < 2 ^ j) as Hpos by (apply Z.pow_pos_nonneg; lia).
  assert (0 <= candidate PairIterator m k n < 2 ^ j) as Hrange.
  { unfold candidate. destruct n as [|n]; simpl.
    - rewrite <- Hc. by eapply wrap_range.
    - clear Hpos. generalize (uint32 (0 + 1)).
      generalize (wrap m (hash m k)). induction n as [|n IH]; intros i p.
      + simpl. rewrite <- Hc. by eapply wrap_range.
      + cbn [probe_state]. apply IH. }
  rewrite <- (Z.mod_small _ _ Hrange).
  unfold triangular_candidate. rewrite (wrap_pow2 m j) by done.
  change (eqm (2 ^ j) (candidate PairIterator m k n)
            (uint32 (hash m k + Z.of_nat n * (Z.of_nat n + 1) / 2))).
  unfold candidate.
  eapply eqm_trans; [by apply (probe_state_sibling m j)|].
  apply eqm_sym. eapply eqm_trans; [by apply uint32_eqm|].
  rewrite Z.mul_0_r, Z.add_0_r.
  apply Zplus_eqm; [|apply eqm_refl].
  apply eqm_sym. by apply (wrap_eqm m j).
Qed.

(** When no bin of the table stops the loop, the loop of the sibling
    revision never returns. *)
Lemma findBin_loop_sibling_spins m k (j : Z) fuel : forall i p,
  0 <= j <= 31 -> _binCount m = 2 ^ j ->
  (forall c, 0 <= c < _binCount m -> stops m k c = Some false) ->
  0 <= i < _binCount m ->
  findBin_loop PairIterator fuel m k i p = None.
Proof.
  induction fuel as [|fuel IH]; intros i p Hj Hc Hfull Hi; [done|].
  rewrite findBin_loop_S, Hfull by done.
  apply IH; try done. by eapply wrap_range.
Qed.




End Sibling.

(** ** Moving and clearing *)

Section MoveClear.

Context {K V : Type} `{EqDecision K}.

Implicit Types (m : Map K V) (k : K).

(** C7.  Moving a map: the new object is the source as it was, so every
    key resolves in it to the value it had; the source is left with an
    empty pair store, zeroed counts and a null bin pointer, and its
    destructor hands no block back to the allocator (the bins now belong
    to the new object alone). *)
Theorem Map_move_transfers m :
  fst (Map_move m) = m /\
  (forall k, get (fst (Map_move m)) k = get m k) /\
  (forall k, has (fst (Map_move m)) k = has m k) /\
  size (fst (Map_move m)) = size m /\
  size (snd (Map_move m)) = 0 /\
  isEmpty (snd (Map_move m)) = true /\
  _pairs (snd (Map_move m)) = [] /\
  _binsInUse (snd (Map_move m)) = 0 /\
  _binCount (snd (Map_move m)) = 0 /\
  _bins (snd (Map_move m)) = None /\
  Map_destroy (snd (Map_move m)) = None /\
  Map_destroy (fst (Map_move m)) = _bins m.
Proof.
  assert (fst (Map_move m) = m) as Hfst by (by destruct m).
  rewrite Hfst. repeat split; done.
Qed.

Lemma clearBins_ok m bs :
  _bins m = Some bs -> Z.of_nat (length bs) = _binCount m ->
  clearBins m = Some (with_bins m (Some (replicate (length bs) BIN_EMPTY))).
Proof.
  intros Hbs Hlen. unfold clearBins, MemoryUtils.set. rewrite Hbs.
  rewrite <- Hlen, Nat2Z.id. by rewrite set_loop_fill.
Qed.

(** C8.  [clear()] on a map whose bin table has [_binCount] cells: every
    bin is set to EMPTY, the pair store is emptied, [_binsInUse] is
    reset to zero, and [_binCount] is what it was. *)
Theorem clear_resets m bs :
  _bins m = Some bs -> Z.of_nat (length bs) = _binCount m ->
  exists m',
    clear m = Some m' /\
    _bins m' = Some (replicate (length bs) BIN_EMPTY) /\
    (forall i, 0 <= i < _binCount m' -> isBinEmpty m' i = Some true) /\
    _pairs m' = [] /\ size m' = 0 /\ isEmpty m' = true /\
    _binsInUse m' = 0 /\
    _binCount m' = _binCount m.
Proof.
  intros Hbs Hlen. unfold clear. rewrite (clearBins_ok m bs) by done.
  eexists. split; [done|]. simpl. repeat split; try done.
  intros i Hi. unfold isBinEmpty, bin_at. simpl.
  repeat (case_decide; [|lia]).
  rewrite lookup_replicate_2 by lia. done.
Qed.

End MoveClear.

(** ** Removal *)

Section Remove.

Context {K V : Type} `{EqDecision K}.

Implicit Types (m : Map K V) (k : K) (bs : list Z).

Lemma remove_unfold m k :
  remove m k =
  let? s := shouldShrink m in
  let? shrunk := (if s : bool then shrink m else Some m) in
  remove_after_check shrunk k.
Proof. reflexivity. Qed.

Lemma index_unfold (value_ : V) m k :
  index value_ m k =
  let? g := shouldGrow m in
  let? grown := (if g : bool then grow m else Some m) in
  index_after_check value_ grown k.
Proof. reflexivity. Qed.

Lemma shifted_self r : shifted r r = r.
Proof. unfold shifted. case_decide; [lia|done]. Qed.

Lemma shifted_empty r : shifted r BIN_EMPTY = BIN_EMPTY.
Proof. unfold shifted. case_decide as Hc; [by destruct Hc|done]. Qed.

(** The "correct bin indices" loop rewrites every bin with [shifted]: the
    bin it compares with keeps its value throughout. *)
Lemma fixup_loop_spec m bs (b r : Z) (todo : nat) : forall (i : nat) cur,
  Z.of_nat (length bs) = _binCount m ->
  0 <= b -> bs !! Z.to_nat b = Some r ->
  length cur = length bs ->
  (forall j : nat, cur !! j =
     if decide (j < i)%nat then shifted r <$> bs !! j else bs !! j) ->
  (i + todo = length bs)%nat ->
  fixup_loop todo (Z.of_nat i) b (with_bins m (Some cur))
  = Some (with_bins m (Some (shifted r <$> bs))).
Proof.
  induction todo as [|todo IH]; intros i cur Hlen Hb Hr Hcur Hlook Hi; simpl.
  - do 2 f_equal. f_equal. apply list_eq. intros j.
    rewrite Hlook, list_lookup_fmap. case_decide; [done|].
    rewrite lookup_ge_None_2 by lia. done.
  - destruct (lookup_lt_is_Some_2 bs i) as [x Hx]; [lia|].
    assert (cur !! i = Some x) as Hcx.
    { rewrite Hlook. case_decide; [lia|done]. }
    assert (cur !! Z.to_nat b = Some r) as Hcb.
    { rewrite Hlook, Hr. case_decide; [|done]. simpl. by rewrite shifted_self. }
    unfold isBinEmpty, bin_at. simpl.
    repeat (case_decide; [|lia]). rewrite Nat2Z.id, Hcx. simpl.
    replace (Z.of_nat i + 1) with (Z.of_nat (S i)) by lia.
    case_bool_decide as Hempty.
    + apply IH; try done; [|lia].
      intros j. rewrite Hlook. destruct (decide (j = i)) as [->|].
      * destruct (decide (i < i)%nat); [lia|].
        destruct (decide (i < S i)%nat); [|lia].
        rewrite Hx. subst x. simpl. by rewrite shifted_empty.
      * repeat case_decide; (done || lia).
    + rewrite Hcb. case_decide as Hgt.
      * unfold bin_store. simpl. case_decide; [|lia]. simpl.
        rewrite Nat2Z.id.
        apply (IH (S i) (<[i := uint32 (x - 1)]> cur)); try done.
        -- by rewrite length_insert.
        -- intros j. destruct (decide (j = i)) as [->|].
           ++ rewrite list_lookup_insert_eq by lia.
              case_decide; [|lia]. rewrite Hx. simpl. unfold shifted.
              case_decide as Hc; [done|]. exfalso. apply Hc. done.
           ++ rewrite list_lookup_insert_ne by done. rewrite Hlook.
              repeat case_decide; (done || lia).
        -- lia.
      * apply IH; try done; [|lia].
        intros j. rewrite Hlook. destruct (decide (j = i)) as [->|].
        -- destruct (decide (i < i)%nat); [lia|].
           destruct (decide (i < S i)%nat); [|lia].
           rewrite Hx. simpl. f_equal. unfold shifted.
           case_decide as Hc; [destruct Hc; lia|done].
        -- repeat case_decide; (done || lia).
Qed.

Lemma fixup_loop_all m bs (b r : Z) :
  _bins m = Some bs -> Z.of_nat (length bs) = _binCount m ->
  0 <= b -> bs !! Z.to_nat b = Some r ->
  fixup_loop (Z.to_nat (_binCount m)) 0 b m
  = Some (with_bins m (Some (shifted r <$> bs))).
Proof.
  intros Hbs Hlen Hb Hr.
  rewrite <- Hlen, Nat2Z.id.
  replace m with (with_bins m (Some bs)) at 1
    by (destruct m; simpl in *; by subst).
  by apply (fixup_loop_spec m bs b r (length bs) 0%nat bs).
Qed.

(** What the loop sees of a bin, read off the table. *)
Lemma bin_key_eval m bs (c x : Z) :
  _bins m = Some bs -> 0 <= c < _binCount m ->
  bs !! Z.to_nat c = Some x ->
  bin_key m c =
  if decide (x = BIN_EMPTY) then Some None
  else let? p := DynamicArray.at_ (_pairs m) x in Some (Some (key p)).
Proof.
  intros Hbs Hc Hx. unfold bin_key, isBinEmpty, bin_at. rewrite Hbs.
  repeat (case_decide; [|lia]). rewrite Hx. simpl.
  case_bool_decide; case_decide; done.
Qed.

End Remove.

Section RemoveTheorems.

Context {K V : Type} `{EqDecision K}.

Implicit Types (m : Map K V) (k : K) (bs : list Z).

Lemma bin_at_lookup m bs (c x : Z) :
  _bins m = Some bs -> bin_at m c = Some x ->
  0 <= c /\ bs !! Z.to_nat c = Some x.
Proof.
  unfold bin_at. intros ->. case_decide; [|done]. done.
Qed.

(** The lookup part of [remove] on a key that is found: the pair is taken
    out of the store, the bins are re-indexed, the matched bin is
    emptied; afterwards the key resolves to that EMPTY bin. *)
Lemma remove_after_check_present m bs k (b r : Z) p :
  _bins m = Some bs -> Z.of_nat (length bs) = _binCount m ->
  Z.of_nat (length (_pairs m)) < 2 ^ 32 ->
  findBinForKey m k = Some b -> bin_at m b = Some r -> r <> BIN_EMPTY ->
  0 <= r -> _pairs m !! Z.to_nat r = Some p -> key p = k ->
  remove_after_check m k
  = Some (mkMap (delete (Z.to_nat r) (_pairs m)) (_hashFunc m)
            (Some (<[Z.to_nat b := BIN_EMPTY]> (shifted r <$> bs)))
            (uint32 (_binsInUse m - 1)) (_binCount m)) /\
  has (mkMap (delete (Z.to_nat r) (_pairs m)) (_hashFunc m)
         (Some (<[Z.to_nat b := BIN_EMPTY]> (shifted r <$> bs)))
         (uint32 (_binsInUse m - 1)) (_binCount m)) k = Some false.
Proof.
  intros Hbs Hlen Hsmall Hfind Hr Hne Hr0 Hp Hk.
  pose proof (findBinForKey_range _ _ _ Hfind) as Hb.
  destruct (bin_at_lookup _ _ _ _ Hbs Hr) as [_ Hbr].
  set (m' := mkMap _ _ _ _ _).
  assert (isBinEmpty m' b = Some true) as Hempty.
  { unfold isBinEmpty, bin_at. simpl. repeat (case_decide; [|lia]).
    rewrite list_lookup_insert_eq by (rewrite length_fmap; lia). done. }
  split.
  - unfold remove_after_check. rewrite Hfind.
    unfold isBinEmpty. case_decide; [|lia]. rewrite Hr. simpl.
    rewrite bool_decide_eq_false_2 by done.
    replace (bin_at (with_binsInUse m (uint32 (_binsInUse m - 1))) b)
      with (bin_at m b) by done.
    rewrite Hr. unfold DynamicArray.removeAt, DynamicArray.at_.
    case_decide; [|lia]. rewrite Hp.
    pose proof (fixup_loop_all
                  (with_pairs (with_binsInUse m (uint32 (_binsInUse m - 1)))
                     (delete (Z.to_nat r) (_pairs m)))
                  bs b r Hbs Hlen ltac:(lia) Hbr) as Hfix.
    simpl in Hfix. rewrite Hfix.
    rewrite (bin_store_ok _ (shifted r <$> bs))
      by (done || rewrite length_fmap; lia).
    done.
  - unfold has.
    assert (findBinForKey m' k = Some b) as ->; [|by rewrite Hempty].
    apply (findBinForKey_ext m); try done; [|by apply stops_empty].
    intros c Hc. rewrite <- Hc. apply bin_key_stops.
    pose proof (stops_range _ _ _ _ Hc) as Hcr.
    destruct (stops_false_bin_key _ _ _ Hc) as (k' & Hk' & Hkne).
    destruct (bin_key_pair _ _ _ Hk') as (x & q & Hx & Hxne & Hx0 & Hq & Hqk).
    destruct (bin_at_lookup _ _ _ _ Hbs Hx) as [_ Hbx].
    assert (x <> r) as Hxr by (intros ->; congruence).
    assert (c <> b) as Hcb by (intros ->; congruence).
    pose proof (lookup_lt_Some _ _ _ Hq) as Hxlt.
    rewrite Hk'.
    rewrite (bin_key_eval m' (<[Z.to_nat b := BIN_EMPTY]> (shifted r <$> bs))
               c (shifted r x)); [|done|done|].
    2:{ rewrite list_lookup_insert_ne by lia.
        by rewrite list_lookup_fmap, Hbx. }
    rewrite BIN_EMPTY_val in *. pow_consts.
    unfold shifted, DynamicArray.at_. simpl.
    rewrite BIN_EMPTY_val.
    destruct (decide (x <> 4294967295 /\ x > r)) as [[_ Hgt]|Hle].
    + rewrite uint32_small by (pow_consts; lia).
      case_decide; [lia|]. case_decide; [|lia].
      rewrite list_lookup_delete_ge by lia.
      replace (S (Z.to_nat (x - 1))) with (Z.to_nat x) by lia.
      by rewrite Hq, Hqk.
    + case_decide; [done|]. case_decide; [|lia].
      rewrite list_lookup_delete_lt by lia.
      by rewrite Hq, Hqk.
Qed.

(** The lookup part of [remove] on a key that is not in the store does
    nothing, if it returns ... *)
Lemma remove_after_check_absent m k m' :
  (forall p, p ∈ _pairs m -> key p <> k) ->
  remove_after_check m k = Some m' -> m' = m.
Proof.
  intros Habsent. unfold remove_after_check.
  destruct (findBinForKey m k) as [b|] eqn:Hfind; [|done].
  destruct (isBinEmpty m b) as [[|]|] eqn:He; [by intros [= <-]| |done].
  exfalso.
  destruct (stops_true_bin_key _ _ _ (findBinForKey_sound _ _ _ Hfind))
    as [Hk|Hk].
  - apply bin_key_empty in Hk. congruence.
  - destruct (bin_key_pair _ _ _ Hk) as (x & q & _ & _ & _ & Hq & Hqk).
    apply (Habsent q); [|done]. by eapply list_elem_of_lookup_2.
Qed.

(** ... and it returns when two bins of a well-formed table are free. *)
Lemma remove_after_check_absent_total m bs k (j : Z) :
  _bins m = Some bs -> Z.of_nat (length bs) = _binCount m ->
  0 <= j <= 31 -> _binCount m = 2 ^ j ->
  Forall (fun b => b = BIN_EMPTY \/ 0 <= b < Z.of_nat (length (_pairs m))) bs ->
  (length (live_bins bs) + 2 <= length bs)%nat ->
  (forall p, p ∈ _pairs m -> key p <> k) ->
  remove_after_check m k = Some m.
Proof.
  intros Hbs Hlen Hj Hc Hvalid Hroom Habsent.
  destruct (live_bins_room bs) as (e & He1 & He); [done|].
  destruct (findBinForKey_total m k j (Z.of_nat e)) as [b Hb];
    [done | done | | lia | |].
  { intros c Hc'. by eapply (stops_defined m bs). }
  { by rewrite (isBinEmpty_lookup m bs e BIN_EMPTY). }
  pose proof (findBinForKey_sound _ _ _ Hb) as Hstop.
  destruct (remove_after_check m k) as [m'|] eqn:Hrun.
  - f_equal. by eapply remove_after_check_absent.
  - exfalso. unfold remove_after_check in Hrun. rewrite Hb in Hrun.
    destruct (stops_true _ _ _ Hstop) as [He'|[He' Hcont]];
      rewrite He' in Hrun; [done|].
    destruct (stops_true_bin_key _ _ _ Hstop) as [Hk|Hk].
    + apply bin_key_empty in Hk. congruence.
    + destruct (bin_key_pair _ _ _ Hk) as (x & q & _ & _ & _ & Hq & Hqk).
      apply (Habsent q); [|done]. by eapply list_elem_of_lookup_2.
Qed.

(** A shrink is decided on a load of at most 30 percent; the halved
    table then has room for every pair and two bins to spare. *)
Lemma shrink_room m (j : Z) (n : nat) :
  shouldShrink m = Some true -> 5 <= j <= 31 -> _binCount m = 2 ^ j ->
  _binsInUse m = Z.of_nat n -> _binsInUse m * 100 < 2 ^ 32 ->
  5 < j /\ Z.shiftr (_binCount m) 1 = 2 ^ (j - 1) /\
  Z.of_nat n + 2 <= 2 ^ (j - 1).
Proof.
  intros Hs Hj Hc Hu Hsmall.
  apply shouldShrink_true in Hs as (Hne & Hload & Hgt).
  unfold SHRINK_THRESHOLD, MIN_BINS in *.
  rewrite uint32_small in Hload by lia.
  rewrite Hc in *.
  assert (5 < j) as Hj5.
  { destruct (decide (j = 5)) as [->|]; [pow_consts; lia|lia]. }
  split; [done|]. split; [apply shiftr_1_pow2; lia|].
  assert (2 ^ j = 2 * 2 ^ (j - 1)) as Hdouble.
  { replace j with (1 + (j - 1)) at 1 by lia.
    rewrite Z.pow_add_r by lia. done. }
  assert (2 ^ 5 <= 2 ^ (j - 1)) by (apply Z.pow_le_mono_r; lia).
  pow_consts.
  pose proof (Z.div_mod (_binsInUse m * 100) (2 ^ j) ltac:(lia)) as Hdm.
  pose proof (Z.mod_pos_bound (_binsInUse m * 100) (2 ^ j) ltac:(lia)) as Hmod.
  nia.
Qed.

(** A key that [has] reports resolves to a bin in use, which refers to a
    pair of the store with that key. *)
Lemma has_true_found m k :
  has m k = Some true ->
  exists (b x : Z) q,
    findBinForKey m k = Some b /\ bin_at m b = Some x /\
    x <> BIN_EMPTY /\ 0 <= x /\
    _pairs m !! Z.to_nat x = Some q /\ key q = k.
Proof.
  unfold has.
  destruct (findBinForKey m k) as [b|] eqn:Hfind; [|done].
  destruct (isBinEmpty m b) as [[|]|] eqn:He; try done. intros _.
  destruct (stops_true_bin_key _ _ _ (findBinForKey_sound _ _ _ Hfind))
    as [Hk|Hk]; [apply bin_key_empty in Hk; congruence|].
  destruct (bin_key_pair _ _ _ Hk) as (x & q & Hx & Hxne & Hx0 & Hq & Hqk).
  by exists b, x, q.
Qed.

(** A key that [has] reports is the key of a pair in the store. *)
Lemma has_true_in_store m k :
  has m k = Some true -> exists q, q ∈ _pairs m /\ key q = k.
Proof.
  intros (b & x & q & _ & _ & _ & _ & Hq & Hqk)%has_true_found.
  exists q. split; [by eapply list_elem_of_lookup_2|done].
Qed.

(** After the shrink check a key of the store is still found. *)
Lemma after_shrink_check_found m k m1 :
  MapShape m -> has m k = Some true -> after_shrink_check m m1 ->
  exists bs (b r : Z) p,
    _pairs m1 = _pairs m /\ _binsInUse m1 = _binsInUse m /\
    _bins m1 = Some bs /\ Z.of_nat (length bs) = _binCount m1 /\
    findBinForKey m1 k = Some b /\ bin_at m1 b = Some r /\
    r <> BIN_EMPTY /\ 0 <= r /\ _pairs m1 !! Z.to_nat r = Some p /\ key p = k.
Proof.
  intros [(bs0 & Hbs0 & Hlen0) (j & Hj & Hc) Hu Hn] Hhas
    [[Hs Hshrink]|[Hs ->]].
  - destruct (has_true_in_store m k Hhas) as (q0 & Hq0 & Hq0k).
    apply resize_inv in Hshrink as Hinv; [|by apply Z.shiftr_nonneg; lia|done].
    destruct (rehash_inv_present _ _ _ _ Hinv Hq0)
      as (b & x & q & Hb & He & Hx & Hxne & Hx0 & Hq & Hqk).
    destruct Hinv as (Hps & _ & Hu1 & Hc1 & (bs & Hbs & Hlen & _) & _).
    exists bs, b, x, q. repeat split; try done; congruence.
  - destruct (has_true_found m k Hhas) as (b & x & q & ? & ? & ? & ? & ? & ?).
    by exists bs0, b, x, q.
Qed.

(** The shrink check returns when the 32-bit product [_binsInUse * 100]
    is the product of the integers. *)
Lemma after_shrink_check_total m :
  MapShape m -> _binsInUse m * 100 < 2 ^ 32 ->
  exists m1, after_shrink_check m m1.
Proof.
  intros [(bs0 & Hbs0 & Hlen0) (j & Hj & Hc) Hu Hn] Hsmall.
  assert (0 < 2 ^ j) as Hpos by (apply Z.pow_pos_nonneg; lia).
  destruct (shouldShrink m) as [[|]|] eqn:Hs.
  - destruct (shrink_room m j (length (_pairs m)) Hs Hj Hc Hu Hsmall)
      as (Hj5 & Hhalf & Hroom).
    destruct (resize_ok m (2 ^ (j - 1)) (j - 1)) as (m1 & Hm1 & _);
      [by rewrite Hbs0 | lia | done | lia |].
    exists m1. left. split; [done|]. unfold shrink. by rewrite Hhalf.
  - exists m. by right.
  - unfold shouldShrink in Hs. case_decide; [lia|done].
Qed.

(** C4.  [remove( key )] on a well-formed map that holds the key.  The
    call returns whenever the 32-bit product [_binsInUse * 100] of the
    shrink check is the product of the integers.  When it returns: after
    the shrink check (the map [m1]) the key resolves to bin [b], which
    refers to the pair at store index [r]; the call has taken that pair
    out of the store, later pairs moving down by one index; it has
    decremented [_binsInUse]; it has decremented every bin in use whose
    index was greater than [r] and set bin [b] to EMPTY.  Afterwards
    [has( key )] is false and [size()] is one less. *)
Theorem remove_present m k :
  MapShape m -> has m k = Some true ->
  (_binsInUse m * 100 < 2 ^ 32 -> is_Some (remove m k)) /\
  (forall m', remove m k = Some m' ->
   exists m1 bs (b r : Z) p,
    after_shrink_check m m1 /\
    _pairs m1 = _pairs m /\ _bins m1 = Some bs /\
    findBinForKey m1 k = Some b /\ bin_at m1 b = Some r /\
    r <> BIN_EMPTY /\ 0 <= r /\
    _pairs m !! Z.to_nat r = Some p /\ key p = k /\
    _pairs m' = delete (Z.to_nat r) (_pairs m) /\
    (forall i : nat, _pairs m' !! i =
       if decide (i < Z.to_nat r)%nat then _pairs m !! i
       else _pairs m !! S i) /\
    _binsInUse m' = _binsInUse m - 1 /\
    _bins m' = Some (<[Z.to_nat b := BIN_EMPTY]> (shifted r <$> bs)) /\
    (forall (i : nat) x, bs !! i = Some x ->
       bin_at m' (Z.of_nat i) =
       Some (if decide (Z.of_nat i = b) then BIN_EMPTY
             else if decide (x <> BIN_EMPTY /\ x > r) then uint32 (x - 1)
                  else x)) /\
    _binCount m' = _binCount m1 /\
    has m' k = Some false /\
    size m' = size m - 1).
Proof.
  intros Hshape Hhas.
  assert (forall m1, after_shrink_check m m1 ->
            remove m k = remove_after_check m1 k) as Hstep.
  { intros m1 Hcheck. rewrite remove_unfold.
    by destruct Hcheck as [[-> ->]|[-> ->]]. }
  split.
  { intros Hsmall.
    destruct (after_shrink_check_total m Hshape Hsmall) as [m1 Hcheck].
    destruct (after_shrink_check_found m k m1 Hshape Hhas Hcheck)
      as (bs & b & r & p & Hps & Hu1 & Hbs & Hlen & Hfind & Hr
          & Hrne & Hr0 & Hp & Hpk).
    destruct (remove_after_check_present m1 bs k b r p) as [Hrun _];
      try done; [rewrite Hps; by destruct Hshape|].
    rewrite (Hstep m1 Hcheck), Hrun. by eexists. }
  intros m' Hrem.
  assert (exists m1, after_shrink_check m m1) as [m1 Hcheck].
  { rewrite remove_unfold in Hrem.
    destruct (shouldShrink m) as [[|]|] eqn:Hs; [| |done].
    - destruct (shrink m) as [m1|] eqn:Hshrink; [|done].
      exists m1. by left.
    - exists m. by right. }
  destruct (after_shrink_check_found m k m1 Hshape Hhas Hcheck)
    as (bs & b & r & p & Hps & Hu1 & Hbs & Hlen & Hfind & Hr
        & Hrne & Hr0 & Hp & Hpk).
  destruct Hshape as [_ _ Hu Hn].
  destruct (remove_after_check_present m1 bs k b r p) as [Hrun Hgone];
    try done; [by rewrite Hps|].
  rewrite (Hstep m1 Hcheck), Hrun in Hrem. injection Hrem as <-.
  pose proof (lookup_lt_Some _ _ _ Hp) as Hrlt. rewrite Hps in Hrlt.
  exists m1, bs, b, r, p.
  repeat split; try done.
  - by rewrite <- Hps.
  - simpl. by rewrite Hps.
  - intros i. simpl. rewrite Hps. case_decide.
    + by apply list_lookup_delete_lt.
    + by apply list_lookup_delete_ge; lia.
  - simpl. rewrite Hu1. apply uint32_small. rewrite Hu. lia.
  - intros i x Hx. pose proof (lookup_lt_Some _ _ _ Hx).
    pose proof (findBinForKey_range _ _ _ Hfind).
    unfold bin_at. simpl. case_decide; [|lia]. rewrite Nat2Z.id.
    destruct (decide (Z.of_nat i = b)) as [<-|Hib].
    + rewrite Nat2Z.id.
      by rewrite list_lookup_insert_eq by (rewrite length_fmap; lia).
    + rewrite list_lookup_insert_ne by lia.
      by rewrite list_lookup_fmap, Hx.
  - unfold size, DynamicArray.size. simpl. rewrite Hps in *.
    rewrite length_delete by (by eexists).
    rewrite !uint32_small by lia. lia.
Qed.

End RemoveTheorems.

(** ** [put] followed by a read *)

Section Put.

Context {K V : Type} `{EqDecision K}.

Implicit Types (m : Map K V) (k : K) (bs : list Z).

Lemma bin_key_at m (c x : Z) :
  bin_at m c = Some x -> c < _binCount m ->
  bin_key m c =
  if decide (x = BIN_EMPTY) then Some None
  else let? p := DynamicArray.at_ (_pairs m) x in Some (Some (key p)).
Proof.
  intros Hx Hc. unfold bin_key, isBinEmpty. case_decide; [|lia].
  rewrite Hx. simpl. case_bool_decide; case_decide; done.
Qed.

(** A [put] that returns has stored the value under the key: the read
    returns it, and [size()] has grown by one exactly when the key was
    not there. *)
Lemma put_then_get m bs k (v : V) m' :
  _bins m = Some bs -> Z.of_nat (length bs) = _binCount m ->
  Z.of_nat (length (_pairs m)) < 2 ^ 32 - 1 ->
  put m k v = Some m' ->
  get m' k = Some v /\ has m' k = Some true /\
  (has m k = Some true /\ size m' = size m \/
   has m k = Some false /\ size m' = size m + 1).
Proof.
  intros Hbs Hlen Hsmall. unfold put.
  destruct (findBinForKey m k) as [b|] eqn:Hfind; [|done]. simpl.
  pose proof (findBinForKey_range _ _ _ Hfind) as Hb.
  pose proof (findBinForKey_sound _ _ _ Hfind) as Hstop.
  assert (forall (ps' : list (Pair K V)) bs' u,
    (forall c, stops m k c = Some false ->
       stops (mkMap ps' (_hashFunc m) (Some bs') u (_binCount m)) k c
       = Some false) ->
    bin_key (mkMap ps' (_hashFunc m) (Some bs') u (_binCount m)) b
    = Some (Some k) ->
    findBinForKey (mkMap ps' (_hashFunc m) (Some bs') u (_binCount m)) k
    = Some b) as Hfind'.
  { intros ps' bs' u Hkeep Hkey.
    apply (findBinForKey_ext m); try done.
    rewrite stops_bin_key, Hkey. simpl. by rewrite bool_decide_eq_true_2. }
  destruct (isBinEmpty m b) as [[|]|] eqn:He; [| |done]; simpl.
  - (* the key is new *)
    rewrite (bin_store_ok _ bs) by (done || lia). simpl. intros [= <-].
    unfold DynamicArray.size, DynamicArray.push.
    unfold with_pairs, with_bins, with_binsInUse.
    cbn [_pairs _hashFunc _bins _binsInUse _binCount].
    rewrite uint32_small by lia.
    set (n := length (_pairs m)).
    set (m' := mkMap _ _ _ _ _).
    assert (bin_at m' b = Some (Z.of_nat n)) as Hbn.
    { unfold bin_at. simpl. case_decide; [|lia].
      apply list_lookup_insert_eq. lia. }
    assert (Z.of_nat n <> BIN_EMPTY) as Hne
      by (rewrite BIN_EMPTY_val; pow_consts; lia).
    assert (DynamicArray.at_ (_pairs m ++ [makePair k v]) (Z.of_nat n)
            = Some (makePair k v)) as Hat.
    { unfold DynamicArray.at_. case_decide; [|lia]. rewrite Nat2Z.id.
      unfold n. by rewrite lookup_app_r, Nat.sub_diag by lia. }
    assert (bin_key m' b = Some (Some k)) as Hkey.
    { rewrite (bin_key_at m' b (Z.of_nat n)) by (done || simpl; lia).
      case_decide; [done|]. simpl. by rewrite Hat. }
    assert (findBinForKey m' k = Some b) as Hfound.
    { apply Hfind'; [|done]. intros c Hc. rewrite <- Hc.
      apply bin_key_stops.
      assert (c <> b) as Hcb.
      { intros ->. rewrite (stops_empty _ _ _ He) in Hc. done. }
      pose proof (stops_range _ _ _ _ Hc) as Hcr.
      destruct (stops_false_bin_key _ _ _ Hc) as (k' & Hk' & _).
      destruct (bin_key_pair _ _ _ Hk') as (x & q & Hx & Hxne & Hx0 & Hq & Hqk).
      rewrite Hk'.
      rewrite (bin_key_at (mkMap _ _ _ _ _) c x); [| |simpl; lia].
      2:{ destruct (bin_at_lookup _ _ _ _ Hbs Hx) as [_ Hbx].
          unfold bin_at. simpl. case_decide; [|lia].
          by rewrite list_lookup_insert_ne by lia. }
      case_decide; [done|]. simpl. unfold DynamicArray.at_.
      case_decide; [|lia].
      rewrite lookup_app_l by (by eapply lookup_lt_Some).
      by rewrite Hq, Hqk. }
    assert (isBinEmpty m' b = Some false) as He'.
    { unfold isBinEmpty. case_decide; [|simpl in *; lia].
      rewrite Hbn. simpl. by rewrite bool_decide_eq_false_2. }
    split; [|split].
    + unfold get. rewrite Hfound. simpl. rewrite He'. simpl.
      rewrite Hbn. simpl. by rewrite Hat.
    + unfold has. rewrite Hfound. simpl. by rewrite He'.
    + right. split.
      * unfold has. rewrite Hfind. simpl. by rewrite He.
      * unfold size, DynamicArray.size. simpl. rewrite length_app. simpl.
        rewrite !uint32_small by lia. lia.
  - (* the key is there *)
    destruct (stops_true_bin_key _ _ _ Hstop) as [Hk|Hk];
      [apply bin_key_empty in Hk; congruence|].
    destruct (bin_key_pair _ _ _ Hk) as (r & p & Hr & Hrne & Hr0 & Hp & Hpk).
    rewrite Hr. simpl. unfold DynamicArray.assign, DynamicArray.at_.
    case_decide; [|lia]. rewrite Hp. simpl. intros [= <-].
    pose proof (lookup_lt_Some _ _ _ Hp) as Hrlt.
    set (m' := with_pairs m _).
    assert (DynamicArray.at_ (_pairs m') r = Some (makePair k v)) as Hat.
    { unfold DynamicArray.at_. simpl. case_decide; [|lia].
      by apply list_lookup_insert_eq. }
    assert (bin_key m' b = Some (Some k)) as Hkey.
    { rewrite (bin_key_at m' b r) by (done || simpl; lia).
      case_decide; [done|]. by rewrite Hat. }
    assert (findBinForKey m' k = Some b) as Hfound.
    { unfold m', with_pairs. rewrite Hbs. apply Hfind'.
      2:{ rewrite <- Hbs. exact Hkey. }
      rewrite <- Hbs. intros c Hc. rewrite <- Hc. apply bin_key_stops.
      pose proof (stops_range _ _ _ _ Hc) as Hcr.
      destruct (stops_false_bin_key _ _ _ Hc) as (k' & Hk' & Hkne).
      destruct (bin_key_pair _ _ _ Hk') as (x & q & Hx & Hxne & Hx0 & Hq & Hqk).
      rewrite Hk'.
      rewrite (bin_key_at (mkMap _ _ _ _ _) c x); [|done|simpl; lia].
      case_decide; [done|]. simpl. unfold DynamicArray.at_.
      case_decide; [|lia].
      assert (x <> r) as Hxr by (intros ->; congruence).
      rewrite list_lookup_insert_ne by lia.
      by rewrite Hq, Hqk. }
    assert (isBinEmpty m' b = Some false) as He' by done.
    split; [|split].
    + unfold get. rewrite Hfound. simpl. rewrite He'. simpl.
      replace (bin_at m' b) with (bin_at m b) by done.
      rewrite Hr. simpl in Hat. by rewrite Hat.
    + unfold has. rewrite Hfound. simpl. by rewrite He'.
    + left. split.
      * unfold has. rewrite Hfind. simpl. by rewrite He.
      * unfold size, DynamicArray.size. simpl. by rewrite length_insert.
Qed.

(** [put] returns on a map that satisfies the data-model invariant and
    has two bins free. *)
Lemma put_returns m k (v : V) :
  MapInv m -> size m + 2 <= _binCount m -> is_Some (put m k v).
Proof.
  intros [[(bs & Hbs & Hlen) (j & Hj & Hc) Hu Hn] Hvalid Hcount _ _] Hroom.
  assert (0 < 2 ^ j) as Hpos by (apply Z.pow_pos_nonneg; lia).
  unfold size, DynamicArray.size in Hroom.
  rewrite uint32_small in Hroom by lia.
  destruct (live_bins_room bs) as (e & He1 & He).
  { rewrite (Hcount bs) by done. lia. }
  destruct (findBinForKey_total m k j (Z.of_nat e)) as [b Hb];
    [lia | done | | lia | |].
  { intros c Hc'.
    apply (stops_defined m bs k (Z.of_nat (length (_pairs m))));
      [done | done | by apply Hvalid | lia | done]. }
  { by rewrite (isBinEmpty_lookup m bs e BIN_EMPTY). }
  pose proof (findBinForKey_sound _ _ _ Hb) as Hstop.
  pose proof (findBinForKey_range _ _ _ Hb) as Hbr.
  unfold put. rewrite Hb. simpl.
  destruct (stops_true _ _ _ Hstop) as [He'|[He' Hcont]]; rewrite He'; simpl.
  - rewrite (bin_store_ok _ bs) by (done || lia). by eexists.
  - destruct (stops_true_bin_key _ _ _ Hstop) as [Hk|Hk];
      [apply bin_key_empty in Hk; congruence|].
    destruct (bin_key_pair _ _ _ Hk) as (r & p & Hr & Hrne & Hr0 & Hp & Hpk).
    rewrite Hr. simpl. unfold DynamicArray.assign, DynamicArray.at_.
    case_decide; [|lia]. rewrite Hp. by eexists.
Qed.

End Put.

(** ** The write-or-create [operator[]] *)

Section Index.

Context {K V : Type} `{EqDecision K}.

Implicit Types (m : Map K V) (k : K) (bs : list Z).

(** A map that satisfies the invariant has no more pairs than bins. *)
Lemma MapInv_size_le m :
  MapInv m -> Z.of_nat (length (_pairs m)) <= _binCount m.
Proof.
  intros [[(bs & Hbs & Hlen) _ _ _] _ Hcount _ _].
  rewrite <- (Hcount bs Hbs), <- Hlen.
  pose proof (live_bins_length_le bs). lia.
Qed.


End Index.

(** ** The capacity invariant *)

Section CapacityInvariant.

Context {K V : Type} `{EqDecision K}.

Implicit Types (m : Map K V) (k : K).

(** C6.  In every state reachable through the interface, other than the
    state a move leaves its source in (which a copy of the source shares),
    [_binCount] is a power of two, at least 32.
    A constructor given a capacity of at most [2 ^ 31] returns, having
    rounded the capacity up to a power of two with floor 32; given more,
    it never returns.  [grow], which runs only when [shouldGrow] holds,
    doubles the bin count, and it does return on a map that satisfies
    the data-model invariant.  [shrink] runs only when
    [(_binsInUse * 100) / _binCount <= 30] and [_binCount > 32], and
    halves the bin count to no less than 32; it does return on a
    well-formed map whose product [_binsInUse * 100] fits 32 bits. *)
Theorem capacity_invariant m :
  reachable m -> ~ moved_from m ->
  (exists j, 5 <= j <= 31 /\ _binCount m = 2 ^ j) /\
  32 <= _binCount m /\
  (forall m', shouldGrow m = Some true -> grow m = Some m' ->
     _binCount m' = 2 * _binCount m) /\
  (MapInv m -> shouldGrow m = Some true ->
     exists m', grow m = Some m' /\ _binCount m' = 2 * _binCount m) /\
  (shouldShrink m = Some true <->
     uint32 (_binsInUse m * 100) / _binCount m <= 30 /\ _binCount m > 32) /\
  (forall m', shouldShrink m = Some true -> shrink m = Some m' ->
     _binCount m' = _binCount m / 2 /\ 32 <= _binCount m') /\
  (MapShape m -> shouldShrink m = Some true ->
   _binsInUse m * 100 < 2 ^ 32 ->
     exists m', shrink m = Some m' /\
                _binCount m' = _binCount m / 2 /\ 32 <= _binCount m') /\
  (forall capacity (hashFunc : K -> Z), capacity <= 2 ^ 31 ->
     exists (m0 : Map K V) j,
       Map_capacity capacity hashFunc = Some m0 /\
       5 <= j <= 31 /\ _binCount m0 = 2 ^ j /\ capacity <= 2 ^ j /\
       (5 < j -> 2 ^ (j - 1) < capacity)) /\
  (forall capacity (hashFunc : K -> Z), 2 ^ 31 < capacity ->
     Map_capacity (V := V) capacity hashFunc = None /\
     forall fuel, round_loop fuel MIN_BINS capacity = None).
Proof.
  intros Hreach Hlive.
  destruct (reachable_capacity m Hreach) as [Hmoved|(j & Hj & Hc)]; [done|].
  assert (2 ^ 5 <= 2 ^ j) as Hfloor by (apply Z.pow_le_mono_r; lia).
  assert (2 ^ 5 = 32) as H32 by done.
  assert (forall m', shouldShrink m = Some true -> shrink m = Some m' ->
            _binCount m' = _binCount m / 2 /\ 32 <= _binCount m') as Hhalf.
  { intros m' Hs Hshrink. unfold shrink in Hshrink.
    apply resize_fields in Hshrink as (_ & _ & _ & ->).
    apply shouldShrink_true in Hs as (_ & _ & Hgt). unfold MIN_BINS in Hgt.
    assert (5 < j) by (destruct (decide (j = 5)) as [->|]; lia).
    split.
    + rewrite Z.shiftr_div_pow2 by lia. done.
    + rewrite Hc, shiftr_1_pow2 by lia.
      assert (2 ^ 5 <= 2 ^ (j - 1)) by (apply Z.pow_le_mono_r; lia). lia. }
  split; [by exists j|]. split; [lia|]. split_and!.
  - intros m' Hg Hgrow. unfold grow in Hgrow.
    apply resize_fields in Hgrow as (_ & _ & _ & ->).
    by destruct (shouldGrow_doubles m j Hg Hj Hc) as [_ ->].
  - intros Hinv Hg.
    pose proof (MapInv_size_le m Hinv) as Hsize.
    destruct Hinv as [[(bs & Hbs & Hlen) _ _ _] _ _ _ _].
    destruct (shouldGrow_doubles m j Hg Hj Hc) as [Hlt Hdouble].
    assert (2 * _binCount m = 2 ^ (j + 1)) as Hnew.
    { rewrite Hc, Z.pow_add_r by lia. lia. }
    destruct (resize_ok m (2 ^ (j + 1)) (j + 1)) as (m1 & Hm1 & _);
      [by rewrite Hbs | lia | done | lia |].
    exists m1. unfold grow. rewrite Hdouble, Hnew. split; [done|].
    by apply resize_fields in Hm1 as (_ & _ & _ & ->).
  - rewrite shouldShrink_true. unfold SHRINK_THRESHOLD, MIN_BINS.
    split; [tauto|]. intros [? ?]. split; [lia|done].
  - exact Hhalf.
  - intros Hshape Hs Hsmall.
    destruct (after_shrink_check_total m Hshape Hsmall)
      as [m1 [[_ Hm1]|[Hno _]]]; [|congruence].
    exists m1. split; [done|]. by apply Hhalf.
  - intros capacity hashFunc Hcap.
    destruct (Map_capacity_total (V := V) capacity hashFunc Hcap) as [m0 Hm0].
    destruct (Map_capacity_rounds _ _ _ Hm0) as (j0 & ? & ? & ? & ?).
    by exists m0, j0.
  - intros capacity hashFunc Hcap.
    assert (forall fuel, round_loop fuel MIN_BINS capacity = None) as Hloop.
    { intros fuel. change MIN_BINS with (2 ^ 5).
      apply round_loop_diverges; [lia|done]. }
    split; [|done]. unfold Map_capacity. by rewrite Hloop.
Qed.

End CapacityInvariant.

(** * Further properties of the code *)

(** ** The lookup of map.h *)

Section Lookup.

Context {K V : Type} `{EqDecision K}.

Implicit Types (m : Map K V) (k : K) (bs : list Z).

(** From bin [j >= 1] on, the loop returns when a bin [e >= j] stops it. *)
Lemma findBin_loop_map_h_stops m k (e : Z) (d : nat) : forall (j : Z) fuel,
  _binCount m < 2 ^ 32 ->
  (forall c, 0 <= c < _binCount m -> is_Some (stops m k c)) ->
  stops m k e = Some true ->
  1 <= j <= e -> Z.to_nat (e - j) = d -> (d < fuel)%nat ->
  exists b, findBin_loop KeyValueIterators fuel m k j j = Some b.
Proof.
  induction d as [|d IH]; intros j fuel Hmax Hdef He Hj Hd Hfuel;
    (destruct fuel as [|fuel]; [lia|]); rewrite findBin_loop_S;
    pose proof (stops_range _ _ _ _ He) as Hre.
  - assert (j = e) as -> by lia. rewrite He. eauto.
  - destruct (Hdef j) as [s Hs]; [lia|]. rewrite Hs.
    destruct s; [eauto|]. simpl. unfold probe.
    rewrite uint32_small by lia.
    apply IH; try done; lia.
Qed.

(** From bin [j >= 1] on, the loop runs into the assertion of
    [isBinEmpty] at bin [_binCount] when no bin stops it. *)
Lemma findBin_loop_map_h_asserts m k (d : nat) : forall (j : Z) fuel,
  _binCount m < 2 ^ 32 ->
  (forall c, j <= c < _binCount m -> stops m k c = Some false) ->
  1 <= j <= _binCount m -> Z.to_nat (_binCount m - j) = d ->
  findBin_loop KeyValueIterators fuel m k j j = None.
Proof.
  induction d as [|d IH]; intros j fuel Hmax Hall Hj Hd;
    (destruct fuel as [|fuel]; [done|]); rewrite findBin_loop_S.
  - destruct (stops m k j) as [s|] eqn:Hs; [|done].
    apply stops_range in Hs. lia.
  - rewrite Hall by lia. simpl. unfold probe.
    rewrite uint32_small by lia.
    apply IH; try done; [|lia..]. intros c Hc. apply Hall. lia.
Qed.

(** A lookup that returns gives a bin of the table that is EMPTY or
    refers to a pair with the key, and every bin the loop looked at
    before that one refers to a pair with another key. *)
Theorem findBinForKey_result m k (b : Z) :
  findBinForKey m k = Some b ->
  0 <= b < _binCount m /\
  (isBinEmpty m b = Some true \/
   exists (x : Z) p, bin_at m b = Some x /\ x <> BIN_EMPTY /\
                     _pairs m !! Z.to_nat x = Some p /\ key p = k) /\
  exists n : nat,
    Z.of_nat n <= _binCount m /\
    b = candidate KeyValueIterators m k n /\
    forall t : nat, (t < n)%nat ->
      exists k', bin_key m (candidate KeyValueIterators m k t)
                 = Some (Some k') /\ k' <> k.
Proof.
  intros Hfind.
  pose proof (findBinForKey_range _ _ _ Hfind) as Hb.
  split; [done|]. split.
  - destruct (stops_true_bin_key _ _ _ (findBinForKey_sound _ _ _ Hfind))
      as [Hk|Hk].
    + left. by apply bin_key_empty.
    + right. destruct (bin_key_pair _ _ _ Hk) as (x & p & ? & ? & ? & ? & ?).
      by exists x, p.
  - unfold findBinForKey in Hfind.
    apply findBin_loop_inv in Hfind as (n & Hn & -> & _ & Hbefore).
    exists n. split; [lia|]. split; [done|].
    intros t Ht. by apply stops_false_bin_key, Hbefore.
Qed.

(** In a table of a power-of-two size whose bins all hold EMPTY or an
    index into the store, a lookup trips the assertion of [isBinEmpty]
    exactly when the initial bin and every bin from 1 up refer to pairs
    with other keys; bin 0 is looked at only as an initial bin. *)
Theorem findBinForKey_asserts_iff m k (j : Z) :
  0 <= j <= 31 -> _binCount m = 2 ^ j ->
  (forall c, 0 <= c < _binCount m -> is_Some (stops m k c)) ->
  findBinForKey m k = None <-> all_taken m k.
Proof.
  intros Hj Hc Hdef.
  assert (0 < 2 ^ j) as Hpos by (apply Z.pow_pos_nonneg; lia).
  assert (2 ^ j <= 2 ^ 31) by (apply Z.pow_le_mono_r; lia).
  pose proof (wrap_range m j (hash m k) Hj Hc) as Hw.
  unfold findBinForKey, all_taken. rewrite findBin_loop_S. split.
  - intros Hnone.
    destruct (Hdef (wrap m (hash m k))) as [s Hs]; [done|].
    rewrite Hs in Hnone. destruct s; [done|]. split; [done|].
    intros c Hcr. destruct (Hdef c) as [[|] Hsc]; [lia| |done].
    exfalso. simpl in Hnone. unfold probe in Hnone.
    rewrite uint32_small in Hnone by lia. change (0 + 1) with 1 in Hnone.
    destruct (findBin_loop_map_h_stops m k c (Z.to_nat (c - 1)) 1
                (Z.to_nat (_binCount m))) as [b Hb]; try done; try lia.
    congruence.
  - intros [-> Hall]. simpl. unfold probe.
    rewrite uint32_small by lia. change (0 + 1) with 1.
    apply (findBin_loop_map_h_asserts m k (Z.to_nat (_binCount m - 1)));
      try done; lia.
Qed.

(** [wrap] brings an index into the table, as the remainder of the
    division by [_binCount], when [_binCount] is a power of two. *)
Theorem wrap_is_remainder m (j : Z) (index : Z) :
  0 <= j <= 31 -> _binCount m = 2 ^ j ->
  wrap m index = index mod _binCount m /\
  0 <= wrap m index < _binCount m.
Proof.
  intros Hj Hc. split; [|by eapply wrap_range].
  rewrite Hc. by apply wrap_pow2.
Qed.

End Lookup.

(** ** Maps in which every stored key is found *)

Section WellFormedFacts.

Context {K V : Type} `{EqDecision K}.

Implicit Types (m : Map K V) (k : K) (bs : list Z).

Lemma filter_eq_absent (l : list Z) (x : Z) :
  x ∉ l -> filter (fun y => y = x) l = [].
Proof.
  induction l as [|y l IH]; [done|].
  intros [Hxy Hx]%not_elem_of_cons. rewrite filter_cons.
  case_decide; [congruence|]. by apply IH.
Qed.

Lemma filter_eq_NoDup (l : list Z) (x : Z) :
  NoDup l -> x ∈ l -> length (filter (fun y => y = x) l) = 1%nat.
Proof.
  induction 1 as [|y l Hy Hl IH]; [by intros ?%elem_of_nil|].
  rewrite filter_cons. intros [->|Hx]%elem_of_cons.
  - case_decide; [|done]. simpl. by rewrite filter_eq_absent.
  - case_decide as Hyx; [subst; done|]. by apply IH.
Qed.

Lemma filter_eq_live bs (x : Z) :
  x <> BIN_EMPTY ->
  filter (fun y => y = x) (live_bins bs) = filter (fun y => y = x) bs.
Proof.
  intros Hx. unfold live_bins. induction bs as [|b bs IH]; [done|].
  rewrite !filter_cons. case_decide as Hb.
  - rewrite filter_cons. by rewrite IH.
  - subst b. case_decide; [congruence|done].
Qed.

Lemma elem_of_live_bins bs (c : nat) (x : Z) :
  bs !! c = Some x -> x <> BIN_EMPTY -> x ∈ live_bins bs.
Proof.
  intros Hc Hx. unfold live_bins. apply list_elem_of_filter.
  split; [done|]. by eapply list_elem_of_lookup_2.
Qed.

(** When every index below [n] is in some bin and no more than [n] bins
    are in use, the bins in use are those indices, each once. *)
Lemma live_bins_indices bs (n : nat) :
  Z.of_nat n <= BIN_EMPTY ->
  (forall i : nat, (i < n)%nat -> Z.of_nat i ∈ live_bins bs) ->
  (length (live_bins bs) <= n)%nat ->
  live_bins bs ≡ₚ (Z.of_nat <$> seq 0 n).
Proof.
  intros Hn Hall Hle. symmetry.
  apply submseteq_length_Permutation; [|by rewrite length_fmap, length_seq].
  apply NoDup_submseteq.
  - apply (NoDup_fmap_2 _), NoDup_seq.
  - intros x (i & -> & Hi%elem_of_seq)%list_elem_of_fmap. apply Hall. lia.
Qed.

(** A key that resolves to a bin holding [i] reaches that bin. *)
Lemma found_reaches m k (b i : Z) :
  findBinForKey m k = Some b -> bin_at m b = Some i -> reaches m k i.
Proof.
  intros Hfind Hbin. unfold findBinForKey in Hfind.
  apply findBin_loop_inv in Hfind as (n & _ & -> & _ & Hbefore).
  exists n. split; [done|].
  intros t Ht. by destruct (stops_false _ _ _ (Hbefore t Ht)).
Qed.

Lemma MapWF_index_in_live m bs (i : nat) :
  MapWF m -> _bins m = Some bs -> (i < length (_pairs m))%nat ->
  Z.of_nat i ∈ live_bins bs.
Proof.
  intros [[_ _ _ Hsize] _ _ Hfound] Hbs Hi.
  destruct (lookup_lt_is_Some_2 (_pairs m) i Hi) as [p Hp].
  destruct (Hfound i p Hp) as (b & _ & Hb).
  destruct (bin_at_lookup _ _ _ _ Hbs Hb) as [_ Hbb].
  apply (elem_of_live_bins bs (Z.to_nat b)); [done|].
  rewrite BIN_EMPTY_val. pow_consts. lia.
Qed.

Lemma MapWF_live m bs :
  MapWF m -> _bins m = Some bs ->
  live_bins bs ≡ₚ (Z.of_nat <$> seq 0 (length (_pairs m))).
Proof.
  intros Hwf Hbs. apply live_bins_indices.
  - destruct Hwf as [[_ _ _ Hsize] _ _ _].
    rewrite BIN_EMPTY_val. pow_consts. lia.
  - intros i Hi. by apply (MapWF_index_in_live m).
  - by apply (wf_live m Hwf).
Qed.

(** A map in which every stored key is found satisfies the invariant of
    the data model. *)
Lemma MapWF_MapInv m : MapWF m -> MapInv m.
Proof.
  intros Hwf. pose proof Hwf as [Hshape Hvalid Hlive Hfound].
  split; [done|done| | |].
  - intros bs Hbs. rewrite (MapWF_live m bs Hwf Hbs).
    by rewrite length_fmap, length_seq.
  - intros bs i Hbs Hi.
    assert (Z.of_nat i <> BIN_EMPTY) as Hne.
    { destruct Hshape as [_ _ _ Hsize].
      rewrite BIN_EMPTY_val. pow_consts. lia. }
    rewrite <- (filter_eq_live bs) by done.
    rewrite (MapWF_live m bs Hwf Hbs).
    apply filter_eq_NoDup.
    + apply (NoDup_fmap_2 _), NoDup_seq.
    + apply list_elem_of_fmap. exists i. split; [done|].
      apply elem_of_seq. lia.
  - intros i p Hp. destruct (Hfound i p Hp) as (b & Hfind & Hb).
    by eapply found_reaches.
Qed.

(** The read of a stored key returns the value stored with it. *)
Lemma found_get m (i : nat) p :
  Z.of_nat (length (_pairs m)) < 2 ^ 32 -> found m ->
  _pairs m !! i = Some p ->
  get m (key p) = Some (value p) /\ has m (key p) = Some true.
Proof.
  intros Hsize Hfound Hp. destruct (Hfound i p Hp) as (b & Hfind & Hb).
  pose proof (findBinForKey_range _ _ _ Hfind) as Hr.
  pose proof (lookup_lt_Some _ _ _ Hp) as Hi.
  assert (isBinEmpty m b = Some false) as He.
  { unfold isBinEmpty. case_decide; [|lia]. rewrite Hb. simpl.
    rewrite bool_decide_eq_false_2; [done|].
    rewrite BIN_EMPTY_val. pow_consts. lia. }
  unfold get, has. rewrite Hfind. simpl. rewrite He. simpl.
  rewrite Hb. simpl. unfold DynamicArray.at_.
  case_decide; [|lia]. by rewrite Nat2Z.id, Hp.
Qed.

(** No two pairs of the store have the same key. *)
Lemma found_NoDup_keys m : found m -> NoDup (keys m).
Proof.
  intros Hfound. unfold keys. apply NoDup_alt. intros i i' k.
  rewrite !list_lookup_fmap.
  destruct (_pairs m !! i) as [p|] eqn:Hp; [|done].
  destruct (_pairs m !! i') as [p'|] eqn:Hp'; [|done].
  simpl. intros [= <-] [= Hk].
  destruct (Hfound i p Hp) as (b & Hfind & Hb).
  destruct (Hfound i' p' Hp') as (b' & Hfind' & Hb').
  rewrite Hk in Hfind'. assert (b' = b) as -> by congruence.
  assert (Z.of_nat i' = Z.of_nat i) by congruence. lia.
Qed.

End WellFormedFacts.

(** ** Construction, copies and moved-from maps *)

Section Construct.

Context {K V : Type} `{EqDecision K}.

Implicit Types (m : Map K V) (k : K) (bs : list Z).

(** A table of EMPTY bins around an empty store. *)
Lemma fresh_map_empty (hashFunc : K -> Z) (j : Z) :
  5 <= j <= 31 ->
  let m := mkMap ([] : list (Pair K V)) hashFunc
             (Some (replicate (Z.to_nat (2 ^ j)) BIN_EMPTY)) 0 (2 ^ j) in
  MapWF m /\ (forall k, has m k = Some false) /\ (forall k, get m k = None).
Proof.
  intros Hj m.
  assert (0 < 2 ^ j) as Hpos by (apply Z.pow_pos_nonneg; lia).
  assert (forall k, exists b, findBinForKey m k = Some b /\
                              isBinEmpty m b = Some true) as Hfind.
  { intros k. exists (wrap m (hash m k)).
    pose proof (wrap_range m j (hash m k) ltac:(lia) eq_refl) as Hw.
    assert (isBinEmpty m (wrap m (hash m k)) = Some true) as He.
    { unfold isBinEmpty, bin_at. simpl in *. repeat (case_decide; [|lia]).
      by rewrite lookup_replicate_2 by lia. }
    split; [|done]. unfold findBinForKey. rewrite findBin_loop_S.
    by rewrite (stops_empty _ _ _ He). }
  split; [|split].
  - split.
    + split.
      * eexists. split; [done|]. rewrite length_replicate. simpl. lia.
      * by exists j.
      * done.
      * simpl. pow_consts. lia.
    + intros bs [= <-]. apply Forall_replicate. by left.
    + intros bs [= <-]. by rewrite live_bins_replicate.
    + intros i p Hp. done.
  - intros k. destruct (Hfind k) as (b & Hb & He).
    unfold has. by rewrite Hb, He.
  - intros k. destruct (Hfind k) as (b & Hb & He).
    unfold get. by rewrite Hb, He.
Qed.

(** The default constructor and the constructor from a hash function
    return a map of 32 EMPTY bins and no pairs: no key has a mapping,
    the read of any key fails its assertion, and the invariant of the
    data model holds. *)
Theorem Map_new_is_empty (hashFunc : K -> Z) :
  exists m : Map K V,
    Map_new hashFunc = Some m /\
    _binCount m = 32 /\ size m = 0 /\ isEmpty m = true /\
    (forall k, has m k = Some false) /\
    (forall k, get m k = None) /\
    MapWF m /\ MapInv m.
Proof.
  destruct (fresh_map_empty hashFunc 5 ltac:(lia)) as (Hwf & Hhas & Hget).
  exists (mkMap [] hashFunc (Some (replicate (Z.to_nat (2 ^ 5)) BIN_EMPTY))
            0 (2 ^ 5)).
  split.
  { unfold Map_new, binAlloc_get.
    exact (clearBins_fresh (mkMap [] hashFunc None 0 0) 32 ltac:(lia)). }
  split_and!; try done. by apply MapWF_MapInv.
Qed.

(** The constructors that take a capacity of at most [2 ^ 31] return a
    map with no pairs whose number of bins is the least power of two
    that is at least 32 and at least the capacity. *)
Theorem Map_capacity_is_empty (capacity : Z) (hashFunc : K -> Z) :
  capacity <= 2 ^ 31 ->
  exists (m : Map K V) (j : Z),
    Map_capacity capacity hashFunc = Some m /\
    5 <= j <= 31 /\ _binCount m = 2 ^ j /\ capacity <= 2 ^ j /\
    (5 < j -> 2 ^ (j - 1) < capacity) /\
    size m = 0 /\ isEmpty m = true /\
    (forall k, has m k = Some false) /\
    MapWF m /\ MapInv m.
Proof.
  intros Hcap. unfold Map_capacity, binAlloc_get.
  destruct (round_loop_fuel capacity 26 5 32) as [n Hn]; try done; try lia.
  change MIN_BINS with (2 ^ 5). rewrite Hn.
  destruct (round_loop_pow2 capacity 32 5 n) as (j & Hj & -> & Hle & Hleast);
    [lia|done|].
  assert (0 < 2 ^ j) by (apply Z.pow_pos_nonneg; lia).
  destruct (fresh_map_empty hashFunc j ltac:(lia)) as (Hwf & Hhas & Hget).
  exists (mkMap [] hashFunc (Some (replicate (Z.to_nat (2 ^ j)) BIN_EMPTY))
            0 (2 ^ j)), j.
  split.
  { exact (clearBins_fresh (mkMap [] hashFunc None 0 0) (2 ^ j) ltac:(lia)). }
  split_and!; try done; try lia. by apply MapWF_MapInv.
Qed.

(** A constructor given a capacity above [2 ^ 31] never returns: the
    doubled bin count wraps around to 0 and stays below the capacity,
    however often the loop runs. *)
Theorem Map_capacity_never_returns (capacity : Z) (hashFunc : K -> Z) :
  2 ^ 31 < capacity ->
  (forall fuel, round_loop fuel MIN_BINS capacity = None) /\
  Map_capacity (V := V) capacity hashFunc = None.
Proof.
  intros Hcap.
  assert (forall fuel, round_loop fuel MIN_BINS capacity = None) as Hloop.
  { intros fuel. change MIN_BINS with (2 ^ 5).
    apply round_loop_diverges; [lia|done]. }
  split; [done|]. unfold Map_capacity. by rewrite Hloop.
Qed.

(** The copy constructor, and the copy assignment from another map
    object, give a map with the pairs, the hash function, the counters
    and the bin contents of the source, provided the source has the
    [_binCount] bins it says. *)
Theorem Map_copy_same m bs :
  _bins m = Some bs -> Z.of_nat (length bs) = _binCount m ->
  Map_copy m = Some m.
Proof.
  intros Hbs Hlen. unfold Map_copy, binAlloc_get, MemoryUtils.copy.
  rewrite Hbs. rewrite <- Hlen, Nat2Z.id.
  rewrite copy_loop_all by (by rewrite length_replicate).
  rewrite Hlen. f_equal. destruct m; simpl in *. by rewrite Hbs.
Qed.

(** On the source of a move [size()], [isEmpty()] and [clear()] work:
    the map reports no pairs, and [clear()] leaves it as it is.
    [remove] and the write-or-create [operator[]] never return: their
    first step, the shrink check and the growth check, divides by a bin
    count of zero, before any key is hashed.  A copy of the source can
    be made; it is in the same state, and the two calls fail on it in
    the same way. *)
Theorem moved_from_unusable m k (value_ : V) :
  let source := snd (Map_move m) in
  size source = 0 /\ isEmpty source = true /\
  clear source = Some source /\
  shouldShrink source = None /\ shouldGrow source = None /\
  remove source k = None /\ index value_ source k = None /\
  exists copy,
    Map_copy source = Some copy /\ moved_from copy /\
    _binCount copy = 0 /\ size copy = 0 /\
    remove copy k = None /\ index value_ copy k = None.
Proof.
  simpl. split_and!; try done.
  eexists. split; [reflexivity|]. unfold moved_from. simpl.
  split_and!; auto.
Qed.

Lemma absent_bin_empty m k (b : Z) :
  (forall p, p ∈ _pairs m -> key p <> k) ->
  findBinForKey m k = Some b -> isBinEmpty m b = Some true.
Proof.
  intros Habsent Hfind.
  destruct (stops_true_bin_key _ _ _ (findBinForKey_sound _ _ _ Hfind))
    as [Hk|Hk]; [by apply bin_key_empty|].
  destruct (bin_key_pair _ _ _ Hk) as (x & q & _ & _ & _ & Hq & Hqk).
  exfalso. apply (Habsent q); [|done]. by eapply list_elem_of_lookup_2.
Qed.

Lemma absent_get_None m k :
  (forall p, p ∈ _pairs m -> key p <> k) -> get m k = None.
Proof.
  intros Habsent. unfold get.
  destruct (findBinForKey m k) as [b|] eqn:Hfind; [|done].
  by rewrite (absent_bin_empty m k b).
Qed.

(** The read of a key that no pair of the store has never returns a
    value, and [has] never reports such a key. *)
Theorem get_absent m k :
  (forall p, p ∈ _pairs m -> key p <> k) ->
  get m k = None /\ has m k <> Some true.
Proof.
  intros Habsent. split; [by apply absent_get_None|].
  unfold has.
  destruct (findBinForKey m k) as [b|] eqn:Hfind; [|done].
  by rewrite (absent_bin_empty m k b).
Qed.

(** The read returns a value exactly when [has] reports the key, and
    the value is the one stored in a pair with that key. *)
Theorem get_iff_has m k :
  (is_Some (get m k) <-> has m k = Some true) /\
  (forall v, get m k = Some v ->
     exists p, p ∈ _pairs m /\ key p = k /\ value p = v).
Proof.
  unfold get, has.
  destruct (findBinForKey m k) as [b|] eqn:Hfind.
  2:{ split; [split; [by intros [? ?]|done]|done]. }
  simpl. destruct (isBinEmpty m b) as [[|]|] eqn:He; simpl;
    try (split; [split; [by intros [? ?]|done]|done]).
  destruct (stops_true_bin_key _ _ _ (findBinForKey_sound _ _ _ Hfind))
    as [Hk|Hk]; [apply bin_key_empty in Hk; congruence|].
  destruct (bin_key_pair _ _ _ Hk) as (x & q & Hx & _ & Hx0 & Hq & Hqk).
  rewrite Hx. simpl. unfold DynamicArray.at_. case_decide; [|lia].
  rewrite Hq. split; [split; [done|by eexists]|].
  intros v [= <-]. exists q. split; [by eapply list_elem_of_lookup_2|done].
Qed.

End Construct.

(** ** What [put] keeps *)

Section PutKeeps.

Context {K V : Type} `{EqDecision K}.

Implicit Types (m : Map K V) (k : K) (bs : list Z).

Lemma bin_key_range m (c : Z) o :
  bin_key m c = Some o -> 0 <= c < _binCount m.
Proof.
  unfold bin_key. destruct (isBinEmpty m c) eqn:He; [|done].
  intros _. by eapply isBinEmpty_range.
Qed.

(** The two outcomes of a [put] that returns. *)
Lemma put_cases m k (v : V) m' :
  put m k v = Some m' ->
  exists b, findBinForKey m k = Some b /\
    ((isBinEmpty m b = Some true /\
      exists bs, _bins m = Some bs /\ 0 <= b < Z.of_nat (length bs) /\
        m' = mkMap (_pairs m ++ [makePair k v]) (_hashFunc m)
               (Some (<[Z.to_nat b := DynamicArray.size (_pairs m)]> bs))
               (uint32 (_binsInUse m + 1)) (_binCount m)) \/
     (isBinEmpty m b = Some false /\
      exists (r : Z) p, bin_at m b = Some r /\ r <> BIN_EMPTY /\ 0 <= r /\
        _pairs m !! Z.to_nat r = Some p /\ key p = k /\
        m' = with_pairs m (<[Z.to_nat r := makePair k v]> (_pairs m)))).
Proof.
  unfold put.
  destruct (findBinForKey m k) as [b|] eqn:Hfind; [|done]. simpl.
  pose proof (findBinForKey_sound _ _ _ Hfind) as Hstop.
  intros Hput. exists b. split; [done|]. revert Hput.
  destruct (isBinEmpty m b) as [[|]|] eqn:He; [| |done]; simpl.
  - destruct (bin_store _ _ _) as [stored|] eqn:Hst; [|done].
    apply bin_store_Some in Hst as (bs & Hbs & Hb & ->).
    intros [= <-]. left. split; [done|]. by exists bs.
  - destruct (stops_true_bin_key _ _ _ Hstop) as [Hk|Hk];
      [apply bin_key_empty in Hk; congruence|].
    destruct (bin_key_pair _ _ _ Hk) as (r & p & Hr & Hrne & Hr0 & Hp & Hpk).
    rewrite Hr. simpl. unfold DynamicArray.assign, DynamicArray.at_.
    case_decide; [|lia]. rewrite Hp. simpl. intros [= <-].
    right. split; [done|]. by exists r, p.
Qed.

(** A lookup is not disturbed by a change of the map under which the
    bins in use keep their keys. *)
Lemma find_kept m m' k (b : Z) :
  _binCount m' = _binCount m -> _hashFunc m' = _hashFunc m ->
  (forall c k', bin_key m c = Some (Some k') ->
                bin_key m' c = Some (Some k')) ->
  findBinForKey m k = Some b -> bin_key m' b = Some (Some k) ->
  findBinForKey m' k = Some b.
Proof.
  intros Hc Hh Hkeep Hfind Hb.
  apply (findBinForKey_ext m); try done.
  - intros c Hs. destruct (stops_false_bin_key _ _ _ Hs) as (k' & Hk' & Hne).
    rewrite stops_bin_key, (Hkeep c k' Hk'). simpl.
    by rewrite bool_decide_eq_false_2.
  - rewrite stops_bin_key, Hb. simpl. by rewrite bool_decide_eq_true_2.
Qed.

(** After a [put] every bin that was in use holds the index it held and
    refers to a pair with the key it had; the bin the key resolved to
    refers to a pair with the key. *)
Lemma put_bins_keep m k (v : V) m' :
  Z.of_nat (length (_pairs m)) < 2 ^ 32 - 1 ->
  put m k v = Some m' ->
  _binCount m' = _binCount m /\ _hashFunc m' = _hashFunc m /\
  (forall c k', bin_key m c = Some (Some k') ->
     bin_key m' c = Some (Some k') /\ bin_at m' c = bin_at m c) /\
  (forall b, findBinForKey m k = Some b -> bin_key m' b = Some (Some k)).
Proof.
  intros Hsmall Hput.
  destruct (put_cases _ _ _ _ Hput) as (b & Hfind & Hcase).
  pose proof (findBinForKey_range _ _ _ Hfind) as Hbr.
  destruct Hcase as [(He & bs & Hbs & Hb & ->)
                    |(He & r & p & Hr & Hrne & Hr0 & Hp & Hpk & ->)].
  - unfold DynamicArray.size. rewrite uint32_small by lia.
    set (n := length (_pairs m)).
    assert (Z.of_nat n <> BIN_EMPTY) as Hne
      by (rewrite BIN_EMPTY_val; pow_consts; lia).
    split; [done|]. split; [done|]. split.
    + intros c k' Hk'.
      pose proof Hk' as (x & q & Hx & Hxne & Hx0 & Hq & Hqk)%bin_key_pair.
      assert (c <> b) as Hcb.
      { intros ->. apply bin_key_empty in He. congruence. }
      destruct (bin_at_lookup _ _ _ _ Hbs Hx) as [Hc0 Hbx].
      assert (bin_at (mkMap (_pairs m ++ [makePair k v]) (_hashFunc m)
                        (Some (<[Z.to_nat b := Z.of_nat n]> bs))
                        (uint32 (_binsInUse m + 1)) (_binCount m)) c
              = bin_at m c) as Hsame.
      { rewrite Hx. unfold bin_at. simpl. case_decide; [|lia].
        by rewrite list_lookup_insert_ne by lia. }
      split; [|done].
      rewrite (bin_key_at _ c x); [|by rewrite Hsame|].
      2:{ simpl. apply (bin_key_range m c _ Hk'). }
      case_decide; [done|]. simpl. unfold DynamicArray.at_.
      case_decide; [|lia].
      rewrite lookup_app_l by (by eapply lookup_lt_Some).
      by rewrite Hq, Hqk.
    + intros b' Hb'. assert (b' = b) as -> by congruence.
      rewrite (bin_key_at _ b (Z.of_nat n)); [| |simpl; lia].
      2:{ unfold bin_at. simpl. case_decide; [|lia].
          apply list_lookup_insert_eq. lia. }
      case_decide; [done|]. simpl. unfold DynamicArray.at_.
      case_decide; [|lia]. rewrite Nat2Z.id. unfold n.
      by rewrite lookup_app_r, Nat.sub_diag by lia.
  - pose proof (lookup_lt_Some _ _ _ Hp) as Hrlt.
    assert (forall c k', bin_key m c = Some (Some k') ->
              bin_key (with_pairs m (<[Z.to_nat r := makePair k v]> (_pairs m)))
                c = Some (Some k')) as Hkeep.
    { intros c k' Hk'.
      pose proof Hk' as (x & q & Hx & Hxne & Hx0 & Hq & Hqk)%bin_key_pair.
      rewrite (bin_key_at _ c x); [|done|].
      2:{ simpl. apply (bin_key_range m c _ Hk'). }
      case_decide; [done|]. simpl. unfold DynamicArray.at_.
      case_decide; [|lia].
      destruct (decide (x = r)) as [->|Hxr].
      - rewrite list_lookup_insert_eq by lia. simpl. congruence.
      - rewrite list_lookup_insert_ne by lia. by rewrite Hq, Hqk. }
    split; [done|]. split; [done|]. split.
    + intros c k' Hk'. split; [by apply Hkeep|done].
    + intros b' Hb'. assert (b' = b) as -> by congruence.
      apply Hkeep.
      rewrite (bin_key_at m b r) by (done || lia).
      case_decide; [done|]. unfold DynamicArray.at_.
      case_decide; [|lia]. by rewrite Hp, Hpk.
Qed.

(** After a [put] the store holds, at every index it had, a pair with
    the key that was there, and the same pair unless the key is the one
    put. *)
Lemma put_store_keeps m k (v : V) m' (i : nat) p :
  put m k v = Some m' -> _pairs m !! i = Some p ->
  exists p', _pairs m' !! i = Some p' /\ key p' = key p /\
             (key p <> k -> p' = p).
Proof.
  intros Hput Hp. pose proof (lookup_lt_Some _ _ _ Hp) as Hi.
  destruct (put_cases _ _ _ _ Hput)
    as (b & Hfind & [(He & bs & Hbs & Hb & ->)
                    |(He & r & q & Hr & Hrne & Hr0 & Hq & Hqk & ->)]); simpl.
  - exists p. by rewrite lookup_app_l.
  - destruct (decide (i = Z.to_nat r)) as [->|Hir].
    + rewrite list_lookup_insert_eq by lia. eexists. split; [done|].
      simpl. assert (q = p) as -> by congruence. split; [done|]. congruence.
    + rewrite list_lookup_insert_ne by lia. by exists p.
Qed.

(** A key that resolves to a bin holding a valid index [x] sees the key
    of the pair at [x] in that bin. *)
Lemma bin_key_of_index m (b : Z) (i : nat) p :
  Z.of_nat (length (_pairs m)) < 2 ^ 32 ->
  0 <= b < _binCount m ->
  bin_at m b = Some (Z.of_nat i) -> _pairs m !! i = Some p ->
  bin_key m b = Some (Some (key p)).
Proof.
  intros Hsmall Hb Hbi Hp. pose proof (lookup_lt_Some _ _ _ Hp) as Hi.
  rewrite (bin_key_at m b (Z.of_nat i)) by (done || lia).
  case_decide as He; [rewrite BIN_EMPTY_val in He; pow_consts; lia|].
  unfold DynamicArray.at_. case_decide; [|lia].
  by rewrite Nat2Z.id, Hp.
Qed.

End PutKeeps.

Section PutTheorems.

Context {K V : Type} `{EqDecision K}.

Implicit Types (m : Map K V) (k : K) (bs : list Z).

Lemma put_keeps_get m k (v : V) m' k' :
  Z.of_nat (length (_pairs m)) < 2 ^ 32 - 1 ->
  put m k v = Some m' -> k' <> k -> has m k' = Some true ->
  get m' k' = get m k' /\ has m' k' = Some true.
Proof.
  intros Hsmall Hput Hne Hhas.
  destruct (has_true_found m k' Hhas)
    as (b & x & q & Hfind & Hx & Hxne & Hx0 & Hq & Hqk).
  pose proof (findBinForKey_range _ _ _ Hfind) as Hbr.
  assert (bin_key m b = Some (Some k')) as Hkey.
  { rewrite (bin_key_at m b x) by (done || lia).
    case_decide; [done|]. unfold DynamicArray.at_.
    case_decide; [|lia]. by rewrite Hq, Hqk. }
  destruct (put_bins_keep m k v m' Hsmall Hput) as (Hc & Hh & Hkeep & _).
  destruct (Hkeep b k' Hkey) as [Hkey' Hat'].
  assert (findBinForKey m' k' = Some b) as Hfind'.
  { apply (find_kept m); try done. intros c k0 Hk0. by apply Hkeep. }
  destruct (put_store_keeps m k v m' (Z.to_nat x) q Hput Hq)
    as (q' & Hq' & _ & Hsame).
  rewrite (Hsame ltac:(congruence)) in Hq'.
  assert (isBinEmpty m b = Some false) as He.
  { unfold isBinEmpty. case_decide; [|lia]. rewrite Hx. simpl.
    by rewrite bool_decide_eq_false_2. }
  assert (isBinEmpty m' b = Some false) as He'.
  { unfold isBinEmpty. case_decide; [|lia]. rewrite Hat', Hx. simpl.
    by rewrite bool_decide_eq_false_2. }
  unfold get, has. rewrite Hfind, Hfind'. simpl. rewrite He, He'. simpl.
  rewrite Hat', Hx. simpl. unfold DynamicArray.at_.
  case_decide; [|lia]. by rewrite Hq, Hq'.
Qed.

Lemma put_keys m k (v : V) m' :
  put m k v = Some m' ->
  (has m k = Some true /\ keys m' = keys m) \/
  (has m k = Some false /\ keys m' = keys m ++ [k]).
Proof.
  intros Hput.
  destruct (put_cases _ _ _ _ Hput)
    as (b & Hfind & [(He & bs & Hbs & Hb & ->)
                    |(He & r & q & Hr & Hrne & Hr0 & Hq & Hqk & ->)]).
  - right. split.
    + unfold has. by rewrite Hfind, He.
    + unfold keys. simpl. by rewrite fmap_app.
  - left. split.
    + unfold has. by rewrite Hfind, He.
    + unfold keys. simpl. rewrite list_fmap_insert. simpl.
      apply list_insert_id. by rewrite list_lookup_fmap, Hq, <- Hqk.
Qed.

Lemma put_MapWF m k (v : V) m' :
  MapWF m -> Z.of_nat (length (_pairs m)) < 2 ^ 32 - 1 ->
  put m k v = Some m' ->
  MapWF m'.
Proof.
  intros Hwf Hsmall Hput.
  pose proof Hwf as [[(bs & Hbs & Hlen) Hcap Hu Hsize] Hvalid Hlive Hfound].
  destruct (put_bins_keep m k v m' Hsmall Hput) as (Hc & Hh & Hkeep & Hnew).
  assert (forall b, findBinForKey m k = Some b ->
                    findBinForKey m' k = Some b) as Hfindk.
  { intros b Hb. apply (find_kept m); try done.
    - intros c k0 Hk0. by apply Hkeep.
    - by apply Hnew. }
  (* the pairs that were there are still found *)
  assert (forall (i : nat) p p', _pairs m !! i = Some p ->
            _pairs m' !! i = Some p' ->
            exists b, findBinForKey m' (key p') = Some b /\
                      bin_at m' b = Some (Z.of_nat i)) as Hold.
  { intros i p p' Hp Hp'.
    destruct (put_store_keeps m k v m' i p Hput Hp) as (p0 & Hp0 & Hk0 & _).
    assert (p0 = p') as -> by congruence.
    destruct (Hfound i p Hp) as (b & Hfind & Hb).
    pose proof (findBinForKey_range _ _ _ Hfind) as Hbr.
    pose proof (bin_key_of_index m b i p ltac:(lia) Hbr Hb Hp) as Hkey.
    destruct (Hkeep b (key p) Hkey) as [Hkey' Hat'].
    exists b. rewrite Hk0. split; [|congruence].
    apply (find_kept m); try done. intros c k0 Hc0. by apply Hkeep. }
  destruct (put_cases _ _ _ _ Hput)
    as (b & Hfind & [(He & bs0 & Hbs0 & Hb & Hm')
                    |(He & r & q & Hr & Hrne & Hr0 & Hq & Hqk & Hm')]).
  - assert (bs0 = bs) as -> by congruence.
    unfold DynamicArray.size in Hm'. rewrite uint32_small in Hm' by lia.
    assert (_pairs m' = _pairs m ++ [makePair k v]) as Hps by (by subst m').
    assert (_bins m' = Some (<[Z.to_nat b := Z.of_nat (length (_pairs m))]> bs))
      as Hbs' by (by subst m').
    assert (_binsInUse m' = uint32 (_binsInUse m + 1)) as Hu'
      by (by subst m').
    split.
    + split.
      * eexists. split; [done|]. rewrite length_insert. congruence.
      * by rewrite Hc.
      * rewrite Hu', Hps, length_app, Hu. simpl.
        rewrite uint32_small by lia. lia.
      * rewrite Hps, length_app. simpl. lia.
    + intros bs' Hbs''. rewrite Hbs' in Hbs''. injection Hbs'' as <-.
      rewrite Hps, length_app. simpl.
      apply Forall_insert; [|right; lia].
      eapply Forall_impl; [|exact (Hvalid bs Hbs)].
      simpl. intros x [?|?]; [by left|right; lia].
    + intros bs' Hbs''. rewrite Hbs' in Hbs''. injection Hbs'' as <-.
      rewrite Hps, length_app. simpl.
      pose proof (live_bins_insert_le bs (Z.to_nat b)
                    (Z.of_nat (length (_pairs m)))).
      pose proof (Hlive bs Hbs). lia.
    + intros i p' Hp'. rewrite Hps in Hp'.
      destruct (decide (i < length (_pairs m))%nat) as [Hi|Hi].
      * destruct (lookup_lt_is_Some_2 (_pairs m) i Hi) as [p Hp].
        apply (Hold i p p' Hp). by rewrite Hps.
      * pose proof (lookup_lt_Some _ _ _ Hp') as Hi'.
        rewrite length_app in Hi'. simpl in Hi'.
        assert (i = length (_pairs m)) as -> by lia.
        rewrite lookup_app_r, Nat.sub_diag in Hp' by lia.
        injection Hp' as <-. simpl.
        exists b. split; [by apply Hfindk|].
        unfold bin_at. rewrite Hbs'. case_decide; [|lia].
        apply list_lookup_insert_eq. lia.
  - pose proof (lookup_lt_Some _ _ _ Hq) as Hrlt.
    assert (_pairs m' = <[Z.to_nat r := makePair k v]> (_pairs m)) as Hps
      by (by subst m').
    assert (_bins m' = Some bs) as Hbs' by (by subst m').
    assert (_binsInUse m' = _binsInUse m) as Hu' by (by subst m').
    split.
    + split.
      * exists bs. split; [done|]. congruence.
      * by rewrite Hc.
      * by rewrite Hu', Hps, length_insert.
      * by rewrite Hps, length_insert.
    + intros bs' Hbs''. rewrite Hbs' in Hbs''. injection Hbs'' as <-.
      rewrite Hps, length_insert. by apply Hvalid.
    + intros bs' Hbs''. rewrite Hbs' in Hbs''. injection Hbs'' as <-.
      rewrite Hps, length_insert. by apply Hlive.
    + intros i p' Hp'.
      pose proof (lookup_lt_Some _ _ _ Hp') as Hi.
      rewrite Hps, length_insert in Hi.
      destruct (lookup_lt_is_Some_2 (_pairs m) i Hi) as [p Hp].
      by apply (Hold i p p' Hp).
Qed.

(** In a map in which every stored key is found, [put] changes no read
    but that of the key put. *)
Lemma put_get_others m k (v : V) m' k' :
  MapWF m -> Z.of_nat (length (_pairs m)) < 2 ^ 32 - 1 ->
  put m k v = Some m' -> k' <> k -> get m' k' = get m k'.
Proof.
  intros Hwf Hsmall Hput Hne.
  pose proof Hwf as [[_ _ _ Hsize] _ _ Hfound].
  destruct (decide (k' ∈ keys m)) as [Hin|Hout].
  - apply list_elem_of_fmap in Hin as (p & -> & [i Hp]%list_elem_of_lookup_1).
    destruct (found_get m i p Hsize Hfound Hp) as [_ Hhas].
    by destruct (put_keeps_get m k v m' (key p) Hsmall Hput Hne Hhas).
  - assert (k' ∉ keys m') as Hout'.
    { destruct (put_keys m k v m' Hput) as [[_ ->]|[_ ->]]; [done|].
      rewrite elem_of_app, list_elem_of_singleton. tauto. }
    rewrite !absent_get_None; [done| |].
    + intros p Hp <-. apply Hout. unfold keys. by apply list_elem_of_fmap_2.
    + intros p Hp <-. apply Hout'. unfold keys. by apply list_elem_of_fmap_2.
Qed.

(** [put] keeps the order of the store: the keys are those that were
    there, in the order they had, followed by the key put when it is
    new. *)
Theorem put_keys_order m k (v : V) m' :
  put m k v = Some m' ->
  (has m k = Some true /\ keys m' = keys m) \/
  (has m k = Some false /\ keys m' = keys m ++ [k]).
Proof.
  intros Hput.
  destruct (put_keys m k v m' Hput) as [[Hhas Hkeys]|[Hhas Hkeys]];
    [left|right]; by split.
Qed.

(** [put] leaves the other mappings alone: a key other than the one put
    that had a mapping still has it, with the same value. *)
Theorem put_keeps_mappings m k (v : V) m' k' :
  Z.of_nat (length (_pairs m)) < 2 ^ 32 - 1 ->
  put m k v = Some m' -> k' <> k -> has m k' = Some true ->
  get m' k' = get m k' /\ has m' k' = Some true.
Proof.
  intros Hsmall Hput Hne Hhas.
  destruct (put_keeps_get m k v m' k' Hsmall Hput Hne Hhas) as [Hget Hhas'].
  by split.
Qed.

(** [put] keeps a map in which every stored key is found in that state,
    and with it the invariant of the data model. *)
Theorem put_preserves_MapWF m k (v : V) m' :
  MapWF m -> Z.of_nat (length (_pairs m)) < 2 ^ 32 - 1 ->
  put m k v = Some m' ->
  MapWF m' /\ MapInv m'.
Proof.
  intros Hwf Hsmall Hput.
  pose proof (put_MapWF m k v m' Hwf Hsmall Hput) as Hwf'.
  split; [done|]. by apply MapWF_MapInv.
Qed.

(** In a map in which every stored key is found, each pair of the store
    is read back under its key, and no two pairs have the same key. *)
Theorem MapWF_get_stored m p :
  MapWF m -> p ∈ _pairs m ->
  get m (key p) = Some (value p) /\ has m (key p) = Some true /\
  NoDup (keys m).
Proof.
  intros [[_ _ _ Hsize] _ _ Hfound] [i Hp]%list_elem_of_lookup_1.
  destruct (found_get m i p Hsize Hfound Hp) as [Hget Hhas].
  split; [done|]. split; [done|]. by apply found_NoDup_keys.
Qed.

End PutTheorems.

(** ** Growing and shrinking *)

Section Rehash.

Context {K V : Type} `{EqDecision K}.

Implicit Types (m : Map K V) (k : K) (bs : list Z).

(** A rehash of a map in which every stored key is found gives such a
    map again. *)
Lemma rehash_inv_MapWF m (N j : Z) m' :
  MapWF m -> 5 <= j <= 31 -> N = 2 ^ j ->
  rehash_inv m N (length (_pairs m)) m' ->
  MapWF m' /\ _pairs m' = _pairs m /\ _binCount m' = N.
Proof.
  intros Hwf Hj HN
    (Hps & Hhf & Hu1 & Hc & (bs & Hbs & Hlen & Hvalid & Hlive) & Hfound').
  pose proof Hwf as [[_ _ Hu Hsize] _ _ Hfound].
  split; [|done]. split.
  - split.
    + exists bs. split; [done|]. congruence.
    + exists j. split; [done|]. congruence.
    + by rewrite Hu1, Hps.
    + by rewrite Hps.
  - intros bs' Hbs'. rewrite Hps. congruence.
  - intros bs' Hbs'. rewrite Hps. congruence.
  - intros i p Hp. rewrite Hps in Hp.
    pose proof (lookup_lt_Some _ _ _ Hp) as Hi.
    destruct (Hfound' i p Hi Hp) as (b & Hfind & Hkey).
    exists b. split; [done|].
    destruct (bin_key_pair _ _ _ Hkey) as (x & q & Hx & _ & Hx0 & Hq & Hqk).
    rewrite Hx. do 2 f_equal. rewrite Hps in Hq.
    pose proof (found_NoDup_keys m Hfound) as Hnd.
    rewrite NoDup_alt in Hnd.
    assert (Z.to_nat x = i) as <-; [|lia].
    apply (Hnd _ _ (key p)); unfold keys; rewrite list_lookup_fmap.
    + by rewrite Hq, <- Hqk.
    + by rewrite Hp.
Qed.

(** Two maps in which every stored key is found and which have the same
    store give the same reads. *)
Lemma MapWF_get_eq m m' k :
  MapWF m -> MapWF m' -> _pairs m' = _pairs m -> get m' k = get m k.
Proof.
  intros [[_ _ _ Hsize] _ _ Hfound] [[_ _ _ Hsize'] _ _ Hfound'] Hps.
  destruct (decide (k ∈ keys m)) as [Hin|Hout].
  - apply list_elem_of_fmap in Hin as (p & -> & [i Hp]%list_elem_of_lookup_1).
    destruct (found_get m i p Hsize Hfound Hp) as [-> _].
    rewrite <- Hps in Hp.
    by destruct (found_get m' i p Hsize' Hfound' Hp) as [-> _].
  - assert (forall p, p ∈ _pairs m -> key p <> k) as Habsent.
    { intros p Hp <-. apply Hout. unfold keys. by apply list_elem_of_fmap_2. }
    rewrite (absent_get_None m k Habsent).
    apply absent_get_None. by rewrite Hps.
Qed.

Lemma grow_MapWF m :
  MapWF m -> shouldGrow m = Some true ->
  exists m', grow m = Some m' /\ MapWF m' /\
             _binCount m' = 2 * _binCount m /\ _pairs m' = _pairs m.
Proof.
  intros Hwf Hgrow.
  pose proof (MapInv_size_le m (MapWF_MapInv m Hwf)) as Hle.
  pose proof Hwf as [[(bs & Hbs & Hlen) (j & Hj & Hc) Hu Hsize] _ _ _].
  assert (0 < 2 ^ j) as Hpos by (apply Z.pow_pos_nonneg; lia).
  destruct (shouldGrow_doubles m j Hgrow Hj Hc) as [Hlt Hdouble].
  assert (2 * _binCount m = 2 ^ (j + 1)) as Hnew.
  { rewrite Hc, Z.pow_add_r by lia. lia. }
  destruct (resize_ok m (2 ^ (j + 1)) (j + 1)) as (m1 & Hm1 & Hinv1);
    [by rewrite Hbs | lia | done | lia |].
  destruct (rehash_inv_MapWF m (2 ^ (j + 1)) (j + 1) m1)
    as (Hwf1 & Hps1 & Hc1); try done; [lia|].
  exists m1. split; [|split; [done|split; [lia|done]]].
  unfold grow. by rewrite Hdouble, Hnew.
Qed.

Lemma shrink_MapWF m m' :
  MapWF m -> shouldShrink m = Some true -> shrink m = Some m' ->
  MapWF m' /\ _binCount m' = _binCount m / 2 /\ _pairs m' = _pairs m.
Proof.
  intros Hwf Hs Hshrink.
  pose proof Hwf as [[(bs & Hbs & Hlen) (j & Hj & Hc) Hu Hsize] _ _ _].
  pose proof Hs as (_ & _ & Hgt)%shouldShrink_true. unfold MIN_BINS in Hgt.
  assert (5 < j) as Hj5.
  { destruct (decide (j = 5)) as [->|]; [rewrite Hc in Hgt; lia|lia]. }
  assert (Z.shiftr (_binCount m) 1 = 2 ^ (j - 1)) as Hhalf
    by (rewrite Hc; apply shiftr_1_pow2; lia).
  assert (0 < 2 ^ (j - 1)) as Hpos by (apply Z.pow_pos_nonneg; lia).
  unfold shrink in Hshrink. rewrite Hhalf in Hshrink.
  apply resize_inv in Hshrink as Hinv; [|lia|done].
  destruct (rehash_inv_MapWF m (2 ^ (j - 1)) (j - 1) m')
    as (Hwf' & Hps' & Hc'); try done; [lia|].
  split; [done|]. split; [|done].
  rewrite Hc', <- Hhalf. rewrite Z.shiftr_div_pow2 by lia. done.
Qed.

(** [grow()], called when the load has reached the threshold, returns:
    the table has twice the bins, the store is untouched, every stored
    key is found again, and every read gives what it gave. *)
Theorem grow_keeps_mappings m :
  MapWF m -> shouldGrow m = Some true ->
  exists m', grow m = Some m' /\
    MapWF m' /\ MapInv m' /\
    _binCount m' = 2 * _binCount m /\ _pairs m' = _pairs m /\
    forall k, get m' k = get m k.
Proof.
  intros Hwf Hgrow.
  destruct (grow_MapWF m Hwf Hgrow) as (m' & Hrun & Hwf' & Hc & Hps).
  exists m'. split_and!; try done.
  - by apply MapWF_MapInv.
  - intros k. by apply MapWF_get_eq.
Qed.

(** [shrink()], called when the shrink check holds: a call that returns
    has halved the table, left the store untouched and lost no mapping;
    the call returns whenever the 32-bit product [_binsInUse * 100] of
    the check is the product of the integers. *)
Theorem shrink_keeps_mappings m :
  MapWF m -> shouldShrink m = Some true ->
  (forall m', shrink m = Some m' ->
     MapWF m' /\ MapInv m' /\
     _binCount m' = _binCount m / 2 /\ 32 <= _binCount m' /\
     _pairs m' = _pairs m /\
     forall k, get m' k = get m k) /\
  (_binsInUse m * 100 < 2 ^ 32 -> is_Some (shrink m)).
Proof.
  intros Hwf Hs. split.
  - intros m' Hshrink.
    destruct (shrink_MapWF m m' Hwf Hs Hshrink) as (Hwf' & Hc & Hps).
    split_and!; try done.
    + by apply MapWF_MapInv.
    + destruct Hwf' as [[_ (j & Hj & Hc') _ _] _ _ _]. rewrite Hc'.
      assert (2 ^ 5 <= 2 ^ j) by (apply Z.pow_le_mono_r; lia).
      pow_consts. lia.
    + intros k. by apply MapWF_get_eq.
  - intros Hsmall.
    pose proof Hwf as [[(bs & Hbs & Hlen) (j & Hj & Hc) Hu Hsize] _ _ _].
    destruct (shrink_room m j (length (_pairs m)) Hs Hj Hc Hu Hsmall)
      as (Hj5 & Hhalf & Hroom).
    destruct (resize_ok m (2 ^ (j - 1)) (j - 1)) as (m1 & Hm1 & _);
      [by rewrite Hbs | lia | done | lia |].
    exists m1. unfold shrink. by rewrite Hhalf.
Qed.

End Rehash.

(** ** Removing a key that is not there *)

Section RemoveAbsent.

Context {K V : Type} `{EqDecision K}.

Implicit Types (m : Map K V) (k : K) (bs : list Z).



End RemoveAbsent.

(** ** The write-or-create [operator[]] on any key *)

Section IndexAny.

Context {K V : Type} `{EqDecision K}.

Implicit Types (m : Map K V) (k : K) (bs : list Z).

Lemma bin_key_in_use m (b : Z) k :
  bin_key m b = Some (Some k) -> isBinEmpty m b = Some false.
Proof.
  unfold bin_key. by destruct (isBinEmpty m b) as [[|]|].
Qed.

(** The part of [operator[]] after the growth check either finds the
    key and leaves the map alone, or does what [put] does with the
    object its local holds; the reference it returns designates the
    value of the pair the bin of the key refers to. *)
Lemma index_after_check_cases (value_ : V) m k m' (v : V) :
  index_after_check value_ m k = Some (m', v) ->
  exists b, findBinForKey m k = Some b /\
    (isBinEmpty m b = Some false /\ m' = m \/
     isBinEmpty m b = Some true /\ put m k value_ = Some m') /\
    exists (x : Z) p, bin_at m' b = Some x /\
      DynamicArray.at_ (_pairs m') x = Some p /\ v = value p.
Proof.
  unfold index_after_check, put.
  destruct (findBinForKey m k) as [b|] eqn:Hfind; [|done]. simpl.
  intros Hrun. exists b. split; [done|]. revert Hrun.
  destruct (isBinEmpty m b) as [[|]|] eqn:He; [| |done]; simpl.
  - destruct (bin_store _ _ _) as [stored|] eqn:Hst; [|done]. simpl.
    destruct (bin_at _ b) as [x|] eqn:Hx; [|done]. simpl.
    destruct (DynamicArray.at_ _ x) as [p|] eqn:Hp; [|done]. simpl.
    intros [= <- <-]. split; [by right|]. by exists x, p.
  - destruct (bin_at m b) as [x|] eqn:Hx; [|done]. simpl.
    destruct (DynamicArray.at_ _ x) as [p|] eqn:Hp; [|done]. simpl.
    intros [= <- <-]. split; [by left|]. by exists x, p.
Qed.

(** The map [operator[]] looks the key up in has the store of the map
    it was called on. *)
Lemma index_checked (value_ : V) m k m' (v : V) :
  index value_ m k = Some (m', v) ->
  exists m1, _pairs m1 = _pairs m /\
             index_after_check value_ m1 k = Some (m', v).
Proof.
  rewrite index_unfold.
  destruct (shouldGrow m) as [[|]|]; [| |done].
  - destruct (grow m) as [m1|] eqn:Hgrow; [|done]. intros Hrun.
    apply resize_fields in Hgrow as (Hps & _). by exists m1.
  - intros Hrun. by exists m.
Qed.

(** What [operator[]] returns a reference to is what a read of the key
    returns afterwards. *)
Theorem index_then_get (value_ : V) m k m' (v : V) :
  Z.of_nat (length (_pairs m)) < 2 ^ 32 - 1 ->
  index value_ m k = Some (m', v) ->
  get m' k = Some v /\ has m' k = Some true.
Proof.
  intros Hsmall Hrun.
  destruct (index_checked _ _ _ _ _ Hrun) as (m1 & Hps & Htail).
  destruct (index_after_check_cases _ _ _ _ _ Htail)
    as (b & Hfind & Hcase & x & p & Hx & Hp & ->).
  assert (findBinForKey m' k = Some b /\ isBinEmpty m' b = Some false)
    as [Hfind' He'].
  { destruct Hcase as [[He ->]|[He Hput]]; [done|].
    rewrite <- Hps in Hsmall.
    destruct (put_bins_keep m1 k value_ m' Hsmall Hput)
      as (Hc & Hh & Hkeep & Hnew).
    pose proof (Hnew b Hfind) as Hkey.
    split; [|by eapply bin_key_in_use].
    apply (find_kept m1); try done. intros c k0 Hk0. by apply Hkeep. }
  unfold get, has. rewrite Hfind'. simpl. rewrite He'. simpl.
  by rewrite Hx, Hp.
Qed.

(** [operator[]] on a key that no pair of the store has appends one
    pair with that key, and returns a reference to the value of that
    pair: looking a key up this way gives it a mapping.  The value is
    the object the declaration [V value;] of the call made, whatever
    that is: nothing initialises it when [V] is a scalar type. *)
Theorem index_creates_default (value_ : V) m k m' (v : V) :
  (forall p, p ∈ _pairs m -> key p <> k) ->
  Z.of_nat (length (_pairs m)) < 2 ^ 32 - 1 ->
  index value_ m k = Some (m', v) ->
  v = value_ /\
  _pairs m' = _pairs m ++ [makePair k v] /\
  size m' = size m + 1.
Proof.
  intros Habsent Hsmall Hrun.
  destruct (index_checked _ _ _ _ _ Hrun) as (m1 & Hps & Htail).
  destruct (index_after_check_cases _ _ _ _ _ Htail)
    as (b & Hfind & Hcase & x & p & Hx & Hp & ->).
  rewrite <- Hps in Habsent, Hsmall.
  pose proof (absent_bin_empty m1 k b Habsent Hfind) as He.
  destruct Hcase as [[He' _]|[_ Hput]]; [congruence|].
  destruct (put_cases _ _ _ _ Hput)
    as (b' & Hfind' & [(_ & bs & Hbs & Hb & ->)|(He' & _)]);
    [|congruence].
  assert (b' = b) as -> by congruence.
  unfold DynamicArray.size in *. rewrite uint32_small in Hx by lia.
  unfold bin_at in Hx. simpl in Hx. case_decide; [|lia].
  rewrite list_lookup_insert_eq in Hx by lia. injection Hx as <-.
  simpl in Hp. unfold DynamicArray.at_ in Hp. case_decide; [|lia].
  rewrite Nat2Z.id, lookup_app_r, Nat.sub_diag in Hp by lia.
  injection Hp as <-. simpl. rewrite <- Hps. split; [done|]. split; [done|].
  unfold size, DynamicArray.size. simpl. rewrite length_app, <- Hps. simpl.
  rewrite !uint32_small by lia. lia.
Qed.

End IndexAny.

(** ** Insertion through [operator[]] *)

Section Assign.

Context {K V : Type} `{EqDecision K}.

Implicit Types (m : Map K V) (k : K) (bs : list Z).

(** While the growth check fails, less than 70 percent of the bins are
    in use. *)
Lemma shouldGrow_false_room m :
  shouldGrow m = Some false -> 32 <= _binCount m ->
  0 <= _binsInUse m -> _binsInUse m * 100 < 2 ^ 32 ->
  _binsInUse m + 3 <= _binCount m.
Proof.
  unfold shouldGrow, GROW_THRESHOLD. case_decide; [done|].
  intros [= Hg%bool_decide_eq_false] Hc Hu Hsmall.
  rewrite uint32_small in Hg by lia.
  pose proof (Z.div_mod (_binsInUse m * 100) (_binCount m) ltac:(lia)) as Hdm.
  pose proof (Z.mod_pos_bound (_binsInUse m * 100) (_binCount m) ltac:(lia))
    as Hmod.
  nia.
Qed.

(** The map [operator[]] looks the key up in, when it is called on a
    map in which every stored key is found. *)
Lemma grow_check_MapWF m :
  MapWF m -> Z.of_nat (length (_pairs m)) + 2 <= _binCount m ->
  exists g m1,
    shouldGrow m = Some g /\
    (if g : bool then grow m else Some m) = Some m1 /\
    MapWF m1 /\ _pairs m1 = _pairs m /\ _binCount m <= _binCount m1 /\
    (_binsInUse m * 100 < 2 ^ 32 ->
     Z.of_nat (length (_pairs m)) + 3 <= _binCount m1).
Proof.
  intros Hwf Hroom.
  pose proof Hwf as [[_ (j & Hj & Hc) Hu Hsize] _ _ _].
  assert (2 ^ 5 <= 2 ^ j) as Hfloor by (apply Z.pow_le_mono_r; lia).
  assert (32 <= _binCount m) as H32 by (pow_consts; lia).
  destruct (shouldGrow m) as [[|]|] eqn:Hg.
  - destruct (grow_MapWF m Hwf Hg) as (m1 & Hrun & Hwf1 & Hc1 & Hps1).
    exists true, m1. split_and!; try done; lia.
  - exists false, m. split_and!; try done.
    intros Hsmall. rewrite <- Hu.
    apply shouldGrow_false_room; try done; lia.
  - unfold shouldGrow in Hg. case_decide; [lia|done].
Qed.

(** [operator[]] on a map in which every stored key is found and two
    bins are free: the call returns, the map is in that state again,
    the store has gained a pair holding the local of the call when the
    key was new and is untouched otherwise, and no other key reads
    differently. *)
Lemma index_MapWF (value_ : V) m k :
  MapWF m -> Z.of_nat (length (_pairs m)) + 2 <= _binCount m ->
  exists m' (v : V),
    index value_ m k = Some (m', v) /\ MapWF m' /\
    _pairs m' = (if decide (k ∈ keys m) then _pairs m
                 else _pairs m ++ [makePair k value_]) /\
    _binCount m <= _binCount m' /\
    (_binsInUse m * 100 < 2 ^ 32 ->
     Z.of_nat (length (_pairs m)) + 3 <= _binCount m') /\
    (forall k', k' <> k -> get m' k' = get m k').
Proof.
  intros Hwf Hroom.
  destruct (grow_check_MapWF m Hwf Hroom)
    as (g & m1 & Hg & Hm1 & Hwf1 & Hps1 & Hc1 & Hroom1).
  pose proof Hwf1 as [[(bs & Hbs & Hlen) (j & Hj & Hc) Hu Hsize]
                        Hvalid Hlive Hfound].
  assert (0 < 2 ^ j) as Hpos by (apply Z.pow_pos_nonneg; lia).
  assert (2 ^ j <= 2 ^ 31) by (apply Z.pow_le_mono_r; lia).
  assert (Z.of_nat (length (_pairs m1)) < 2 ^ 32 - 1) as Hsmall1
    by (rewrite Hps1; pow_consts; lia).
  (* the lookup returns *)
  destruct (live_bins_room bs) as (e & He1 & He).
  { pose proof (Hlive bs Hbs). rewrite Hps1 in *. lia. }
  destruct (findBinForKey_total m1 k j (Z.of_nat e)) as [b Hb];
    [lia | done | | lia | |].
  { intros c Hc'.
    apply (stops_defined m1 bs k (Z.of_nat (length (_pairs m1))));
      [done | done | by apply Hvalid | lia | done]. }
  { by rewrite (isBinEmpty_lookup m1 bs e BIN_EMPTY). }
  pose proof (findBinForKey_sound _ _ _ Hb) as Hstop.
  pose proof (findBinForKey_range _ _ _ Hb) as Hbr.
  assert (forall k', get m1 k' = get m k') as Hsame
    by (intros k'; by apply MapWF_get_eq).
  assert (keys m1 = keys m) as Hkeys by (unfold keys; by rewrite Hps1).
  rewrite index_unfold, Hg, Hm1. unfold index_after_check. rewrite Hb.
  destruct (stops_true_bin_key _ _ _ Hstop) as [Hk|Hk].
  - (* the key is new *)
    apply bin_key_empty in Hk as He'. rewrite He'.
    assert (k ∉ keys m) as Hout.
    { rewrite <- Hkeys.
      intros (p & -> & [i Hp]%list_elem_of_lookup_1)%list_elem_of_fmap.
      destruct (Hfound i p Hp) as (b' & Hb' & Hat).
      assert (b' = b) as -> by congruence.
      unfold isBinEmpty in He'. case_decide; [|done].
      rewrite Hat in He'. simpl in He'. injection He' as He'.
      apply bool_decide_eq_true in He'.
      pose proof (lookup_lt_Some _ _ _ Hp).
      rewrite BIN_EMPTY_val in He'. pow_consts. lia. }
    assert (put m1 k value_
            = Some (mkMap (_pairs m1 ++ [makePair k value_]) (_hashFunc m1)
                      (Some (<[Z.to_nat b := Z.of_nat (length (_pairs m1))]> bs))
                      (uint32 (_binsInUse m1 + 1)) (_binCount m1))) as Hput.
    { unfold put. rewrite Hb, He'.
      rewrite (bin_store_ok _ bs) by (done || lia).
      unfold DynamicArray.size.
      by rewrite (uint32_small (Z.of_nat (length (_pairs m1)))) by lia. }
    rewrite (bin_store_ok _ bs) by (done || lia).
    unfold DynamicArray.size, DynamicArray.push.
    unfold with_pairs, with_bins, with_binsInUse.
    cbn [_pairs _hashFunc _bins _binsInUse _binCount].
    rewrite (uint32_small (Z.of_nat (length (_pairs m1)))) by lia.
    set (m' := mkMap _ _ _ _ _) in *.
    assert (bin_at m' b = Some (Z.of_nat (length (_pairs m1)))) as ->.
    { unfold bin_at. simpl. case_decide; [|lia].
      apply list_lookup_insert_eq. lia. }
    assert (DynamicArray.at_ (_pairs m1 ++ [makePair k value_])
              (Z.of_nat (length (_pairs m1)))
            = Some (makePair k value_)) as ->.
    { unfold DynamicArray.at_. case_decide; [|lia].
      by rewrite Nat2Z.id, lookup_app_r, Nat.sub_diag by lia. }
    exists m', value_. split; [done|].
    split; [by apply (put_MapWF m1 k value_)|].
    split; [by rewrite decide_False, <- Hps1 by done|].
    split; [done|]. split; [done|].
    intros k' Hne. rewrite <- Hsame.
    by apply (put_get_others m1 k value_).
  - (* the key is there *)
    rewrite (bin_key_in_use _ _ _ Hk).
    destruct (bin_key_pair _ _ _ Hk) as (x & q & Hx & Hxne & Hx0 & Hq & Hqk).
    rewrite Hx. unfold DynamicArray.at_. case_decide; [|lia]. rewrite Hq.
    exists m1, (value q). split; [done|]. split; [done|].
    split.
    { rewrite decide_True, Hps1; [done|]. rewrite <- Hkeys, <- Hqk.
      unfold keys. apply list_elem_of_fmap_2.
      by eapply list_elem_of_lookup_2. }
    split; [done|]. split; [done|]. intros k' _. apply Hsame.
Qed.

(** [index_ref] is [operator[]] with the place of the value. *)
Lemma index_ref_agrees (value_ : V) m k :
  index value_ m k =
  let? (after, b) := index_ref value_ m k in
  let? p := DynamicArray.at_ (_pairs after) b in
  Some (after, value p).
Proof.
  unfold index, index_ref.
  destruct (shouldGrow m) as [g|]; [|done]. simpl.
  destruct (if g then grow m else Some m) as [grown|]; [|done]. simpl.
  destruct (findBinForKey grown k) as [binIndex|]; [|done]. simpl.
  destruct (isBinEmpty grown binIndex) as [e|]; [|done]. simpl.
  match goal with
  | |- context [if e then ?a else ?b] =>
      destruct (if e then a else b) as [after|]; [|done]
  end.
  simpl. destruct (bin_at after binIndex) as [b|]; [|done]. simpl.
  destruct (DynamicArray.at_ (_pairs after) b) eqn:Hp; [|done].
  simpl. by rewrite Hp.
Qed.

Lemma index_ref_cases (value_ : V) m k m' (r : Z) :
  index_ref value_ m k = Some (m', r) ->
  exists m1 (b : Z) p,
    _pairs m1 = _pairs m /\ findBinForKey m1 k = Some b /\
    (isBinEmpty m1 b = Some false /\ m' = m1 \/
     isBinEmpty m1 b = Some true /\ put m1 k value_ = Some m') /\
    bin_at m' b = Some r /\ DynamicArray.at_ (_pairs m') r = Some p.
Proof.
  unfold index_ref, put.
  destruct (shouldGrow m) as [g|]; [|done]. simpl.
  destruct (if g then grow m else Some m) as [m1|] eqn:Hm1; [|done]. simpl.
  assert (_pairs m1 = _pairs m) as Hps.
  { destruct g; [|by injection Hm1 as <-].
    by apply resize_fields in Hm1 as (? & _). }
  destruct (findBinForKey m1 k) as [b|] eqn:Hfind; [|done]. simpl.
  intros Hrun. exists m1, b. revert Hrun.
  destruct (isBinEmpty m1 b) as [[|]|] eqn:He; [| |done]; simpl.
  - destruct (bin_store _ _ _) as [stored|] eqn:Hst; [|done]. simpl.
    destruct (bin_at _ b) as [x|] eqn:Hx; [|done]. simpl.
    destruct (DynamicArray.at_ _ x) as [p|] eqn:Hp; [|done]. simpl.
    intros [= <- <-]. exists p. split_and!; try done.
    right. split; [done|]. rewrite Hfind. simpl. by rewrite He, Hst.
  - destruct (bin_at m1 b) as [x|] eqn:Hx; [|done]. simpl.
    destruct (DynamicArray.at_ _ x) as [p|] eqn:Hp; [|done]. simpl.
    intros [= <- <-]. exists p. split_and!; try done. by left.
Qed.

(** The reference [operator[]] returns designates the value of the pair
    a lookup of the key arrives at. *)
Lemma index_ref_location (value_ : V) m k m' (r : Z) :
  Z.of_nat (length (_pairs m)) < 2 ^ 32 - 1 ->
  index_ref value_ m k = Some (m', r) ->
  exists (b : Z) p,
    findBinForKey m' k = Some b /\ isBinEmpty m' b = Some false /\
    bin_at m' b = Some r /\ 0 <= r /\
    _pairs m' !! Z.to_nat r = Some p /\ key p = k.
Proof.
  intros Hsmall Hrun.
  destruct (index_ref_cases _ _ _ _ _ Hrun)
    as (m1 & b & p & Hps & Hfind & Hcase & Hr & Hp).
  assert (findBinForKey m' k = Some b /\ bin_key m' b = Some (Some k))
    as [Hfind' Hkey].
  { destruct Hcase as [[He ->]|[He Hput]].
    - split; [done|].
      destruct (stops_true_bin_key _ _ _ (findBinForKey_sound _ _ _ Hfind))
        as [Hk|Hk]; [apply bin_key_empty in Hk; congruence|done].
    - rewrite <- Hps in Hsmall.
      destruct (put_bins_keep m1 k value_ m' Hsmall Hput)
        as (Hc & Hh & Hkeep & Hnew).
      pose proof (Hnew b Hfind) as Hkey. split; [|done].
      apply (find_kept m1); try done. intros c k0 Hk0. by apply Hkeep. }
  exists b, p. split; [done|]. split; [by eapply bin_key_in_use|].
  split; [done|].
  destruct (bin_key_pair _ _ _ Hkey) as (x & q & Hx & _ & Hx0 & Hq & Hqk).
  assert (x = r) as -> by congruence.
  unfold DynamicArray.at_ in Hp. case_decide; [|done].
  split; [done|]. split; [done|]. congruence.
Qed.

(** [map[key] = value] does what [put] does after [operator[]]. *)
Lemma index_assign_put (value_ : V) m k (v : V) m' (r : Z) :
  Z.of_nat (length (_pairs m)) < 2 ^ 32 - 1 ->
  index_ref value_ m k = Some (m', r) ->
  index_assign value_ m k v
  = Some (with_pairs m' (<[Z.to_nat r := makePair k v]> (_pairs m'))) /\
  put m' k v
  = Some (with_pairs m' (<[Z.to_nat r := makePair k v]> (_pairs m'))).
Proof.
  intros Hsmall Hrun.
  destruct (index_ref_location _ _ _ _ _ Hsmall Hrun)
    as (b & p & Hfind & He & Hr & Hr0 & Hp & Hpk).
  split.
  - unfold index_assign. rewrite Hrun. unfold DynamicArray.at_.
    case_decide; [|lia]. by rewrite Hp, Hpk.
  - unfold put. rewrite Hfind. simpl. rewrite He. simpl. rewrite Hr. simpl.
    unfold DynamicArray.assign, DynamicArray.at_.
    case_decide; [|lia]. by rewrite Hp.
Qed.

(** *** The association list the store is *)

Lemma alist_assign_absent (l : list (Pair K V)) k (v : V) :
  k ∉ key <$> l -> alist_assign l k v = l ++ [makePair k v].
Proof.
  induction l as [|p l IH]; [done|]. simpl.
  intros [Hp Hl]%not_elem_of_cons. case_decide; [congruence|].
  by rewrite IH.
Qed.

Lemma alist_assign_insert (l : list (Pair K V)) : forall (r : nat) p k (v : V),
  NoDup (key <$> l) -> l !! r = Some p -> key p = k ->
  alist_assign l k v = <[r := makePair k v]> l.
Proof.
  induction l as [|q l IH]; intros r p k v Hnd Hr Hk; [done|].
  simpl in *. apply list.NoDup_cons in Hnd as [Hq Hnd].
  destruct r as [|r]; simpl in *.
  - injection Hr as ->. by rewrite decide_True.
  - case_decide as Hqk.
    + exfalso. apply Hq. rewrite Hqk, <- Hk.
      apply list_elem_of_fmap_2. by eapply list_elem_of_lookup_2.
    + f_equal. by eapply IH.
Qed.

Lemma alist_assign_length (l : list (Pair K V)) k (v : V) :
  (length l <= length (alist_assign l k v) <= S (length l))%nat.
Proof.
  induction l as [|p l IH]; simpl; [lia|]. case_decide; simpl; lia.
Qed.

(** In a map in which every stored key is found, a read gives what the
    store, read as an association list, gives. *)
Lemma MapWF_get_alist m k : MapWF m -> get m k = alist_get (_pairs m) k.
Proof.
  intros [[_ _ _ Hsize] _ _ Hfound].
  pose proof (found_NoDup_keys m Hfound) as Hnd.
  assert (forall (l : list (Pair K V)) p, NoDup (key <$> l) -> p ∈ l ->
            alist_get l (key p) = Some (value p)) as Hfirst.
  { induction l as [|q l IH]; intros p Hl Hp; [by apply elem_of_nil in Hp|].
    simpl in *. apply list.NoDup_cons in Hl as [Hq Hl].
    apply elem_of_cons in Hp as [->|Hp]; [by rewrite decide_True|].
    case_decide as Hqp; [|by apply IH].
    exfalso. apply Hq. rewrite Hqp. by apply list_elem_of_fmap_2. }
  assert (forall l : list (Pair K V), k ∉ key <$> l -> alist_get l k = None)
    as Hnone.
  { induction l as [|q l IH]; [done|]. simpl.
    intros [Hq Hl]%not_elem_of_cons. case_decide; [congruence|by apply IH]. }
  destruct (decide (k ∈ keys m)) as [Hin|Hout].
  - apply list_elem_of_fmap in Hin as (p & -> & Hin).
    pose proof Hin as [i Hp]%list_elem_of_lookup_1.
    destruct (found_get m i p Hsize Hfound Hp) as [-> _].
    symmetry. by apply Hfirst.
  - rewrite (Hnone _ Hout). apply absent_get_None.
    intros p Hp <-. apply Hout. unfold keys. by apply list_elem_of_fmap_2.
Qed.

Lemma index_assign_MapWF (value_ : V) m k (v : V) :
  MapWF m -> Z.of_nat (length (_pairs m)) + 2 <= _binCount m ->
  exists m',
    index_assign value_ m k v = Some m' /\ MapWF m' /\
    _pairs m' = alist_assign (_pairs m) k v /\
    (forall k', k' <> k -> get m' k' = get m k') /\
    _binCount m <= _binCount m' /\
    (_binsInUse m * 100 < 2 ^ 32 ->
     Z.of_nat (length (_pairs m')) + 2 <= _binCount m').
Proof.
  intros Hwf Hroom.
  pose proof Hwf as [[_ (j & Hj & Hc) _ _] _ _ Hfound].
  assert (2 ^ j <= 2 ^ 31) by (apply Z.pow_le_mono_r; lia).
  assert (Z.of_nat (length (_pairs m)) < 2 ^ 32 - 1) as Hsmall
    by (pow_consts; lia).
  destruct (index_MapWF value_ m k Hwf Hroom)
    as (m1 & v0 & Hrun & Hwf1 & Hps1 & Hc1 & Hroom1 & Hothers).
  assert (exists r, index_ref value_ m k = Some (m1, r)) as [r Href].
  { rewrite index_ref_agrees in Hrun.
    destruct (index_ref value_ m k) as [[after r]|]; [|done]. simpl in Hrun.
    destruct (DynamicArray.at_ (_pairs after) r); [|done].
    injection Hrun as -> _. by exists r. }
  destruct (index_ref_location _ _ _ _ _ Hsmall Href)
    as (b & p & Hfind & He & Hr & Hr0 & Hp & Hpk).
  destruct (index_assign_put value_ m k v m1 r Hsmall Href) as [Hassign Hput].
  assert (Z.of_nat (length (_pairs m1)) < 2 ^ 32 - 1) as Hsmall1.
  { rewrite Hps1. case_decide; [done|]. rewrite length_app. simpl.
    pow_consts. lia. }
  pose proof (put_MapWF m1 k v _ Hwf1 Hsmall1 Hput) as Hwf'.
  eexists. split; [exact Hassign|]. split; [done|]. simpl.
  pose proof (lookup_lt_Some _ _ _ Hp) as Hrlt.
  split; [|split; [|split; [done|]]].
  - pose proof Hwf1 as [_ _ _ Hfound1].
    rewrite <- (alist_assign_insert (_pairs m1) (Z.to_nat r) p k v);
      [|by apply (found_NoDup_keys m1)|done|done].
    rewrite Hps1. case_decide as Hin; [done|].
    revert Hin. unfold keys. generalize (_pairs m). clear.
    induction l as [|q l IH]; simpl.
    + intros _. by rewrite decide_True.
    + intros [Hq Hl]%not_elem_of_cons. case_decide; [congruence|].
      by rewrite IH.
  - intros k' Hne. rewrite <- (Hothers k' Hne).
    by apply (put_get_others m1 k v).
  - intros Hno. rewrite length_insert. specialize (Hroom1 Hno).
    rewrite Hps1. case_decide; [lia|]. rewrite length_app. simpl. lia.
Qed.

(** The statement [map[key] = value] on a map in which every stored key
    is found and two bins are free: it returns, the store is the one an
    insertion-ordered association list would be, the key reads as the
    value assigned, no other key reads differently, and two bins are
    free again as long as the product [_binsInUse * 100] fits 32 bits. *)
Theorem index_assign_correct (value_ : V) m k (v : V) :
  MapWF m -> size m + 2 <= _binCount m ->
  exists m',
    index_assign value_ m k v = Some m' /\ MapWF m' /\ MapInv m' /\
    _pairs m' = alist_assign (_pairs m) k v /\
    get m' k = Some v /\
    (forall k', k' <> k -> get m' k' = get m k') /\
    (_binsInUse m * 100 < 2 ^ 32 -> size m' + 2 <= _binCount m').
Proof.
  intros Hwf Hroom.
  pose proof Hwf as [[_ _ _ Hsize] _ _ _].
  unfold size, DynamicArray.size in Hroom.
  rewrite uint32_small in Hroom by lia.
  destruct (index_assign_MapWF value_ m k v Hwf Hroom)
    as (m' & Hrun & Hwf' & Hps & Hothers & Hc & Hroom').
  exists m'. split_and!; try done.
  - by apply MapWF_MapInv.
  - rewrite MapWF_get_alist, Hps by done.
    clear. induction (_pairs m) as [|q l IH]; simpl.
    + by rewrite decide_True.
    + case_decide; simpl; [by rewrite decide_True|].
      by rewrite decide_False.
  - intros Hno. pose proof Hwf' as [[_ _ _ Hsize'] _ _ _].
    unfold size, DynamicArray.size. rewrite uint32_small by lia.
    by apply Hroom'.
Qed.

(** A run of assignments [map[key] = value]. *)
Lemma assign_all_MapWF (kvs : list (K * V)) : forall (locals : nat -> V) m,
  MapWF m -> Z.of_nat (length (_pairs m)) + 2 <= _binCount m ->
  (Z.of_nat (length (_pairs m)) + Z.of_nat (length kvs)) * 100 < 2 ^ 32 ->
  exists m',
    assign_all locals kvs m = Some m' /\ MapWF m' /\
    _pairs m' = alist_assign_all kvs (_pairs m).
Proof.
  induction kvs as [|[k v] kvs IH]; intros locals m Hwf Hroom Hno.
  { by exists m. }
  pose proof Hwf as [[_ _ Hu _] _ _ _].
  destruct (index_assign_MapWF (locals 0%nat) m k v Hwf Hroom)
    as (m1 & Hrun & Hwf1 & Hps1 & _ & _ & Hroom1).
  pose proof (alist_assign_length (_pairs m) k v) as Hlen.
  simpl in Hno. rewrite <- Hps1 in Hlen.
  destruct (IH (fun i => locals (S i)) m1 Hwf1)
    as (m' & Hrest & Hwf' & Hps'); [apply Hroom1; lia|lia|].
  exists m'. simpl. rewrite Hrun. split; [done|]. split; [done|].
  by rewrite Hps', Hps1.
Qed.

(** A default-constructed map filled with [map[key] = value], fewer
    than 42949673 times: every assignment returns, the store ends up as
    the insertion-ordered association list of the assignments, and a
    read of any key gives the value last assigned to it, or fails its
    assertion when none was; what the locals of [operator[]] held makes
    no difference. *)
Theorem assign_all_from_new (hashFunc : K -> Z) (locals : nat -> V)
    (kvs : list (K * V)) :
  Z.of_nat (length kvs) * 100 < 2 ^ 32 ->
  exists m0 m',
    Map_new hashFunc = Some m0 /\ assign_all locals kvs m0 = Some m' /\
    MapWF m' /\ MapInv m' /\
    _pairs m' = alist_assign_all kvs [] /\
    size m' = Z.of_nat (length (alist_assign_all kvs [])) /\
    forall k, get m' k = alist_get (alist_assign_all kvs []) k.
Proof.
  intros Hno.
  destruct (fresh_map_empty (V := V) hashFunc 5 ltac:(lia)) as (Hwf & _ & _).
  set (m0 := mkMap _ _ _ _ _) in Hwf.
  destruct (assign_all_MapWF kvs locals m0 Hwf) as (m' & Hrun & Hwf' & Hps);
    [simpl; pow_consts; lia|simpl; lia|].
  change (_pairs m0) with ([] : list (Pair K V)) in Hps.
  exists m0, m'. split.
  { unfold Map_new, binAlloc_get.
    exact (clearBins_fresh (mkMap [] hashFunc None 0 0) 32 ltac:(lia)). }
  split_and!; try done.
  - by apply MapWF_MapInv.
  - pose proof Hwf' as [[_ _ _ Hsize] _ _ _].
    unfold size, DynamicArray.size. rewrite uint32_small by lia.
    by rewrite Hps.
  - intros k. rewrite <- Hps. by apply MapWF_get_alist.
Qed.

End Assign.

(** ** [operator[]] and [clear] on maps in which every stored key is found *)

Section IndexClear.

Context {K V : Type} `{EqDecision K}.

Implicit Types (m : Map K V) (k : K) (bs : list Z).

(** The write-or-create [operator[]] on a map in which every stored key
    is found and two bins are free: the call returns and leaves such a
    map; the store is untouched when the key was there; no other key
    reads differently; and two bins are free again as long as the
    product [_binsInUse * 100] fits 32 bits. *)
Theorem index_keeps_MapWF (value_ : V) m k :
  MapWF m -> size m + 2 <= _binCount m ->
  exists m' (v : V),
    index value_ m k = Some (m', v) /\ MapWF m' /\ MapInv m' /\
    (k ∈ keys m -> _pairs m' = _pairs m) /\
    (forall k', k' <> k -> get m' k' = get m k') /\
    (_binsInUse m * 100 < 2 ^ 32 -> size m' + 2 <= _binCount m').
Proof.
  intros Hwf Hroom.
  pose proof Hwf as [[_ (j & Hj & Hc) _ Hsize] _ _ _].
  unfold size, DynamicArray.size in Hroom.
  rewrite uint32_small in Hroom by lia.
  destruct (index_MapWF value_ m k Hwf Hroom)
    as (m' & v & Hrun & Hwf' & Hps & Hc' & Hroom' & Hothers).
  exists m', v. split_and!; try done.
  - by apply MapWF_MapInv.
  - intros Hin. by rewrite Hps, decide_True.
  - intros Hno. specialize (Hroom' Hno).
    pose proof Hwf' as [[_ _ _ Hsize'] _ _ _].
    unfold size, DynamicArray.size. rewrite uint32_small by lia.
    rewrite Hps. case_decide; [lia|]. rewrite length_app. simpl. lia.
Qed.

(** [clear()] leaves no mapping: afterwards [has] is false for every
    key, every read fails its assertion, and the invariant of the data
    model holds, whatever state the bins were in before. *)
Theorem clear_removes_all m :
  MapShape m ->
  exists m',
    clear m = Some m' /\ MapWF m' /\ MapInv m' /\
    (forall k, has m' k = Some false) /\ (forall k, get m' k = None).
Proof.
  intros [(bs & Hbs & Hlen) (j & Hj & Hc) _ _].
  destruct (fresh_map_empty (V := V) (_hashFunc m) j Hj)
    as (Hwf & Hhas & Hget).
  unfold clear. rewrite (clearBins_ok m bs) by done.
  assert (length bs = Z.to_nat (2 ^ j)) as -> by lia.
  unfold with_binsInUse, with_pairs, with_bins, DynamicArray.clear.
  cbn [_pairs _hashFunc _bins _binsInUse _binCount]. rewrite Hc.
  eexists. split; [done|]. split_and!; try done. by apply MapWF_MapInv.
Qed.

End IndexClear.

(** ** Iterators *)

Section IteratorFacts.

Context {K V : Type}.

Implicit Types (m : Map K V) (h : @MapIterator.Heap K V) (this : Addr).

Lemma neqb_of_map this (i n : Z) :
  MapIterator.neqb (MapIterator.of_map this i) (MapIterator.of_map this n)
  = negb (bool_decide (i = n)).
Proof.
  unfold MapIterator.neqb. simpl. by rewrite bool_decide_eq_true_2.
Qed.

(** The loop from position [i] to the end of a store of [i + n] pairs. *)
Lemma traverse_from {T} (select : Pair K V -> T) h this
    (ps : list (Pair K V)) (n : nat) :
  forall (i fuel : nat),
  h this = Some ps -> Z.of_nat (length ps) < 2 ^ 32 ->
  (i + n = length ps)%nat -> (n <= fuel)%nat ->
  MapIterator.traverse select fuel h
    (MapIterator.of_map this (Z.of_nat i))
    (MapIterator.of_map this (Z.of_nat (length ps)))
  = Some (select <$> drop i ps).
Proof.
  induction n as [|n IH]; intros i fuel Hh Hsmall Hi Hfuel.
  - assert (i = length ps) as -> by lia.
    rewrite drop_all. destruct fuel; simpl;
      by rewrite neqb_of_map, bool_decide_eq_true_2.
  - destruct fuel as [|fuel]; [lia|]. simpl.
    rewrite neqb_of_map, bool_decide_eq_false_2 by lia. simpl.
    destruct (lookup_lt_is_Some_2 ps i) as [p Hp]; [lia|].
    unfold MapIterator.deref. simpl. rewrite Hh.
    unfold DynamicArray.at_. case_decide; [|lia]. rewrite Nat2Z.id, Hp.
    unfold MapIterator.incr. simpl. rewrite uint32_small by lia.
    replace (Z.of_nat i + 1) with (Z.of_nat (S i)) by lia.
    fold (MapIterator.of_map this (Z.of_nat (S i))).
    rewrite IH by (done || lia).
    by rewrite (drop_S _ _ _ Hp).
Qed.

(** The callers' loop from [cKeysBegin()] to [cKeysEnd()] and from
    [cbegin()] to [cend()] visits the store from its first pair to its
    last: it yields the keys, the values, and in the sibling revision
    the pairs, in the order the store has them, and the body runs
    [size()] times. *)
Theorem traverse_visits_store m h this (fuel : nat) :
  h this = Some (_pairs m) -> Z.of_nat (length (_pairs m)) < 2 ^ 32 ->
  (length (_pairs m) <= fuel)%nat ->
  MapIterator.traverse (@key K V) fuel h (cKeysBegin this) (cKeysEnd this m)
  = Some (keys m) /\
  MapIterator.traverse (@value K V) fuel h (cbegin this) (cend this m)
  = Some (value <$> _pairs m) /\
  MapIterator.traverse (fun p : Pair K V => p) fuel h (cbegin this)
    (cend this m)
  = Some (_pairs m) /\
  MapIterator.traverse (@key K V) (Nat.pred (length (_pairs m))) h
    (cKeysBegin this) (cKeysEnd this m)
  = (if decide (length (_pairs m) = 0%nat) then Some [] else None).
Proof.
  intros Hh Hsmall Hfuel.
  unfold cKeysBegin, cKeysEnd, cbegin, cend, DynamicArray.size, keys.
  rewrite uint32_small by lia.
  change 0 with (Z.of_nat 0).
  rewrite !(traverse_from _ h this (_pairs m) (length (_pairs m)) 0 fuel)
    by (done || lia).
  rewrite drop_0, list_fmap_id. split_and!; try done.
  case_decide as Hn.
  - rewrite Hn. simpl. by rewrite neqb_of_map, bool_decide_eq_true_2.
  - (* one body execution short: the loop cannot finish *)
    assert (forall (n i : nat),
      (i + S n = length (_pairs m))%nat ->
      MapIterator.traverse (@key K V) n h
        (MapIterator.of_map this (Z.of_nat i))
        (MapIterator.of_map this (Z.of_nat (length (_pairs m)))) = None)
      as Hshort.
    { induction n as [|n IH]; intros i Hi; simpl;
        rewrite neqb_of_map, bool_decide_eq_false_2 by lia; simpl; [done|].
      destruct (lookup_lt_is_Some_2 (_pairs m) i) as [p Hp]; [lia|].
      unfold MapIterator.deref. simpl. rewrite Hh.
      unfold DynamicArray.at_. case_decide; [|lia]. rewrite Nat2Z.id, Hp.
      unfold MapIterator.incr. simpl. rewrite uint32_small by lia.
      replace (Z.of_nat i + 1) with (Z.of_nat (S i)) by lia.
      fold (MapIterator.of_map this (Z.of_nat (S i))).
      rewrite IH by lia. done. }
    apply (Hshort _ 0%nat). lia.
Qed.

(** Comparing iterators: [cbegin()] equals [cend()] exactly when the map
    is empty; iterators on different maps are never equal, whatever
    their positions; a default-constructed iterator equals no iterator
    on a map; and [operator!=] is the negation of [operator==]. *)
Lemma iterator_comparison m this (other : Addr) (it iter : MapIterator.t)
    (i n : Z) :
  MapIterator.eqb (cbegin this) (cend this m) = isEmpty m /\
  (this <> other ->
   MapIterator.eqb (MapIterator.of_map this i) (MapIterator.of_map other n)
   = false) /\
  MapIterator.eqb MapIterator.new_ (MapIterator.of_map this i) = false /\
  MapIterator.neqb it iter = negb (MapIterator.eqb it iter).
Proof.
  split_and!.
  - unfold MapIterator.eqb, cbegin, cend, isEmpty, DynamicArray.isEmpty.
    simpl. rewrite bool_decide_eq_true_2 by done. simpl.
    apply bool_decide_ext. split; intros; congruence.
  - intros Hne. unfold MapIterator.eqb. simpl.
    rewrite bool_decide_eq_false_2; [done|]. congruence.
  - done.
  - unfold MapIterator.neqb, MapIterator.eqb.
    by destruct (bool_decide _), (bool_decide _).
Qed.

(** Stepping, comparing and dereferencing: an iterator on a map can be
    dereferenced exactly at the positions below [size()], where it
    gives the pair the store has there; [cend()] cannot be
    dereferenced, nor can a default-constructed iterator; [cbegin()]
    equals [cend()] exactly when the map is empty; decrementing
    [cbegin()] wraps the position around to [2 ^ 32 - 1]; and below
    the last position a decrement undoes an increment. *)
Theorem iterator_steps m h this (i : Z) :
  h this = Some (_pairs m) -> Z.of_nat (length (_pairs m)) < 2 ^ 32 ->
  0 <= i < 2 ^ 32 ->
  ConstIterator_deref h (MapIterator.of_map this i)
  = _pairs m !! Z.to_nat i /\
  MapIterator.eqb (cbegin this) (cend this m) = isEmpty m /\
  (is_Some (ConstIterator_deref h (MapIterator.of_map this i))
   <-> i < size m) /\
  ConstKeyIterator_deref h (cKeysEnd this m) = None /\
  ConstValueIterator_deref h (cend this m) = None /\
  ConstValueIterator_deref h MapIterator.new_ = None /\
  MapIterator.decr (cbegin this) = MapIterator.of_map this (2 ^ 32 - 1) /\
  (i + 1 < 2 ^ 32 ->
   MapIterator.decr (MapIterator.incr (MapIterator.of_map this i))
   = MapIterator.of_map this i).
Proof.
  intros Hh Hsmall Hi.
  assert (forall {T} (select : Pair K V -> T),
    MapIterator.deref select h (cend this m) = None) as Hend.
  { intros T select. unfold MapIterator.deref, cend, DynamicArray.size.
    simpl. rewrite Hh, uint32_small by lia. unfold DynamicArray.at_.
    case_decide; [|done]. rewrite Nat2Z.id.
    by rewrite lookup_ge_None_2. }
  assert (ConstIterator_deref h (MapIterator.of_map this i)
          = _pairs m !! Z.to_nat i) as Hderef.
  { unfold ConstIterator_deref, MapIterator.deref. simpl. rewrite Hh.
    unfold DynamicArray.at_. case_decide; [|lia].
    by destruct (_pairs m !! Z.to_nat i). }
  split_and!; try done.
  - by destruct (iterator_comparison m this this (cbegin this) (cbegin this)
                   0 0) as [? _].
  - rewrite Hderef, lookup_lt_is_Some.
    unfold size, DynamicArray.size. rewrite uint32_small by lia. lia.
  - apply Hend.
  - apply Hend.
  - intros Hi1. unfold MapIterator.decr, MapIterator.incr,
      MapIterator.of_map. simpl.
    rewrite (uint32_small (i + 1)) by lia.
    replace (i + 1 - 1) with i by lia. by rewrite uint32_small.
Qed.

End IteratorFacts.

(** ** memory_utils.h *)

Section MemoryUtilsFacts.

Context {T : Type}.

Lemma set_loop_overrun (count : nat) : forall (ptr : list T) v (i : nat),
  (i <= length ptr)%nat -> (length ptr < i + count)%nat ->
  MemoryUtils.set_loop ptr v i count = None.
Proof.
  induction count as [|count IH]; intros ptr v i Hi Hover; [lia|]. simpl.
  case_decide; [|done]. apply IH; rewrite length_insert; lia.
Qed.

Lemma copy_loop_overrun (count : nat) : forall (dst src : list T) (i : nat),
  (i <= length dst)%nat -> (i <= length src)%nat ->
  (length dst < i + count \/ length src < i + count)%nat ->
  MemoryUtils.copy_loop dst src i count = None.
Proof.
  induction count as [|count IH]; intros dst src i Hd Hs Hover; [lia|].
  simpl. case_decide; [|done].
  destruct (src !! i) as [x|] eqn:Hx; [|done].
  pose proof (lookup_lt_Some _ _ _ Hx).
  apply IH; rewrite ?length_insert; lia.
Qed.

(** [MemoryUtils::set] writes the value to the first [count] cells and
    leaves the others alone; a [count] beyond the end of the array is a
    write outside it. *)
Theorem MemoryUtils_set_prefix (cells : list T) (v : T) (count : Z) :
  MemoryUtils.set (Some cells) v count =
  if decide (count <= Z.of_nat (length cells))
  then Some (Some (replicate (Z.to_nat count) v
                   ++ drop (Z.to_nat count) cells))
  else None.
Proof.
  unfold MemoryUtils.set. case_decide as Hc.
  - destruct (set_loop_lookup (Z.to_nat count) cells v 0)
      as (r & -> & Hl & Hj); [lia|].
    do 2 f_equal. apply list_eq. intros j. rewrite Hj.
    destruct (decide (j < Z.to_nat count)%nat).
    + rewrite decide_True by lia.
      rewrite lookup_app_l by (rewrite length_replicate; lia).
      by rewrite lookup_replicate_2.
    + rewrite decide_False by lia.
      rewrite lookup_app_r by (rewrite length_replicate; lia).
      rewrite length_replicate, lookup_drop. f_equal. lia.
  - by rewrite set_loop_overrun by lia.
Qed.

(** [MemoryUtils::copy] copies the first [count] cells of the source to
    the destination and leaves the other cells of the destination
    alone; a [count] beyond the end of either array is an access
    outside it. *)
Theorem MemoryUtils_copy_prefix (dst src : list T) (count : Z) :
  MemoryUtils.copy (Some dst) (Some src) count =
  if decide (count <= Z.of_nat (length dst) /\
             count <= Z.of_nat (length src))
  then Some (Some (take (Z.to_nat count) src ++ drop (Z.to_nat count) dst))
  else None.
Proof.
  unfold MemoryUtils.copy. case_decide as Hc.
  - destruct (copy_loop_lookup (Z.to_nat count) dst src 0)
      as (r & -> & Hl & Hj); [lia|lia|].
    do 2 f_equal. apply list_eq. intros j. rewrite Hj.
    destruct (decide (j < Z.to_nat count)%nat).
    + rewrite decide_True by lia.
      rewrite lookup_app_l by (rewrite length_take; lia).
      by rewrite lookup_take_lt.
    + rewrite decide_False by lia.
      rewrite lookup_app_r by (rewrite length_take; lia).
      rewrite length_take, lookup_drop. f_equal. lia.
  - by rewrite copy_loop_overrun by lia.
Qed.

End MemoryUtilsFacts.

(** ** The lookup of the sibling revision *)

Section TriangularProbing.

Local Notation "'tri' n" := (n * (n + 1) / 2) (at level 10, n at level 9).

Lemma double_triangle (n : Z) : 2 * tri n = n * (n + 1).
Proof.
  pose proof (Z.div_mod (n * (n + 1)) 2 ltac:(lia)) as Hdm.
  assert ((n * (n + 1)) mod 2 = 0) as Hmod; [|lia].
  rewrite Zmod_even, Z.even_mul, Z.even_add.
  by destruct (Z.even n).
Qed.

Lemma pow2_divide_odd_mul (n : nat) : forall x y : Z,
  Z.odd x = true -> (2 ^ Z.of_nat n | x * y) -> (2 ^ Z.of_nat n | y).
Proof.
  induction n as [|n IH]; intros x y Hx Hdiv.
  - apply Z.divide_1_l.
  - rewrite Nat2Z.inj_succ, Z.pow_succ_r in * by lia.
    destruct Hdiv as [q Hq].
    assert (Z.odd y = false) as Hy.
    { assert (Z.odd (x * y) = false) as Hxy.
      { rewrite Hq. replace (q * (2 * 2 ^ Z.of_nat n))
          with (2 * (q * 2 ^ Z.of_nat n)) by lia.
        apply Z.odd_even. }
      rewrite Z.odd_mul, Hx in Hxy. done. }
    pose proof (Z.div2_odd y) as Hy2. rewrite Hy in Hy2. simpl in Hy2.
    destruct (IH x (Z.div2 y) Hx) as [q' Hq'].
    { exists q. lia. }
    exists q'. lia.
Qed.

(** Two triangular numbers with indices below [2 ^ j] differ modulo
    [2 ^ j]. *)
Lemma triangle_apart (j a b : Z) :
  0 <= j -> 0 <= a < b -> b < 2 ^ j -> ~ (2 ^ j | tri b - tri a).
Proof.
  intros Hj Hab Hb [q Hq].
  assert (2 ^ (j + 1) = 2 * 2 ^ j) as Hpow
    by (rewrite Z.pow_add_r by lia; lia).
  assert ((2 ^ (j + 1) | (b - a) * (a + b + 1))) as Hdiv.
  { exists q. pose proof (double_triangle a). pose proof (double_triangle b).
    lia. }
  replace (j + 1) with (Z.of_nat (Z.to_nat (j + 1))) in Hdiv, Hpow by lia.
  assert (xorb (Z.odd (b - a)) (Z.odd (a + b + 1)) = true) as Hpar.
  { rewrite <- Z.odd_add. replace (b - a + (a + b + 1)) with (2 * b + 1) by lia.
    apply Z.odd_odd. }
  destruct (Z.odd (b - a)) eqn:Hodd.
  - apply pow2_divide_odd_mul in Hdiv; [|done].
    apply Z.divide_pos_le in Hdiv; lia.
  - simpl in Hpar. rewrite Z.mul_comm in Hdiv.
    apply pow2_divide_odd_mul in Hdiv; [|done].
    apply Z.divide_pos_le in Hdiv; lia.
Qed.

(** The first [2 ^ j] triangular offsets from any bin reach every bin
    of a table of [2 ^ j] bins. *)
Lemma triangle_covers (j h c : Z) :
  0 <= j -> 0 <= c < 2 ^ j ->
  exists n : nat, Z.of_nat n < 2 ^ j /\
    (h + tri (Z.of_nat n)) mod 2 ^ j = c.
Proof.
  intros Hj Hc.
  assert (0 < 2 ^ j) as Hpos by lia.
  set (f := fun n : nat => (h + tri (Z.of_nat n)) mod 2 ^ j).
  set (N := Z.to_nat (2 ^ j)).
  assert (NoDup (f <$> seq 0 N)) as Hnd.
  { apply NoDup_fmap_2_strong; [|apply NoDup_seq].
    intros a b Ha%elem_of_seq Hb%elem_of_seq Hfab. unfold f in Hfab.
    destruct (decide (a = b)) as [|Hne]; [done|]. exfalso.
    assert (forall x y : nat, (x < y)%nat -> (y < N)%nat ->
              (h + tri (Z.of_nat x)) mod 2 ^ j
              = (h + tri (Z.of_nat y)) mod 2 ^ j -> False) as Hcontra.
    { intros x y Hxy Hy Heq.
      apply (triangle_apart j (Z.of_nat x) (Z.of_nat y)); [lia|lia|lia|].
      apply Z.mod_divide; [lia|].
      replace (tri (Z.of_nat y) - tri (Z.of_nat x))
        with ((h + tri (Z.of_nat y)) - (h + tri (Z.of_nat x))) by lia.
      rewrite Zminus_mod, Heq, Z.sub_diag. by apply Z.mod_0_l; lia. }
    destruct (decide (a < b)%nat).
    - apply (Hcontra a b); [lia|lia|done].
    - apply (Hcontra b a); [lia|lia|done]. }
  assert (f <$> seq 0 N ≡ₚ Z.of_nat <$> seq 0 N) as Hperm.
  { apply submseteq_length_Permutation;
      [|by rewrite !length_fmap, !length_seq].
    apply NoDup_submseteq; [done|].
    intros x (n & -> & Hn)%list_elem_of_fmap.
    apply list_elem_of_fmap. exists (Z.to_nat (f n)).
    pose proof (Z.mod_pos_bound (h + tri (Z.of_nat n)) (2 ^ j) Hpos).
    unfold f in *. split; [lia|]. apply elem_of_seq. lia. }
  assert (c ∈ f <$> seq 0 N) as Hin.
  { rewrite Hperm. apply list_elem_of_fmap. exists (Z.to_nat c).
    split; [lia|]. apply elem_of_seq. lia. }
  apply list_elem_of_fmap in Hin as (n & -> & Hn%elem_of_seq).
  exists n. split; [lia|done].
Qed.

(** Among the first [n0 + 1] tests of a sequence either all fail or
    there is a first that succeeds. *)
Lemma first_success (P : nat -> option bool) (n0 : nat) :
  (forall n, (n <= n0)%nat -> is_Some (P n)) ->
  (forall t, (t <= n0)%nat -> P t = Some false) \/
  (exists n, (n <= n0)%nat /\ P n = Some true /\
             forall t, (t < n)%nat -> P t = Some false).
Proof.
  induction n0 as [|n0 IH]; intros Hdef.
  - destruct (Hdef 0%nat) as [[|] H0]; [lia| |].
    + right. exists 0%nat. split; [lia|]. split; [done|]. intros t Ht. lia.
    + left. intros t Ht. by replace t with 0%nat by lia.
  - destruct IH as [Hall|(n & Hn & Hsucc & Hbefore)].
    { intros n Hn. apply Hdef. lia. }
    + destruct (Hdef (S n0)) as [[|] HS]; [lia| |].
      * right. exists (S n0). split; [lia|]. split; [done|].
        intros t Ht. apply Hall. lia.
      * left. intros t Ht. destruct (decide (t = S n0)) as [->|]; [done|].
        apply Hall. lia.
    + right. exists n. split; [lia|]. by split.
Qed.

End TriangularProbing.

Section SiblingLookup.

Context {K V : Type} `{EqDecision K}.

Implicit Types (m : Map K V) (k : K).

(** The lookup of the revision that wraps its probe index, in a table
    of a power-of-two size whose bins all hold EMPTY or an index into
    the store: its probe sequence reaches every bin within [_binCount]
    probes, so the lookup returns, within that many probes, as soon as
    some bin is EMPTY or refers to a pair with the key; when every bin
    refers to a pair with another key it never returns. *)
Theorem findBinForKey_sibling_returns m k (j : Z) :
  0 <= j <= 31 -> _binCount m = 2 ^ j ->
  (forall c, 0 <= c < _binCount m -> is_Some (stops m k c)) ->
  (forall c, 0 <= c < _binCount m ->
     exists n : nat, Z.of_nat n < _binCount m /\
                     candidate PairIterator m k n = c) /\
  ((exists e, stops m k e = Some true) ->
   exists b, findBinForKey_sibling (Z.to_nat (_binCount m)) m k = Some b /\
             stops m k b = Some true) /\
  ((forall c, 0 <= c < _binCount m -> stops m k c = Some false) ->
   forall fuel, findBinForKey_sibling fuel m k = None).
Proof.
  intros Hj Hc Hdef.
  assert (0 < 2 ^ j) as Hpos by (apply Z.pow_pos_nonneg; lia).
  assert (forall c, 0 <= c < _binCount m ->
            exists n : nat, Z.of_nat n < _binCount m /\
                            candidate PairIterator m k n = c) as Hcover.
  { intros c Hcr. rewrite Hc in Hcr.
    destruct (triangle_covers j (hash m k) c ltac:(lia) Hcr) as (n & Hn & Hf).
    exists n. split; [lia|].
    rewrite (candidate_sibling m k j) by done.
    unfold triangular_candidate. rewrite (wrap_pow2 m j) by done.
    rewrite <- Hf. by apply uint32_eqm. }
  split; [done|]. split.
  - intros [e He]. pose proof (stops_range _ _ _ _ He) as Her.
    destruct (Hcover e Her) as (n0 & Hn0 & Hcand).
    destruct (first_success
                (fun n => stops m k (candidate PairIterator m k n)) n0)
      as [Hall|(n & Hn & Hsucc & Hbefore)].
    { intros n _. apply Hdef.
      rewrite (candidate_sibling m k j) by done.
      unfold triangular_candidate. by eapply wrap_range. }
    { specialize (Hall n0 ltac:(lia)). simpl in Hall.
      rewrite Hcand in Hall. congruence. }
    exists (candidate PairIterator m k n). split; [|done].
    unfold findBinForKey_sibling, candidate.
    apply findBin_loop_first; [done|done|lia].
  - intros Hfull fuel. unfold findBinForKey_sibling.
    apply (findBin_loop_sibling_spins m k j); try done.
    by eapply wrap_range.
Qed.

End SiblingLookup.

(** ** [remove] in a map without collisions *)

Section RemoveSafe.

Context {K V : Type} `{EqDecision K}.

Implicit Types (m : Map K V) (k : K) (bs : list Z).

Lemma NoDup_filter_lookup (P : Z -> Prop) `{!forall x, Decision (P x)}
    (l : list Z) : forall (i j : nat) (x : Z),
  NoDup (filter P l) -> l !! i = Some x -> l !! j = Some x -> P x -> i = j.
Proof.
  induction l as [|y l IH]; intros i j x Hnd Hi Hj Hx; [done|].
  rewrite filter_cons in Hnd.
  destruct i as [|i], j as [|j]; simpl in *; try done.
  - injection Hi as ->. rewrite decide_True in Hnd by done.
    apply list.NoDup_cons in Hnd as [Hnot _]. exfalso. apply Hnot.
    apply list_elem_of_filter. split; [done|].
    by eapply list_elem_of_lookup_2.
  - injection Hj as ->. rewrite decide_True in Hnd by done.
    apply list.NoDup_cons in Hnd as [Hnot _]. exfalso. apply Hnot.
    apply list_elem_of_filter. split; [done|].
    by eapply list_elem_of_lookup_2.
  - f_equal. apply (IH i j x); try done.
    case_decide; [by apply list.NoDup_cons in Hnd as [_ ?]|done].
Qed.

(** In a map in which every stored key is found, no two bins hold the
    same index. *)
Lemma MapWF_bins_inj m bs (c c' : nat) (x : Z) :
  MapWF m -> _bins m = Some bs ->
  bs !! c = Some x -> bs !! c' = Some x -> x <> BIN_EMPTY -> c = c'.
Proof.
  intros Hwf Hbs Hc Hc' Hx.
  apply (NoDup_filter_lookup (fun b => b <> BIN_EMPTY) bs c c' x); try done.
  fold (live_bins bs). rewrite (MapWF_live m bs Hwf Hbs).
  apply (NoDup_fmap_2 _), NoDup_seq.
Qed.

Lemma live_bins_shifted bs (r : Z) :
  0 <= r ->
  Forall (fun x => x = BIN_EMPTY \/ 0 <= x < 2 ^ 32 - 1) bs ->
  length (live_bins (shifted r <$> bs)) = length (live_bins bs).
Proof.
  intros Hr0.
  unfold live_bins. induction 1 as [|x bs Hx Hbs IH]; [done|].
  rewrite fmap_cons, !filter_cons.
  assert (shifted r x <> BIN_EMPTY <-> x <> BIN_EMPTY) as Hiff.
  { unfold shifted. case_decide as Hd; [|done].
    rewrite BIN_EMPTY_val in *. pow_consts.
    rewrite uint32_small by (pow_consts; lia). lia. }
  case_decide; case_decide; simpl; try tauto; by rewrite IH.
Qed.

Lemma live_bins_empty_out bs : forall (c : nat) (x : Z),
  bs !! c = Some x -> x <> BIN_EMPTY ->
  S (length (live_bins (<[c := BIN_EMPTY]> bs))) = length (live_bins bs).
Proof.
  unfold live_bins. induction bs as [|y bs IH]; intros c x Hc Hx; [done|].
  destruct c as [|c]; simpl in *.
  - injection Hc as ->. rewrite !filter_cons.
    rewrite decide_False by (intros ?; done). by rewrite decide_True.
  - rewrite !filter_cons. case_decide; simpl; by rewrite (IH c x).
Qed.

(** [remove] of a key that is there, in a map in which every stored key
    is found in the bin its hash wraps to, when the shrink check fails:
    the call returns; the key has no mapping afterwards; every other
    key reads as before; and every stored key is again found in the bin
    its hash wraps to, so the invariant of the data model holds. *)
Theorem remove_without_collisions m k :
  MapWF m -> shouldShrink m = Some false ->
  (forall p, p ∈ _pairs m ->
     findBinForKey m (key p) = Some (wrap m (hash m (key p)))) ->
  has m k = Some true ->
  exists m',
    remove m k = Some m' /\ MapWF m' /\ MapInv m' /\
    has m' k = Some false /\ size m' = size m - 1 /\
    (forall k', k' <> k -> get m' k' = get m k') /\
    (forall p, p ∈ _pairs m' ->
       findBinForKey m' (key p) = Some (wrap m' (hash m' (key p)))).
Proof.
  intros Hwf Hs Hhome Hhas.
  pose proof Hwf as [[(bs & Hbs & Hlen) (j & Hj & Hc) Hu Hsize]
                       Hvalid Hlive Hfound].
  destruct (has_true_found m k Hhas)
    as (b & r & p & Hfind & Hr & Hrne & Hr0 & Hp & Hpk).
  pose proof (findBinForKey_range _ _ _ Hfind) as Hbr.
  pose proof (lookup_lt_Some _ _ _ Hp) as Hrlt.
  destruct (bin_at_lookup _ _ _ _ Hbs Hr) as [_ Hbsb].
  destruct (remove_after_check_present m bs k b r p) as [Hrun Hgone];
    try done.
  set (m' := mkMap _ _ _ _ _) in *.
  assert (remove m k = Some m') as Hrem by (by rewrite remove_unfold, Hs).
  (* the bins other than [b] *)
  assert (forall (c : nat) x, Z.of_nat c <> b -> bs !! c = Some x ->
            bin_at m' (Z.of_nat c) = Some (shifted r x)) as Hbin.
  { intros c x Hcb Hx. unfold bin_at. simpl. case_decide; [|lia].
    rewrite Nat2Z.id, list_lookup_insert_ne by lia.
    by rewrite list_lookup_fmap, Hx. }
  (* the pairs that remain, with their old positions *)
  assert (forall (i' : nat) q, _pairs m' !! i' = Some q ->
            exists i : nat, _pairs m !! i = Some q /\ i <> Z.to_nat r /\
                            shifted r (Z.of_nat i) = Z.of_nat i') as Hold.
  { intros i' q Hq. simpl in Hq.
    assert (BIN_EMPTY = 4294967295) as HE by apply BIN_EMPTY_val.
    destruct (decide (i' < Z.to_nat r)%nat).
    - rewrite list_lookup_delete_lt in Hq by done.
      exists i'. split; [done|]. split; [lia|].
      unfold shifted. rewrite decide_False; [done|lia].
    - rewrite list_lookup_delete_ge in Hq by lia.
      pose proof (lookup_lt_Some _ _ _ Hq).
      exists (S i'). split; [done|]. split; [lia|].
      unfold shifted. rewrite decide_True by (pow_consts; lia).
      rewrite uint32_small by (pow_consts; lia). lia. }
  (* every remaining key is found in its home bin *)
  assert (forall (i' : nat) q, _pairs m' !! i' = Some q ->
            findBinForKey m' (key q) = Some (wrap m' (hash m' (key q))) /\
            bin_at m' (wrap m' (hash m' (key q))) = Some (Z.of_nat i'))
    as Hhome'.
  { intros i' q Hq. destruct (Hold i' q Hq) as (i & Hi & Hir & Hshift).
    pose proof (lookup_lt_Some _ _ _ Hi) as Hilt.
    destruct (Hfound i q Hi) as (c & Hfc & Hc').
    rewrite (Hhome q) in Hfc by (by eapply list_elem_of_lookup_2).
    injection Hfc as <-.
    set (w := wrap m (hash m (key q))) in *.
    change (wrap m' (hash m' (key q))) with w.
    pose proof (wrap_range m j (hash m (key q)) ltac:(lia) Hc) as Hw.
    fold w in Hw.
    destruct (bin_at_lookup _ _ _ _ Hbs Hc') as [_ Hbsw].
    assert (w <> b) as Hwb.
    { intros ->. rewrite Hbsb in Hbsw. injection Hbsw as Heq. lia. }
    assert (bin_at m' w = Some (Z.of_nat i')) as Hat.
    { rewrite <- (Z2Nat.id w) by lia. rewrite <- Hshift.
      apply Hbin; [lia|done]. }
    split; [|done].
    unfold findBinForKey. rewrite findBin_loop_S.
    change (wrap m' (hash m' (key q))) with w.
    rewrite stops_bin_key.
    rewrite (bin_key_at m' w (Z.of_nat i')) by (done || simpl; lia).
    pose proof (lookup_lt_Some _ _ _ Hq) as Hi'. simpl in Hi'.
    rewrite length_delete in Hi' by (by eexists).
    rewrite decide_False by (rewrite BIN_EMPTY_val; pow_consts; lia).
    unfold DynamicArray.at_. case_decide; [|lia].
    rewrite Nat2Z.id, Hq. simpl. by rewrite bool_decide_eq_true_2. }
  assert (MapWF m') as Hwf'.
  { split.
    - split.
      + eexists. split; [done|]. simpl.
        by rewrite length_insert, length_fmap.
      + by exists j.
      + simpl. rewrite length_delete by (by eexists).
        rewrite Hu. rewrite uint32_small by lia. lia.
      + simpl. rewrite length_delete by (by eexists). lia.
    - intros bs' [= <-]. simpl. rewrite length_delete by (by eexists).
      apply Forall_lookup. intros c y Hy.
      destruct (decide (c = Z.to_nat b)) as [->|Hcb].
      { rewrite list_lookup_insert_eq in Hy by (rewrite length_fmap; lia).
        injection Hy as <-. by left. }
      rewrite list_lookup_insert_ne, list_lookup_fmap in Hy by done.
      destruct (bs !! c) as [x|] eqn:Hx; [|done]. injection Hy as <-.
      pose proof (Hvalid bs Hbs) as Hall.
      rewrite Forall_lookup in Hall. specialize (Hall c x Hx).
      assert (BIN_EMPTY = 4294967295) as HE by apply BIN_EMPTY_val.
      unfold shifted. case_decide as Hd.
      * right. rewrite uint32_small by (pow_consts; lia). lia.
      * destruct Hall as [->|Hxr]; [by left|right].
        assert (x <> r) as Hne'.
        { intros ->. apply Hcb.
          apply (MapWF_bins_inj m bs c (Z.to_nat b) r); done. }
        lia.
    - intros bs' [= <-]. simpl. rewrite length_delete by (by eexists).
      assert ((shifted r <$> bs) !! Z.to_nat b = Some r) as Hsb
        by (by rewrite list_lookup_fmap, Hbsb; simpl; rewrite shifted_self).
      pose proof (live_bins_empty_out (shifted r <$> bs) (Z.to_nat b) r
                    Hsb Hrne) as Hout.
      rewrite live_bins_shifted in Hout; [|done|].
      2:{ eapply Forall_impl; [|exact (Hvalid bs Hbs)].
          simpl. intros x [?|?]; [by left|right; pow_consts; lia]. }
      pose proof (Hlive bs Hbs). lia.
    - intros i' q Hq. destruct (Hhome' i' q Hq) as [Hf Hat]. by eexists. }
  exists m'. split_and!; try done.
  - by apply MapWF_MapInv.
  - unfold size, DynamicArray.size. simpl.
    rewrite length_delete by (by eexists). rewrite !uint32_small by lia. lia.
  - intros k' Hne. pose proof Hwf' as [[_ _ _ Hsize'] _ _ Hfound'].
    destruct (decide (k' ∈ keys m')) as [Hin|Hout].
    + apply list_elem_of_fmap in Hin
        as (q & -> & [i' Hq]%list_elem_of_lookup_1).
      destruct (found_get m' i' q Hsize' Hfound' Hq) as [-> _].
      destruct (Hold i' q Hq) as (i & Hi & _).
      by destruct (found_get m i q Hsize Hfound Hi) as [-> _].
    + rewrite !absent_get_None; [done| |].
      * intros q [i Hq]%list_elem_of_lookup_1 Hqk. apply Hout.
        unfold keys. apply list_elem_of_fmap. exists q. split; [done|].
        assert (i <> Z.to_nat r) as Hir.
        { intros ->. congruence. }
        simpl. destruct (decide (i < Z.to_nat r)%nat).
        -- apply (list_elem_of_lookup_2 _ i).
           by rewrite list_lookup_delete_lt.
        -- apply (list_elem_of_lookup_2 _ (Nat.pred i)).
           rewrite list_lookup_delete_ge by lia.
           by replace (S (Nat.pred i)) with i by lia.
      * intros q Hq Hqk. apply Hout. unfold keys.
        rewrite <- Hqk. by apply list_elem_of_fmap_2.
  - intros q [i' Hq]%list_elem_of_lookup_1.
    by destruct (Hhome' i' q Hq).
Qed.

End RemoveSafe.

(** ** The claims at concrete maps *)

Section Tools.

Context {K V : Type} `{EqDecision K}.

Implicit Types (m : Map K V) (k : K).

(** A key that resolves to a bin holding [i] reaches it. *)
Lemma reaches_of_find m k b i :
  findBinForKey m k = Some b -> bin_at m b = Some i -> reaches m k i.
Proof.
  intros Hfind Hbin. unfold findBinForKey in Hfind.
  apply findBin_loop_inv in Hfind as (n & _ & -> & _ & Hbefore).
  exists n. split; [done|].
  intros t Ht. by destruct (stops_false _ _ _ (Hbefore t Ht)).
Qed.

Lemma Z_forall_below (P : Z -> Prop) `{!forall c, Decision (P c)} (n : nat) :
  bool_decide (Forall (fun i : nat => P (Z.of_nat i)) (seq 0 n)) = true ->
  forall c, 0 <= c < Z.of_nat n -> P c.
Proof.
  intros Hall c Hc. apply bool_decide_eq_true in Hall.
  rewrite Forall_forall in Hall.
  rewrite <- (Z2Nat.id c) by lia. apply Hall.
  apply in_seq. lia.
Qed.

End Tools.

Module ExampleFacts.

Import Example.

Ltac by_compute := vm_compute; reflexivity.

(** The data-model invariant of a concrete map with [2 ^ j] bins, by
    evaluation. *)
Ltac prove_MapShape j :=
  split;
  [ eexists; split; [reflexivity | by_compute]
  | exists j; split; [lia | by_compute]
  | by_compute
  | by_compute ].

Ltac prove_MapInv j :=
  split;
  [ prove_MapShape j
  | intros ? [= <-]; apply (bool_decide_unpack _); by vm_compute
  | intros ? [= <-]; by_compute
  | let i := fresh "i" in let Hi := fresh "Hi" in
    intros ? i [= <-]; intros Hi;
    repeat (destruct i as [|i]; [by_compute|]);
    vm_compute in Hi; lia
  | let i := fresh "i" in let Hp := fresh "Hp" in
    intros i ?;
    repeat (destruct i as [|i];
            [intros Hp; vm_compute in Hp; injection Hp as <-;
             eapply reaches_of_find; by_compute|]);
    intros Hp; vm_compute in Hp; discriminate Hp ].

Lemma one_key_built : put_all [5] empty = Some one_key.
Proof. by_compute. Qed.

Lemma two_neighbours_built : put_all [5; 6] empty = Some two_neighbours.
Proof. by_compute. Qed.

Lemma two_colliding_built : put_all [5; 37] empty = Some two_colliding.
Proof. by_compute. Qed.

Lemma three_keys_built : put_all [5; 37; 7] empty = Some three_keys.
Proof. by_compute. Qed.

Lemma loaded_built : put_all (first_keys 23) empty = Some loaded.
Proof. by_compute. Qed.

Lemma full_built : put_all (first_keys 32) empty = Some full.
Proof. by_compute. Qed.

Lemma sparse_built :
  (let? fresh := Map_capacity 64 hashFunc in put fresh 5 50) = Some sparse.
Proof. by_compute. Qed.

Lemma two_colliding_MapInv : MapInv two_colliding.
Proof. prove_MapInv 5. Qed.

Lemma loaded_MapInv : MapInv loaded.
Proof. prove_MapInv 5. Qed.

Lemma sparse_MapInv : MapInv sparse.
Proof. prove_MapInv 6. Qed.

(** A concrete map with [2 ^ j] bins in which every stored key is
    found, by evaluation. *)
Ltac prove_MapWF j :=
  split;
  [ prove_MapShape j
  | intros ? [= <-]; apply (bool_decide_unpack _); by vm_compute
  | intros ? [= <-]; apply Nat.leb_le; by_compute
  | let i := fresh "i" in let Hp := fresh "Hp" in
    intros i ?;
    repeat (destruct i as [|i];
            [intros Hp; vm_compute in Hp; injection Hp as <-;
             eexists; split; by_compute|]);
    intros Hp; vm_compute in Hp; discriminate Hp ].

Lemma one_key_MapWF : MapWF one_key.
Proof. prove_MapWF 5. Qed.

Lemma two_colliding_MapWF : MapWF two_colliding.
Proof. prove_MapWF 5. Qed.

Lemma three_keys_MapWF : MapWF three_keys.
Proof. prove_MapWF 5. Qed.

Lemma loaded_MapWF : MapWF loaded.
Proof. prove_MapWF 5. Qed.

Lemma sparse_MapWF : MapWF sparse.
Proof. prove_MapWF 6. Qed.

(** A run of puts from a reachable map ends in a reachable map. *)
Lemma put_all_None ks : put_all ks None = None.
Proof. unfold put_all. by induction ks. Qed.

Lemma reachable_put_all ks : forall m m',
  reachable m -> put_all ks (Some m) = Some m' -> reachable m'.
Proof.
  induction ks as [|k ks IH]; intros m m' Hm; simpl.
  - by intros [= <-].
  - unfold put_all. simpl.
    destruct (put m k (10 * k)) as [m1|] eqn:Hput.
    + apply IH. by eapply reach_put.
    + fold (put_all ks None). by rewrite put_all_None.
Qed.

Lemma loaded_reachable : reachable loaded.
Proof.
  apply (reachable_put_all (first_keys 23) (built empty)); [|by_compute].
  apply (reach_new hashFunc). by_compute.
Qed.

Lemma sparse_reachable : reachable sparse.
Proof.
  apply (reach_put (built (Map_capacity 64 hashFunc)) 5 50); [|by_compute].
  apply (reach_capacity 64 hashFunc); [by vm_compute|by_compute].
Qed.



(** C2, the code at a load of 71 percent.  [put] of a key that is absent
    neither checks the load nor grows the table: the map has 32 bins
    before and after.  [operator[]] on the same map and key does grow it
    to 64. *)
Theorem put_skips_growth_check :
  shouldGrow loaded = Some true /\
  _binCount loaded = 32 /\ _binsInUse loaded = 23 /\
  has loaded 24 = Some false /\
  put loaded 24 240 = Some loaded_put /\
  _binCount loaded_put = 32 /\ _binsInUse loaded_put = 24 /\
  size loaded_put = 24 /\ get loaded_put 24 = Some 240 /\
  (forall value_, index value_ loaded 24
                  = Some (loaded_index value_, value_)) /\
  (forall value_, _binCount (loaded_index value_) = 64).
Proof. split_and!; try by_compute; intros value_; by_compute. Qed.

(** C3, the code on two keys with the same initial bin.  After
    [put( 5 )], [put( 37 )] the invariant holds; [remove( 5 )] empties
    bin 5, the initial bin of key 37, and leaves the pair of key 37 in
    the store, referred to by a bin the probe sequence of 37 no longer
    reaches: [has( 37 )] is false, the read of key 37 fails, and the
    invariant is broken. *)
Theorem remove_breaks_invariant :
  put_all [5; 37] empty = Some two_colliding /\
  MapInv two_colliding /\
  has two_colliding 37 = Some true /\
  remove two_colliding 5 = Some colliding_removed /\
  _pairs colliding_removed = [makePair 37 370] /\
  wrap colliding_removed (hash colliding_removed 37) = 5 /\
  bin_at colliding_removed 5 = Some BIN_EMPTY /\
  bin_at colliding_removed 1 = Some 0 /\
  has colliding_removed 37 = Some false /\
  get colliding_removed 37 = None /\
  ~ reaches colliding_removed 37 0 /\
  ~ MapInv colliding_removed.
Proof.
  assert (~ reaches colliding_removed 37 0) as Hunreached.
  { intros ([|n] & Hbin & Hbefore).
    - vm_compute in Hbin. done.
    - specialize (Hbefore 0%nat ltac:(lia)). vm_compute in Hbefore. done. }
  split; [by_compute|]. split; [exact two_colliding_MapInv|].
  do 8 (split; [by_compute|]).
  split; [exact Hunreached|].
  intros Hinv. apply Hunreached.
  by apply (inv_reach colliding_removed Hinv 0%nat (makePair 37 370)).
Qed.

Lemma remove_present_witness :
  (MapShape three_keys /\ has three_keys 5 = Some true /\
   _binsInUse three_keys * 100 < 2 ^ 32 /\
   remove three_keys 5 = Some three_keys_removed) /\
  is_Some (remove three_keys 5) /\
  exists m1 bs (b r : Z) p,
    after_shrink_check three_keys m1 /\
    _pairs m1 = _pairs three_keys /\ _bins m1 = Some bs /\
    findBinForKey m1 5 = Some b /\ bin_at m1 b = Some r /\
    r <> BIN_EMPTY /\ 0 <= r /\
    _pairs three_keys !! Z.to_nat r = Some p /\ key p = 5 /\
    _pairs three_keys_removed = delete (Z.to_nat r) (_pairs three_keys) /\
    (forall i : nat, _pairs three_keys_removed !! i =
       if decide (i < Z.to_nat r)%nat then _pairs three_keys !! i
       else _pairs three_keys !! S i) /\
    _binsInUse three_keys_removed = _binsInUse three_keys - 1 /\
    _bins three_keys_removed
    = Some (<[Z.to_nat b := BIN_EMPTY]> (shifted r <$> bs)) /\
    (forall (i : nat) x, bs !! i = Some x ->
       bin_at three_keys_removed (Z.of_nat i) =
       Some (if decide (Z.of_nat i = b) then BIN_EMPTY
             else if decide (x <> BIN_EMPTY /\ x > r) then uint32 (x - 1)
                  else x)) /\
    _binCount three_keys_removed = _binCount m1 /\
    has three_keys_removed 5 = Some false /\
    size three_keys_removed = size three_keys - 1.
Proof.
  assert (MapShape three_keys) as Hshape by prove_MapShape 5.
  assert (has three_keys 5 = Some true) as Hhas by by_compute.
  assert (_binsInUse three_keys * 100 < 2 ^ 32) as Hsmall by by_compute.
  assert (remove three_keys 5 = Some three_keys_removed) as Hrun
    by by_compute.
  split; [done|].
  destruct (remove_present three_keys 5 Hshape Hhas) as [Htotal Hpartial].
  split; [exact (Htotal Hsmall)|exact (Hpartial _ Hrun)].
Defined.

(** C5, the code on a full table.  32 puts of distinct keys into an
    empty map fill its 32 bins, [put] never having grown the table; the
    33rd put, of a key that is absent, does not complete: in map.h the
    probe index runs past the last bin into the assertion of
    [isBinEmpty], in the sibling revision the loop finds no bin to stop
    at, whatever the fuel. *)
Theorem put_fails_when_full :
  put_all (first_keys 32) empty = Some full /\
  size full = 32 /\ _binCount full = 32 /\
  (forall p, p ∈ _pairs full -> key p <> 33) /\
  findBinForKey full 33 = None /\
  put full 33 330 = None /\
  put_all (first_keys 33) empty = None /\
  (forall fuel, findBinForKey_sibling fuel full 33 = None).
Proof.
  split; [by_compute|]. split; [by_compute|]. split; [by_compute|].
  split; [|split; [by_compute|]; split; [by_compute|]; split; [by_compute|]].
  - intros p Hp. apply list_elem_of_In in Hp. revert p Hp.
    apply (Forall_forall (fun p : Pair Z Z => key p <> 33)).
    apply (bool_decide_unpack _). by vm_compute.
  - intros fuel. unfold findBinForKey_sibling.
    apply (findBin_loop_sibling_spins full 33 5); [lia|by_compute| |by vm_compute].
    apply (Z_forall_below (fun c => stops full 33 c = Some false) 32).
    by_compute.
Qed.

Lemma capacity_invariant_witness :
  (reachable loaded /\ ~ moved_from loaded /\
   MapInv loaded /\ shouldGrow loaded = Some true) /\
  (reachable sparse /\ ~ moved_from sparse /\
   MapShape sparse /\ shouldShrink sparse = Some true /\
   _binsInUse sparse * 100 < 2 ^ 32) /\
  (* 23 keys in 32 bins: [grow] is due, and doubles *)
  (exists j, 5 <= j <= 31 /\ _binCount loaded = 2 ^ j) /\
  32 <= _binCount loaded /\
  (exists m', grow loaded = Some m' /\
              _binCount m' = 2 * _binCount loaded) /\
  (* one key in 64 bins: [shrink] is due, and halves *)
  (exists j, 5 <= j <= 31 /\ _binCount sparse = 2 ^ j) /\
  (uint32 (_binsInUse sparse * 100) / _binCount sparse <= 30 /\
   _binCount sparse > 32) /\
  (exists m', shrink sparse = Some m' /\
              _binCount m' = _binCount sparse / 2 /\ 32 <= _binCount m') /\
  (* the constructors *)
  (exists (m0 : Map Z Z) j,
     Map_capacity 3000 hashFunc = Some m0 /\
     5 <= j <= 31 /\ _binCount m0 = 2 ^ j /\ 3000 <= 2 ^ j /\
     (5 < j -> 2 ^ (j - 1) < 3000)) /\
  (Map_capacity (V := Z) (2 ^ 31 + 1) hashFunc = None /\
   forall fuel, round_loop fuel MIN_BINS (2 ^ 31 + 1) = None).
Proof.
  assert (~ moved_from loaded) as Hlive_l.
  { intros (Hu & _). vm_compute in Hu. discriminate Hu. }
  assert (~ moved_from sparse) as Hlive_s.
  { intros (Hu & _). vm_compute in Hu. discriminate Hu. }
  assert (shouldGrow loaded = Some true) as Hg by by_compute.
  assert (MapShape sparse) as Hshape by exact (inv_shape _ sparse_MapInv).
  assert (shouldShrink sparse = Some true) as Hs by by_compute.
  assert (_binsInUse sparse * 100 < 2 ^ 32) as Hsmall by by_compute.
  destruct (capacity_invariant loaded loaded_reachable Hlive_l)
    as (Hpow_l & Hfloor_l & _ & Hgrow & _ & _ & _ & _ & _).
  destruct (capacity_invariant sparse sparse_reachable Hlive_s)
    as (Hpow_s & _ & _ & _ & Hcheck & _ & Hshrink & Hctor & Hnever).
  split; [split; [exact loaded_reachable|split; [exact Hlive_l|
          split; [exact loaded_MapInv|exact Hg]]]|].
  split; [split; [exact sparse_reachable|split; [exact Hlive_s|
          split; [exact Hshape|split; [exact Hs|exact Hsmall]]]]|].
  split; [exact Hpow_l|]. split; [exact Hfloor_l|].
  split; [exact (Hgrow loaded_MapInv Hg)|].
  split; [exact Hpow_s|].
  split; [exact (proj1 Hcheck Hs)|].
  split; [exact (Hshrink Hshape Hs Hsmall)|].
  split; [exact (Hctor 3000 hashFunc ltac:(lia))|].
  exact (Hnever (2 ^ 31 + 1) hashFunc ltac:(lia)).
Defined.

Lemma clear_resets_witness :
  (_bins three_keys = Some (default [] (_bins three_keys)) /\
   Z.of_nat (length (default [] (_bins three_keys))) = _binCount three_keys) /\
  exists m',
    clear three_keys = Some m' /\
    _bins m' = Some (replicate (length (default [] (_bins three_keys)))
                       BIN_EMPTY) /\
    (forall i, 0 <= i < _binCount m' -> isBinEmpty m' i = Some true) /\
    _pairs m' = [] /\ size m' = 0 /\ isEmpty m' = true /\
    _binsInUse m' = 0 /\
    _binCount m' = _binCount three_keys.
Proof.
  split.
  - split; by_compute.
  - apply (clear_resets three_keys (default [] (_bins three_keys)));
      by_compute.
Defined.

(** The shrinking case of C9 needs a key that is in no pair.  Twenty
    keys in 64 bins, 5 and 69 with the same initial bin; [remove( 5 )]
    leaves the pair of key 69 in the store and [has( 69 )] false (the
    state of C3).  The load is then 29 percent: [remove( 69 )] shrinks
    first, the rehash finds key 69 again, and the call takes its pair
    out of the store. *)
Lemma remove_hidden_key :
  remove crowded 5 = Some hidden /\
  has hidden 69 = Some false /\
  69 ∈ keys hidden /\
  shouldShrink hidden = Some true /\
  remove hidden 69 = Some hidden_removed /\
  size hidden = 19 /\ size hidden_removed = 18 /\
  _binsInUse hidden = 19 /\ _binsInUse hidden_removed = 18 /\
  69 ∉ keys hidden_removed.
Proof.
  split_and!; try by_compute.
  - apply (bool_decide_unpack _). by vm_compute.
  - apply (bool_decide_unpack _). by vm_compute.
Qed.



End ExampleFacts.

(** ** The further properties at concrete maps *)

Module ExtraFacts.

Import Example ExampleFacts ExtraExample.

Lemma stops_defined_full : forall c, 0 <= c < _binCount full ->
  is_Some (stops full 33 c).
Proof.
  apply (Z_forall_below (fun c => is_Some (stops full 33 c)) 32).
  by_compute.
Qed.

Lemma findBinForKey_result_witness :
  findBinForKey two_colliding 37 = Some 1 /\
  0 <= 1 < _binCount two_colliding /\
  (isBinEmpty two_colliding 1 = Some true \/
   exists (x : Z) p, bin_at two_colliding 1 = Some x /\ x <> BIN_EMPTY /\
     _pairs two_colliding !! Z.to_nat x = Some p /\ key p = 37) /\
  exists n : nat,
    Z.of_nat n <= _binCount two_colliding /\
    1 = candidate KeyValueIterators two_colliding 37 n /\
    forall t : nat, (t < n)%nat ->
      exists k', bin_key two_colliding
                   (candidate KeyValueIterators two_colliding 37 t)
                 = Some (Some k') /\ k' <> 37.
Proof.
  assert (findBinForKey two_colliding 37 = Some 1) as Hfind by by_compute.
  split; [exact Hfind|]. exact (findBinForKey_result two_colliding 37 1 Hfind).
Defined.

Lemma findBinForKey_asserts_iff_witness :
  (0 <= 5 <= 31 /\ _binCount full = 2 ^ 5 /\
   forall c, 0 <= c < _binCount full -> is_Some (stops full 33 c)) /\
  (findBinForKey full 33 = None <-> all_taken full 33).
Proof.
  split; [split; [lia|split; [by_compute|exact stops_defined_full]]|].
  apply (findBinForKey_asserts_iff full 33 5);
    [lia|by_compute|exact stops_defined_full].
Defined.

Lemma wrap_is_remainder_witness :
  (0 <= 5 <= 31 /\ _binCount one_key = 2 ^ 5) /\
  wrap one_key 37 = 37 mod _binCount one_key /\
  0 <= wrap one_key 37 < _binCount one_key.
Proof.
  split; [split; [lia|by_compute]|].
  apply (wrap_is_remainder one_key 5 37); [lia|by_compute].
Defined.

Lemma Map_capacity_is_empty_witness :
  3000 <= 2 ^ 31 /\
  exists (m : Map Z Z) (j : Z),
    Map_capacity 3000 hashFunc = Some m /\
    5 <= j <= 31 /\ _binCount m = 2 ^ j /\ 3000 <= 2 ^ j /\
    (5 < j -> 2 ^ (j - 1) < 3000) /\
    size m = 0 /\ isEmpty m = true /\
    (forall k, has m k = Some false) /\
    MapWF m /\ MapInv m.
Proof.
  split; [lia|]. apply (Map_capacity_is_empty (V := Z) 3000 hashFunc). lia.
Defined.

Lemma Map_capacity_never_returns_witness :
  2 ^ 31 < 2147483649 /\
  (forall fuel, round_loop fuel MIN_BINS 2147483649 = None) /\
  Map_capacity (V := Z) 2147483649 hashFunc = None.
Proof.
  split; [lia|].
  apply (Map_capacity_never_returns (V := Z) 2147483649 hashFunc). lia.
Defined.

Lemma Map_copy_same_witness :
  (_bins three_keys = Some (default [] (_bins three_keys)) /\
   Z.of_nat (length (default [] (_bins three_keys))) = _binCount three_keys) /\
  Map_copy three_keys = Some three_keys.
Proof.
  split; [split; by_compute|].
  apply (Map_copy_same three_keys (default [] (_bins three_keys)));
    by_compute.
Defined.

Lemma get_absent_witness :
  (forall p, p ∈ _pairs one_key -> key p <> 9) /\
  get one_key 9 = None /\ has one_key 9 <> Some true.
Proof.
  assert (forall p, p ∈ _pairs one_key -> key p <> 9) as Habsent.
  { intros p Hp. apply list_elem_of_In in Hp. revert p Hp.
    apply (Forall_forall (fun p : Pair Z Z => key p <> 9)).
    apply (bool_decide_unpack _). by vm_compute. }
  split; [exact Habsent|]. exact (get_absent one_key 9 Habsent).
Defined.

Lemma put_then_get_witness :
  (_bins loaded = Some (default [] (_bins loaded)) /\
   Z.of_nat (length (default [] (_bins loaded))) = _binCount loaded /\
   Z.of_nat (length (_pairs loaded)) < 2 ^ 32 - 1 /\
   put loaded 24 240 = Some loaded_put) /\
  get loaded_put 24 = Some 240 /\ has loaded_put 24 = Some true /\
  (has loaded 24 = Some true /\ size loaded_put = size loaded \/
   has loaded 24 = Some false /\ size loaded_put = size loaded + 1).
Proof.
  split; [split_and!; by_compute|].
  apply (put_then_get loaded (default [] (_bins loaded)) 24 240 loaded_put);
    by_compute.
Defined.

Lemma put_returns_witness :
  (MapInv two_colliding /\ size two_colliding + 2 <= _binCount two_colliding)
  /\ is_Some (put two_colliding 7 70).
Proof.
  assert (size two_colliding + 2 <= _binCount two_colliding) as Hroom
    by by vm_compute.
  split; [split; [exact two_colliding_MapInv|exact Hroom]|].
  exact (put_returns two_colliding 7 70 two_colliding_MapInv Hroom).
Defined.

Lemma put_keeps_mappings_witness :
  (Z.of_nat (length (_pairs loaded)) < 2 ^ 32 - 1 /\
   put loaded 24 240 = Some loaded_put /\ 5 <> 24 /\
   has loaded 5 = Some true) /\
  get loaded_put 5 = get loaded 5 /\ has loaded_put 5 = Some true.
Proof.
  split; [split_and!; (by_compute || done)|].
  apply (put_keeps_mappings loaded 24 240 loaded_put 5);
    (by_compute || done).
Defined.

Lemma put_keys_order_witness :
  put loaded 24 240 = Some loaded_put /\
  ((has loaded 24 = Some true /\ keys loaded_put = keys loaded) \/
   (has loaded 24 = Some false /\ keys loaded_put = keys loaded ++ [24])).
Proof.
  assert (put loaded 24 240 = Some loaded_put) as Hput by by_compute.
  split; [exact Hput|]. exact (put_keys_order loaded 24 240 loaded_put Hput).
Defined.

Lemma put_preserves_MapWF_witness :
  (MapWF loaded /\ Z.of_nat (length (_pairs loaded)) < 2 ^ 32 - 1 /\
   put loaded 24 240 = Some loaded_put) /\
  MapWF loaded_put /\ MapInv loaded_put.
Proof.
  assert (Z.of_nat (length (_pairs loaded)) < 2 ^ 32 - 1) as Hsmall
    by by_compute.
  assert (put loaded 24 240 = Some loaded_put) as Hput by by_compute.
  split; [split; [exact loaded_MapWF|split; [exact Hsmall|exact Hput]]|].
  exact (put_preserves_MapWF loaded 24 240 loaded_put loaded_MapWF
           Hsmall Hput).
Defined.

Lemma MapWF_get_stored_witness :
  (MapWF two_colliding /\ makePair 37 370 ∈ _pairs two_colliding) /\
  get two_colliding 37 = Some 370 /\ has two_colliding 37 = Some true /\
  NoDup (keys two_colliding).
Proof.
  assert (makePair 37 370 ∈ _pairs two_colliding) as Hin.
  { apply (list_elem_of_lookup_2 _ 1%nat). by_compute. }
  split; [split; [exact two_colliding_MapWF|exact Hin]|].
  exact (MapWF_get_stored two_colliding (makePair 37 370)
           two_colliding_MapWF Hin).
Defined.

Lemma grow_keeps_mappings_witness :
  (MapWF loaded /\ shouldGrow loaded = Some true) /\
  exists m', grow loaded = Some m' /\
    MapWF m' /\ MapInv m' /\
    _binCount m' = 2 * _binCount loaded /\ _pairs m' = _pairs loaded /\
    forall k, get m' k = get loaded k.
Proof.
  assert (shouldGrow loaded = Some true) as Hgrow by by_compute.
  split; [split; [exact loaded_MapWF|exact Hgrow]|].
  exact (grow_keeps_mappings loaded loaded_MapWF Hgrow).
Defined.

Lemma shrink_keeps_mappings_witness :
  (MapWF sparse /\ shouldShrink sparse = Some true /\
   _binsInUse sparse * 100 < 2 ^ 32) /\
  is_Some (shrink sparse) /\
  forall m', shrink sparse = Some m' ->
    MapWF m' /\ MapInv m' /\
    _binCount m' = _binCount sparse / 2 /\ 32 <= _binCount m' /\
    _pairs m' = _pairs sparse /\
    forall k, get m' k = get sparse k.
Proof.
  assert (shouldShrink sparse = Some true) as Hs by by_compute.
  assert (_binsInUse sparse * 100 < 2 ^ 32) as Hsmall by by_compute.
  split; [split; [exact sparse_MapWF|split; [exact Hs|exact Hsmall]]|].
  destruct (shrink_keeps_mappings sparse sparse_MapWF Hs) as [Hkeep Hreturns].
  split; [exact (Hreturns Hsmall)|exact Hkeep].
Defined.

Lemma index_then_get_witness :
  (Z.of_nat (length (_pairs loaded)) < 2 ^ 32 - 1 /\
   index garbage loaded 24 = Some (loaded_index garbage, garbage)) /\
  get (loaded_index garbage) 24 = Some garbage /\
  has (loaded_index garbage) 24 = Some true.
Proof.
  split; [split; by_compute|].
  apply (index_then_get garbage loaded 24 (loaded_index garbage) garbage);
    by_compute.
Defined.

Lemma index_creates_default_witness :
  ((forall p, p ∈ _pairs loaded -> key p <> 24) /\
   Z.of_nat (length (_pairs loaded)) < 2 ^ 32 - 1 /\
   index garbage loaded 24 = Some (loaded_index garbage, garbage)) /\
  garbage = garbage /\
  _pairs (loaded_index garbage) = _pairs loaded ++ [makePair 24 garbage] /\
  size (loaded_index garbage) = size loaded + 1.
Proof.
  assert (forall p, p ∈ _pairs loaded -> key p <> 24) as Habsent.
  { intros p Hp. apply list_elem_of_In in Hp. revert p Hp.
    apply (Forall_forall (fun p : Pair Z Z => key p <> 24)).
    apply (bool_decide_unpack _). by vm_compute. }
  assert (Z.of_nat (length (_pairs loaded)) < 2 ^ 32 - 1) as Hsmall
    by by_compute.
  assert (index garbage loaded 24 = Some (loaded_index garbage, garbage))
    as Hrun by by_compute.
  split; [split; [exact Habsent|split; [exact Hsmall|exact Hrun]]|].
  exact (index_creates_default garbage loaded 24 (loaded_index garbage)
           garbage Habsent Hsmall Hrun).
Defined.

Lemma index_keeps_MapWF_witness :
  (MapWF loaded /\ size loaded + 2 <= _binCount loaded) /\
  exists m' (v : Z),
    index garbage loaded 24 = Some (m', v) /\ MapWF m' /\ MapInv m' /\
    (24 ∈ keys loaded -> _pairs m' = _pairs loaded) /\
    (forall k', k' <> 24 -> get m' k' = get loaded k') /\
    (_binsInUse loaded * 100 < 2 ^ 32 -> size m' + 2 <= _binCount m').
Proof.
  assert (size loaded + 2 <= _binCount loaded) as Hroom by by vm_compute.
  split; [split; [exact loaded_MapWF|exact Hroom]|].
  exact (index_keeps_MapWF garbage loaded 24 loaded_MapWF Hroom).
Defined.

Lemma index_assign_correct_witness :
  (MapWF two_colliding /\ size two_colliding + 2 <= _binCount two_colliding)
  /\
  exists m',
    index_assign garbage two_colliding 37 371 = Some m' /\
    MapWF m' /\ MapInv m' /\
    _pairs m' = alist_assign (_pairs two_colliding) 37 371 /\
    get m' 37 = Some 371 /\
    (forall k', k' <> 37 -> get m' k' = get two_colliding k') /\
    (_binsInUse two_colliding * 100 < 2 ^ 32 ->
     size m' + 2 <= _binCount m').
Proof.
  assert (size two_colliding + 2 <= _binCount two_colliding) as Hroom
    by by vm_compute.
  split; [split; [exact two_colliding_MapWF|exact Hroom]|].
  exact (index_assign_correct garbage two_colliding 37 371
           two_colliding_MapWF Hroom).
Defined.

Lemma assign_all_from_new_witness :
  Z.of_nat (length [(5, 50); (37, 370); (5, 51)]) * 100 < 2 ^ 32 /\
  exists m0 m',
    Map_new hashFunc = Some m0 /\
    assign_all garbage_at [(5, 50); (37, 370); (5, 51)] m0 = Some m' /\
    MapWF m' /\ MapInv m' /\
    _pairs m' = alist_assign_all [(5, 50); (37, 370); (5, 51)] [] /\
    size m'
    = Z.of_nat (length (alist_assign_all [(5, 50); (37, 370); (5, 51)] [])) /\
    forall k, get m' k
              = alist_get (alist_assign_all [(5, 50); (37, 370); (5, 51)] [])
                  k.
Proof.
  assert (Z.of_nat (length [(5, 50); (37, 370); (5, 51)]) * 100 < 2 ^ 32)
    as Hno by by_compute.
  split; [exact Hno|].
  exact (assign_all_from_new hashFunc garbage_at
           [(5, 50); (37, 370); (5, 51)] Hno).
Defined.

Lemma clear_removes_all_witness :
  MapShape three_keys /\
  exists m',
    clear three_keys = Some m' /\ MapWF m' /\ MapInv m' /\
    (forall k, has m' k = Some false) /\ (forall k, get m' k = None).
Proof.
  assert (MapShape three_keys) as Hshape by prove_MapShape 5.
  split; [exact Hshape|]. exact (clear_removes_all three_keys Hshape).
Defined.

Lemma findBinForKey_sibling_returns_witness :
  (0 <= 5 <= 31 /\ _binCount full = 2 ^ 5 /\
   forall c, 0 <= c < _binCount full -> is_Some (stops full 33 c)) /\
  (forall c, 0 <= c < _binCount full ->
     exists n : nat, Z.of_nat n < _binCount full /\
                     candidate PairIterator full 33 n = c) /\
  ((exists e, stops full 33 e = Some true) ->
   exists b, findBinForKey_sibling (Z.to_nat (_binCount full)) full 33
             = Some b /\ stops full 33 b = Some true) /\
  ((forall c, 0 <= c < _binCount full -> stops full 33 c = Some false) ->
   forall fuel, findBinForKey_sibling fuel full 33 = None).
Proof.
  split; [split; [lia|split; [by_compute|exact stops_defined_full]]|].
  apply (findBinForKey_sibling_returns full 33 5);
    [lia|by_compute|exact stops_defined_full].
Defined.

Lemma two_neighbours_MapWF : MapWF two_neighbours.
Proof. prove_MapWF 5. Qed.

Lemma traverse_visits_store_witness :
  (store_at 0%nat three_keys 0%nat = Some (_pairs three_keys) /\
   Z.of_nat (length (_pairs three_keys)) < 2 ^ 32 /\
   (length (_pairs three_keys) <= 3)%nat) /\
  MapIterator.traverse (@key Z Z) 3 (store_at 0%nat three_keys)
    (cKeysBegin 0%nat) (cKeysEnd 0%nat three_keys)
  = Some (keys three_keys) /\
  MapIterator.traverse (@value Z Z) 3 (store_at 0%nat three_keys)
    (cbegin 0%nat) (cend 0%nat three_keys)
  = Some (value <$> _pairs three_keys) /\
  MapIterator.traverse (fun p : Pair Z Z => p) 3 (store_at 0%nat three_keys)
    (cbegin 0%nat) (cend 0%nat three_keys)
  = Some (_pairs three_keys) /\
  MapIterator.traverse (@key Z Z) (Nat.pred (length (_pairs three_keys)))
    (store_at 0%nat three_keys) (cKeysBegin 0%nat) (cKeysEnd 0%nat three_keys)
  = (if decide (length (_pairs three_keys) = 0%nat) then Some [] else None).
Proof.
  assert (store_at 0%nat three_keys 0%nat = Some (_pairs three_keys)) as Hh
    by reflexivity.
  assert (Z.of_nat (length (_pairs three_keys)) < 2 ^ 32) as Hsmall
    by by_compute.
  assert (length (_pairs three_keys) <= 3)%nat as Hfuel
    by (apply Nat.leb_le; by_compute).
  split; [split; [exact Hh|split; [exact Hsmall|exact Hfuel]]|].
  exact (traverse_visits_store three_keys (store_at 0%nat three_keys) 0%nat 3
           Hh Hsmall Hfuel).
Defined.

Lemma iterator_steps_witness :
  (store_at 0%nat three_keys 0%nat = Some (_pairs three_keys) /\
   Z.of_nat (length (_pairs three_keys)) < 2 ^ 32 /\ 0 <= 1 < 2 ^ 32) /\
  ConstIterator_deref (store_at 0%nat three_keys) (MapIterator.of_map 0%nat 1)
  = _pairs three_keys !! Z.to_nat 1 /\
  MapIterator.eqb (cbegin 0%nat) (cend 0%nat three_keys) = isEmpty three_keys /\
  (is_Some (ConstIterator_deref (store_at 0%nat three_keys)
              (MapIterator.of_map 0%nat 1))
   <-> 1 < size three_keys) /\
  ConstKeyIterator_deref (store_at 0%nat three_keys) (cKeysEnd 0%nat three_keys)
  = None /\
  ConstValueIterator_deref (store_at 0%nat three_keys) (cend 0%nat three_keys)
  = None /\
  ConstValueIterator_deref (store_at 0%nat three_keys) MapIterator.new_ = None /\
  MapIterator.decr (cbegin 0%nat) = MapIterator.of_map 0%nat (2 ^ 32 - 1) /\
  (1 + 1 < 2 ^ 32 ->
   MapIterator.decr (MapIterator.incr (MapIterator.of_map 0%nat 1))
   = MapIterator.of_map 0%nat 1).
Proof.
  assert (store_at 0%nat three_keys 0%nat = Some (_pairs three_keys)) as Hh
    by reflexivity.
  assert (Z.of_nat (length (_pairs three_keys)) < 2 ^ 32) as Hsmall
    by by_compute.
  assert (0 <= 1 < 2 ^ 32) as Hi by lia.
  split; [split; [exact Hh|split; [exact Hsmall|exact Hi]]|].
  exact (iterator_steps three_keys (store_at 0%nat three_keys) 0%nat 1
           Hh Hsmall Hi).
Defined.

Lemma remove_without_collisions_witness :
  (MapWF two_neighbours /\ shouldShrink two_neighbours = Some false /\
   (forall p, p ∈ _pairs two_neighbours ->
      findBinForKey two_neighbours (key p)
      = Some (wrap two_neighbours (hash two_neighbours (key p)))) /\
   has two_neighbours 5 = Some true) /\
  exists m',
    remove two_neighbours 5 = Some m' /\ MapWF m' /\ MapInv m' /\
    has m' 5 = Some false /\ size m' = size two_neighbours - 1 /\
    (forall k', k' <> 5 -> get m' k' = get two_neighbours k') /\
    (forall p, p ∈ _pairs m' ->
       findBinForKey m' (key p) = Some (wrap m' (hash m' (key p)))).
Proof.
  assert (shouldShrink two_neighbours = Some false) as Hs by by_compute.
  assert (forall p, p ∈ _pairs two_neighbours ->
            findBinForKey two_neighbours (key p)
            = Some (wrap two_neighbours (hash two_neighbours (key p))))
    as Hhome.
  { intros p Hp. apply list_elem_of_In in Hp. revert p Hp.
    apply (Forall_forall
             (fun p : Pair Z Z =>
                findBinForKey two_neighbours (key p)
                = Some (wrap two_neighbours (hash two_neighbours (key p))))).
    apply (bool_decide_unpack _). by vm_compute. }
  assert (has two_neighbours 5 = Some true) as Hhas by by_compute.
  split; [split; [exact two_neighbours_MapWF|
                  split; [exact Hs|split; [exact Hhome|exact Hhas]]]|].
  exact (remove_without_collisions two_neighbours 5 two_neighbours_MapWF
           Hs Hhome Hhas).
Defined.

End ExtraFacts.
